(** * ChortService front end: capacity display, API client, real-time client

    A shallow embedding of the TypeScript front end of the server/domain
    inventory (API client [fetchApi], [WebSocketClient], the React hooks
    [useWebSocket] / [useRealtimeUpdates], the bulk-import handlers and the
    capacity renderers of the pages), followed by the properties the
    design document states about them.

    Conventions of the embedding:
    - a JavaScript [number] that is only ever produced from counts by
      [/], [*] and [Math.max] is an exact rational extended with
      [NaN] and the two infinities (rounding and the sign of zero are
      abstracted away, division by zero is not);
    - a JavaScript string that is split and trimmed is a list of UTF-16
      code units, other strings are [string];
    - object identity (sockets, closures, timers) is a natural number
      allocated from a counter of the modelled browser;
    - a method of a stateful object is a function on the explicit state of
      that object and of the browser around it;
    - page numbers, page sizes and totals are integers; their sums and
      products are exact, as they are in JavaScript up to
      [Number.MAX_SAFE_INTEGER]. *)

From Stdlib Require Import QArith Qround.
From stdpp Require Import base option list strings gmap pretty.

Open Scope string_scope.
Open Scope list_scope.
Set Warnings "-register-all".

(* ================================================================== *)
(** * Part I: the embedding                                             *)
(* ================================================================== *)

(** ** JavaScript numbers, as far as the capacity renderers need them *)

Module JsNum.

Inductive jsnum : Type :=
| Fin (q : Q)
| PosInf
| NegInf
| NaN.

Definition of_nat (n : nat) : jsnum := Fin (inject_Z (Z.of_nat n)).

Definition is_finite (x : jsnum) : bool :=
  match x with Fin _ => true | _ => false end.

Definition is_zero (q : Q) : bool := Qeq_bool q 0.
Definition is_nonneg (q : Q) : bool := Qle_bool 0 q.

(** [a / b]: IEEE division on the extended rationals. *)
Definition div (a b : jsnum) : jsnum :=
  match a, b with
  | NaN, _ | _, NaN => NaN
  | Fin x, Fin y =>
      if is_zero y then
        if is_zero x then NaN
        else if is_nonneg x then PosInf else NegInf
      else Fin (Qred (x / y))
  | Fin _, (PosInf | NegInf) => Fin 0
  | PosInf, Fin y => if is_nonneg y then PosInf else NegInf
  | NegInf, Fin y => if is_nonneg y then NegInf else PosInf
  | (PosInf | NegInf), (PosInf | NegInf) => NaN
  end.

(** [a * b]. *)
Definition mul (a b : jsnum) : jsnum :=
  match a, b with
  | NaN, _ | _, NaN => NaN
  | Fin x, Fin y => Fin (Qred (x * y))
  | Fin x, PosInf | PosInf, Fin x =>
      if is_zero x then NaN else if is_nonneg x then PosInf else NegInf
  | Fin x, NegInf | NegInf, Fin x =>
      if is_zero x then NaN else if is_nonneg x then NegInf else PosInf
  | PosInf, PosInf | NegInf, NegInf => PosInf
  | PosInf, NegInf | NegInf, PosInf => NegInf
  end.

(** [Math.max(a, b)]. *)
Definition max (a b : jsnum) : jsnum :=
  match a, b with
  | NaN, _ | _, NaN => NaN
  | PosInf, _ | _, PosInf => PosInf
  | NegInf, x | x, NegInf => x
  | Fin x, Fin y => if Qle_bool x y then Fin y else Fin x
  end.

End JsNum.

(** ** Capacity: modes, the option table of the server forms, the bars *)

Module Capacity.
Import JsNum.

(** Modelled from the spec: the type [CapacityMode] is declared in
    [lib/types], which is not among the sources; the design document
    names its three values low, medium and high.  On the wire and in the
    forms they are the strings ['1:5'], ['1:7'] and ['1:10']. *)
Inductive CapacityMode : Type := low | medium | high.

Definition all_modes : list CapacityMode := [low; medium; high].

(** Modelled from the spec: [slotsFor], the fixed table
    {low:5, medium:7, high:10} of section 4.1; the function belongs to
    the back end, which is not among the sources. *)
Definition slotsFor (m : CapacityMode) : nat :=
  match m with
  | low => 5
  | medium => 7
  | high => 10
  end.

(** The string a mode is written as in the forms and requests. *)
Definition mode_value (m : CapacityMode) : string :=
  match m with
  | low => "1:5"
  | medium => "1:7"
  | high => "1:10"
  end.

(** [e.target.value as CapacityMode]: reading a mode back from a form value. *)
Definition mode_of_value (s : string) : option CapacityMode :=
  if String.eqb s "1:5" then Some low
  else if String.eqb s "1:7" then Some medium
  else if String.eqb s "1:10" then Some high
  else None.

Record SelectOption : Type := mkOption { value : string; label : string }.

(** [const CAPACITY_OPTIONS] of both versions of the servers page. *)
Definition CAPACITY_OPTIONS : list SelectOption :=
  [ mkOption "1:5" "1:5 (5 domains max)";
    mkOption "1:7" "1:7 (7 domains max)";
    mkOption "1:10" "1:10 (10 domains max)" ].

(** The text a choice for mode [m] with [n] slots is expected to show. *)
Definition option_for (m : CapacityMode) (n : nat) : SelectOption :=
  mkOption (mode_value m) (mode_value m +:+ " (" +:+ pretty n +:+ " domains max)").

(** The fields of [Server] the capacity column reads. *)
Record Server : Type := mkServer {
  server_id : nat;
  current_domains : nat;
  max_domains : nat
}.

(** Servers page, column [capacity]: the [width] of the inner bar,
    [(server.current_domains / server.max_domains) * 100]. *)
Definition servers_page_bar_width (server : Server) : jsnum :=
  mul (div (of_nat (current_domains server)) (of_nat (max_domains server)))
      (of_nat 100).

(** One entry of [stats.capacity_utilization] on the dashboard. *)
Record ModeUtilization : Type := mkModeUtilization {
  servers : nat;
  used : nat;
  capacity : nat
}.

(** Dashboard, card "Capacity by Mode": the [width] of the bar,
    [(data.used / Math.max(data.capacity, 1)) * 100]. *)
Definition dashboard_bar_width (data : ModeUtilization) : jsnum :=
  mul (div (of_nat (used data)) (max (of_nat (capacity data)) (of_nat 1)))
      (of_nat 100).

(** The utilization percentage in the words of the design document:
    [current_domains / max_domains * 100], and 0 when [max_domains] is 0. *)
Definition spec_utilization_percent (current maxd : nat) : jsnum :=
  match maxd with
  | O => Fin 0
  | S _ => Fin (Qred (inject_Z (Z.of_nat current) / inject_Z (Z.of_nat maxd)
                      * inject_Z 100))
  end.

End Capacity.

(** ** JavaScript values, as [JSON.parse] and [response.json()] produce them *)

Module JsValue.

Inductive jsval : Type :=
| VUndefined
| VNull
| VBool (b : bool)
| VNum (q : Q)
| VStr (s : string)
| VArr (items : list jsval)
| VObj (fields : list (string * jsval)).

(** The value bound to a key in the list of own properties of an object
    (the keys of a parsed object are distinct). *)
Fixpoint assoc (k : string) (fields : list (string * jsval)) : option jsval :=
  match fields with
  | [] => None
  | (k', v) :: rest => if String.eqb k k' then Some v else assoc k rest
  end.

(** [v.k]: reading a property.  [None] is the [TypeError] raised on
    [null] and [undefined]; a missing property reads as [undefined].
    The keys read in this program are never properties of the prototypes
    of strings, numbers, booleans or arrays. *)
Definition get_prop (v : jsval) (k : string) : option jsval :=
  match v with
  | VUndefined | VNull => None
  | VObj fields => Some (default VUndefined (assoc k fields))
  | VBool _ | VNum _ | VStr _ | VArr _ => Some VUndefined
  end.

(** [ToBoolean]. *)
Definition truthy (v : jsval) : bool :=
  match v with
  | VUndefined | VNull => false
  | VBool b => b
  | VNum q => negb (Qeq_bool q 0)
  | VStr s => negb (String.eqb s "")
  | VArr _ | VObj _ => true
  end.

(** [a || b]. *)
Definition or_else (a b : jsval) : jsval := if truthy a then a else b.

(** [v === null || v === undefined]. *)
Definition nullish (v : jsval) : bool :=
  match v with
  | VUndefined | VNull => true
  | _ => false
  end.

(** [v === s] for a string [s]. *)
Definition is_string (v : jsval) (s : string) : bool :=
  match v with
  | VStr t => String.eqb t s
  | _ => false
  end.

End JsValue.

(** ** The API client: [ApiError] and [fetchApi] (both copies of [lib/api.ts]) *)

Module Api.
Import JsValue.

(** What [fetch] resolved to.  [json_body] is what [response.json()]
    settles to: [None] when it rejects (empty or malformed body). *)
Record Response : Type := mkResponse {
  status : nat;
  json_body : option jsval
}.

(** [response.ok]: the status is in the range 200-299. *)
Definition ok (r : Response) : bool :=
  (200 <=? status r)%nat && (status r <=? 299)%nat.

(** [class ApiError extends Error]: [status] and [message]. *)
Record ApiError : Type := mkApiError {
  error_status : nat;
  message : string
}.

Inductive Thrown : Type :=
| ThrowApiError (e : ApiError)
| ThrowTypeError      (* reading a property of [null] *)
| ThrowSyntaxError.   (* [response.json()] rejected and nobody caught it *)

(** How the promise returned by [fetchApi] settles. *)
Inductive Settled : Type :=
| Resolved (v : jsval)
| Rejected (t : Thrown).

(** The settlement together with whether [response.json()] was called. *)
Record Outcome : Type := mkOutcome {
  settled : Settled;
  body_parsed : bool
}.

Section WithToString.

(** [ToString] of the JavaScript runtime, used by the [Error] constructor
    on a message that is not a string. *)
Variable ToString : jsval -> string.

(** [super(message)]: the message of the new error. *)
Definition error_message (m : jsval) : string :=
  match m with
  | VStr s => s
  | other => ToString other
  end.

(** [fetchApi], from the point where [fetch] has resolved to [response]. *)
Definition fetchApi (response : Response) : Outcome :=
  if negb (ok response) then
    (* const error = await response.json().catch(() => ({ detail: 'Unknown error' })) *)
    let error :=
      match json_body response with
      | Some v => v
      | None => VObj [("detail", VStr "Unknown error")]
      end in
    (* throw new ApiError(response.status, error.detail || 'Request failed') *)
    match get_prop error "detail" with
    | None => mkOutcome (Rejected ThrowTypeError) true
    | Some detail =>
        mkOutcome
          (Rejected (ThrowApiError
             (mkApiError (status response)
                (error_message (or_else detail (VStr "Request failed"))))))
          true
    end
  else if (status response =? 204)%nat then
    mkOutcome (Resolved VUndefined) false
  else
    match json_body response with
    | Some v => mkOutcome (Resolved v) true
    | None => mkOutcome (Rejected ThrowSyntaxError) true
    end.

End WithToString.

(** The detail message the server supplied with a failed response, when
    it supplied one: the string under [detail] of a JSON object body. *)
Definition server_detail (r : Response) : option string :=
  match json_body r with
  | Some (VObj fields) =>
      match assoc "detail" fields with
      | Some (VStr s) => Some s
      | _ => None
      end
  | _ => None
  end.

End Api.

(** ** The real-time client: [class WebSocketClient] and the two hooks *)

Module WS.
Import JsValue.

(** [WebSocket.readyState]. *)
Inductive ReadyState : Type := CONNECTING | OPEN | CLOSING | CLOSED.

#[global] Instance ReadyState_eq_dec : EqDecision ReadyState.
Proof. solve_decision. Defined.

(** The channel argument of [useRealtimeUpdates]:
    ['servers' | 'domains' | 'assignments' | 'locks']. *)
Inductive Channel : Type := servers | domains | assignments | locks.

#[global] Instance Channel_eq_dec : EqDecision Channel.
Proof. solve_decision. Defined.

Definition channel_name (c : Channel) : string :=
  match c with
  | servers => "servers"
  | domains => "domains"
  | assignments => "assignments"
  | locks => "locks"
  end.

(** [JSON.parse(event.data) as WSMessage]: the cast checks nothing, so a
    message is whatever JSON value the frame holds.  [WSMessage] itself is
    declared in [lib/types], which is not among the sources; section 6 of
    the design gives the envelope of a change event as
    [{channel, data:{action, ...fields}}]. *)
Definition WSMessage : Type := jsval.

(** The envelope of a change event. *)
Definition envelope (channel action : string) (fields : list (string * jsval))
  : WSMessage :=
  VObj [("channel", VStr channel); ("data", VObj (("action", VStr action) :: fields))].

(** [message.channel === c] for one of the four channel names; false
    also for a message whose [channel] cannot be read. *)
Definition on_channel (message : WSMessage) (c : Channel) : bool :=
  match get_prop message "channel" with
  | Some v => is_string v (channel_name c)
  | None => false
  end.

(** The message carries data: [message.data] can be read and is neither
    [null] nor [undefined], as in every envelope. *)
Definition has_data (message : WSMessage) : bool :=
  match get_prop message "data" with
  | Some d => negb (nullish d)
  | None => false
  end.

(** The closures passed to [wsClient.subscribe].  [hid] is the identity of
    the function object; the body is one of the two arrow functions of
    the hooks file, closed over its free variables. *)
Inductive HandlerBody : Type :=
| RealtimeUpdates (c : Channel) (onUpdate : nat)
| WebSocketHook (hook : nat).

Record MessageHandler : Type := mkHandler {
  hid : nat;
  body : HandlerBody
}.

#[global] Instance HandlerBody_eq_dec : EqDecision HandlerBody.
Proof. solve_decision. Defined.

#[global] Instance MessageHandler_eq_dec : EqDecision MessageHandler.
Proof. solve_decision. Defined.

(** What a handler does when it runs: calls and state writes of the hooks. *)
Inductive Effect : Type :=
| CallOnUpdate (onUpdate : nat) (act : jsval) (d : jsval)
| SetLastMessage (hook : nat) (m : WSMessage)
| SetIsConnected (hook : nat) (b : bool).

(** A run of a handler: what it did, and whether it ended by throwing
    (a [TypeError], from reading a property of [null] or [undefined]).
    The callbacks the pages pass as [onUpdate] are [async] functions,
    which never throw to their caller. *)
Definition Ran : Type := list Effect * bool.

(** The handler of [useRealtimeUpdates]:
    [if (message.channel === channel) onUpdate(message.data.action, message.data)]. *)
Definition realtime_handler (c : Channel) (onUpdate : nat) (message : WSMessage)
  : Ran :=
  match get_prop message "channel" with
  | None => ([], true)
  | Some ch =>
      if is_string ch (channel_name c) then
        match get_prop message "data" ≫= (λ d, get_prop d "action" ≫= (λ act, Some (act, d))) with
        | Some (act, d) => ([CallOnUpdate onUpdate act d], false)
        | None => ([], true)
        end
      else ([], false)
  end.

(** The handler of [useWebSocket]:
    [setLastMessage(message);
     if (message.data?.action === 'connected' || message.channel === 'connected')
       setIsConnected(true)]. *)
Definition websocket_hook_handler (hook : nat) (message : WSMessage)
  : Ran :=
  match get_prop message "data", get_prop message "channel" with
  | Some d, Some ch =>
      let act := if nullish d then VUndefined else default VUndefined (get_prop d "action") in
      (SetLastMessage hook message ::
       (if is_string act "connected" || is_string ch "connected"
        then [SetIsConnected hook true] else []), false)
  | _, _ => ([SetLastMessage hook message], true)
  end.

Definition run_handler (h : MessageHandler) (message : WSMessage) : Ran :=
  match body h with
  | RealtimeUpdates c onUpdate => realtime_handler c onUpdate message
  | WebSocketHook hook => websocket_hook_handler hook message
  end.

(** [handlers.forEach(handler => handler(message))]: the handlers run in
    the order of the set until one throws; the rest are then skipped. *)
Fixpoint run_handlers (hs : list MessageHandler) (message : WSMessage) : Ran :=
  match hs with
  | [] => ([], false)
  | h :: rest =>
      let '(es, threw) := run_handler h message in
      if threw then (es, true)
      else let '(es', threw') := run_handlers rest message in (es ++ es', threw')
  end.

(** [Set<MessageHandler>]: insertion-ordered, without repetition. *)
Definition set_add (h : MessageHandler) (l : list MessageHandler)
  : list MessageHandler :=
  if decide (h ∈ l) then l else l ++ [h].

Definition set_delete (h : MessageHandler) (l : list MessageHandler)
  : list MessageHandler :=
  filter (λ x, x ≠ h) l.

Inductive LogEntry : Type :=
| LogConnected
| LogDisconnected
| LogError
| LogCreateFailed
| LogParseFailed
| LogMaxReached
| LogReconnecting (delay attempt : nat).

(** The private fields of the client.  [maxReconnectAttempts] and
    [reconnectDelay] are never assigned after their initializers and are
    the constants below. *)
Record Client : Type := mkClient {
  ws : option nat;
  reconnectAttempts : nat;
  messageHandlers : list MessageHandler;
  pingInterval : option nat;
  isConnecting : bool;
  user : string
}.

Definition maxReconnectAttempts : nat := 10.
Definition reconnectDelay : nat := 1000.

(** The browser around the client: the sockets it has constructed, the
    pending [setTimeout] callbacks (each is [() => this.connect(this.user)],
    kept with its delay), the running [setInterval] timers, the console,
    what the handlers did, and the frames sent. *)
Record Browser : Type := mkBrowser {
  sockets : gmap nat ReadyState;
  timers : gmap nat nat;
  intervals : gset nat;
  next_id : nat;
  console : list LogEntry;
  effects : list Effect;
  sent : list (nat * jsval)
}.

Record World : Type := mkWorld { client : Client; browser : Browser }.

Definition new_client : Client := mkClient None 0 [] None false "anonymous".
Definition new_browser : Browser := mkBrowser ∅ ∅ ∅ 0 [] [] [].
Definition new_world : World := mkWorld new_client new_browser.

(** *** Field updates *)

Definition set_ws (x : option nat) (w : World) : World :=
  let c := client w in
  mkWorld (mkClient x (reconnectAttempts c) (messageHandlers c) (pingInterval c)
             (isConnecting c) (user c)) (browser w).
Definition set_reconnectAttempts (x : nat) (w : World) : World :=
  let c := client w in
  mkWorld (mkClient (ws c) x (messageHandlers c) (pingInterval c)
             (isConnecting c) (user c)) (browser w).
Definition set_messageHandlers (x : list MessageHandler) (w : World) : World :=
  let c := client w in
  mkWorld (mkClient (ws c) (reconnectAttempts c) x (pingInterval c)
             (isConnecting c) (user c)) (browser w).
Definition set_pingInterval (x : option nat) (w : World) : World :=
  let c := client w in
  mkWorld (mkClient (ws c) (reconnectAttempts c) (messageHandlers c) x
             (isConnecting c) (user c)) (browser w).
Definition set_isConnecting (x : bool) (w : World) : World :=
  let c := client w in
  mkWorld (mkClient (ws c) (reconnectAttempts c) (messageHandlers c)
             (pingInterval c) x (user c)) (browser w).
Definition set_user (x : string) (w : World) : World :=
  let c := client w in
  mkWorld (mkClient (ws c) (reconnectAttempts c) (messageHandlers c)
             (pingInterval c) (isConnecting c) x) (browser w).

Definition set_sockets (x : gmap nat ReadyState) (w : World) : World :=
  let b := browser w in
  mkWorld (client w) (mkBrowser x (timers b) (intervals b) (next_id b)
                        (console b) (effects b) (sent b)).
Definition set_timers (x : gmap nat nat) (w : World) : World :=
  let b := browser w in
  mkWorld (client w) (mkBrowser (sockets b) x (intervals b) (next_id b)
                        (console b) (effects b) (sent b)).
Definition set_intervals (x : gset nat) (w : World) : World :=
  let b := browser w in
  mkWorld (client w) (mkBrowser (sockets b) (timers b) x (next_id b)
                        (console b) (effects b) (sent b)).
Definition set_next_id (x : nat) (w : World) : World :=
  let b := browser w in
  mkWorld (client w) (mkBrowser (sockets b) (timers b) (intervals b) x
                        (console b) (effects b) (sent b)).
Definition log (e : LogEntry) (w : World) : World :=
  let b := browser w in
  mkWorld (client w) (mkBrowser (sockets b) (timers b) (intervals b) (next_id b)
                        (console b ++ [e]) (effects b) (sent b)).
Definition perform (es : list Effect) (w : World) : World :=
  let b := browser w in
  mkWorld (client w) (mkBrowser (sockets b) (timers b) (intervals b) (next_id b)
                        (console b) (effects b ++ es) (sent b)).
Definition transmit (s : nat) (frame : jsval) (w : World) : World :=
  let b := browser w in
  mkWorld (client w) (mkBrowser (sockets b) (timers b) (intervals b) (next_id b)
                        (console b) (effects b) (sent b ++ [(s, frame)])).

(** A fresh identity for a socket, a timer or an interval. *)
Definition fresh (w : World) : nat * World :=
  let n := next_id (browser w) in (n, set_next_id (S n) w).

Definition ready_state (s : nat) (w : World) : option ReadyState :=
  sockets (browser w) !! s.

(** [this.ws?.readyState === WebSocket.OPEN]. *)
Definition ws_is_open (w : World) : bool :=
  match ws (client w) with
  | Some s => bool_decide (ready_state s w = Some OPEN)
  | None => false
  end.

(** *** The methods of [WebSocketClient] *)

(** [private attemptReconnect()]. *)
Definition attemptReconnect (w : World) : World :=
  let n := reconnectAttempts (client w) in
  if (maxReconnectAttempts <=? n)%nat then log LogMaxReached w
  else
    let delay := (reconnectDelay * 2 ^ n)%nat in
    let w := set_reconnectAttempts (S n) w in
    let w := log (LogReconnecting delay (reconnectAttempts (client w))) w in
    (* setTimeout(() => { this.connect(this.user) }, delay) *)
    let '(t, w) := fresh w in
    set_timers (<[t := delay]> (timers (browser w))) w.

(** [private startPing()]. *)
Definition startPing (w : World) : World :=
  let '(i, w) := fresh w in
  set_pingInterval (Some i) (set_intervals ({[i]} ∪ intervals (browser w)) w).

(** [private stopPing()]. *)
Definition stopPing (w : World) : World :=
  match pingInterval (client w) with
  | Some i => set_pingInterval None (set_intervals (intervals (browser w) ∖ {[i]}) w)
  | None => w
  end.

(** [send(message)]: the message goes out on an open socket only. *)
Definition send (message : jsval) (w : World) : World :=
  match ws (client w) with
  | Some s => if ws_is_open w then transmit s message w else w
  | None => w
  end.

(** The body of the [setInterval] callback of [startPing]. *)
Definition ping (w : World) : World := send (VObj [("type", VStr "ping")]) w.

(** [notifyLockAcquired(resource)] and [notifyLockReleased(resource)]. *)
Definition notifyLockAcquired (resource : string) (w : World) : World :=
  send (VObj [("type", VStr "lock_acquired"); ("resource", VStr resource)]) w.

Definition notifyLockReleased (resource : string) (w : World) : World :=
  send (VObj [("type", VStr "lock_released"); ("resource", VStr resource)]) w.

(** [get isConnected()]. *)
Definition isConnected (w : World) : bool := ws_is_open w.

(** [this.ws.onopen]. *)
Definition onopen (w : World) : World :=
  let w := log LogConnected w in
  let w := set_isConnecting false w in
  let w := set_reconnectAttempts 0 w in
  startPing w.

(** [this.messageHandlers.forEach(handler => handler(message))] inside
    the [try] of [onmessage]: what the handlers did before one threw is
    done, and the [catch] logs the error. *)
Definition dispatch (message : WSMessage) (w : World) : World :=
  let '(es, threw) := run_handlers (messageHandlers (client w)) message in
  let w := perform es w in
  if threw then log LogParseFailed w else w.

(** [this.ws.onmessage]; [None] is a frame that [JSON.parse] rejects. *)
Definition onmessage (parsed : option WSMessage) (w : World) : World :=
  match parsed with
  | Some message => dispatch message w
  | None => log LogParseFailed w
  end.

(** [this.ws.onclose]. *)
Definition onclose (w : World) : World :=
  let w := log LogDisconnected w in
  let w := set_isConnecting false w in
  let w := stopPing w in
  attemptReconnect w.

(** [this.ws.onerror]. *)
Definition onerror (w : World) : World :=
  set_isConnecting false (log LogError w).

(** [connect(user)].  [ctor_ok] tells whether [new WebSocket(url)] returns
    or throws; the four handlers are attached to every socket constructed. *)
Definition connect (usr : string) (ctor_ok : bool) (w : World) : World :=
  if ws_is_open w || isConnecting (client w) then w
  else
    let w := set_isConnecting true w in
    let w := set_user usr w in
    if ctor_ok then
      let '(s, w) := fresh w in
      let w := set_sockets (<[s := CONNECTING]> (sockets (browser w))) w in
      set_ws (Some s) w
    else
      let w := log LogCreateFailed w in
      let w := set_isConnecting false w in
      attemptReconnect w.

(** [WebSocket.prototype.close()]: starts the closing handshake. *)
Definition socket_close (s : nat) (w : World) : World :=
  match ready_state s w with
  | Some CONNECTING | Some OPEN =>
      set_sockets (<[s := CLOSING]> (sockets (browser w))) w
  | _ => w
  end.

(** [disconnect()]. *)
Definition disconnect (w : World) : World :=
  let w := stopPing w in
  match ws (client w) with
  | Some s => set_ws None (socket_close s w)
  | None => w
  end.

(** [subscribe(handler)]: the state after the call; the function it
    returns is [unsubscribe handler]. *)
Definition subscribe (handler : MessageHandler) (w : World) : World :=
  set_messageHandlers (set_add handler (messageHandlers (client w))) w.

Definition unsubscribe (handler : MessageHandler) (w : World) : World :=
  set_messageHandlers (set_delete handler (messageHandlers (client w))) w.

(** *** What can happen to a client: calls of its public methods and
    events of the browser.  A step is [None] when the browser cannot
    produce the event in that state.  [SocketClosing] is the start of a
    closing handshake by the server: the browser sets [readyState] to
    [CLOSING] and runs no handler; the [close] event follows later. *)

Inductive Event : Type :=
| CallConnect (usr : string) (ctor_ok : bool)
| CallDisconnect
| CallSubscribe (h : MessageHandler)
| CallUnsubscribe (h : MessageHandler)
| SocketOpened (s : nat)
| SocketMessage (s : nat) (parsed : option WSMessage)
| SocketClosing (s : nat)
| SocketClosed (s : nat)
| SocketFailed (s : nat)
| TimerFired (t : nat) (ctor_ok : bool)
| IntervalFired (i : nat).

Definition mark (s : nat) (r : ReadyState) (w : World) : World :=
  set_sockets (<[s := r]> (sockets (browser w))) w.

Definition step (e : Event) (w : World) : option World :=
  match e with
  | CallConnect usr ctor_ok => Some (connect usr ctor_ok w)
  | CallDisconnect => Some (disconnect w)
  | CallSubscribe h => Some (subscribe h w)
  | CallUnsubscribe h => Some (unsubscribe h w)
  | SocketOpened s =>
      match ready_state s w with
      | Some CONNECTING => Some (onopen (mark s OPEN w))
      | _ => None
      end
  | SocketMessage s parsed =>
      match ready_state s w with
      | Some OPEN => Some (onmessage parsed w)
      | _ => None
      end
  | SocketClosing s =>
      match ready_state s w with
      | Some OPEN => Some (mark s CLOSING w)
      | _ => None
      end
  | SocketClosed s =>
      match ready_state s w with
      | Some CONNECTING | Some OPEN | Some CLOSING =>
          Some (onclose (mark s CLOSED w))
      | _ => None
      end
  | SocketFailed s =>
      (* the connection fails: [error] is fired, then [close] *)
      match ready_state s w with
      | Some CONNECTING | Some OPEN | Some CLOSING =>
          Some (onclose (onerror (mark s CLOSED w)))
      | _ => None
      end
  | TimerFired t ctor_ok =>
      match timers (browser w) !! t with
      | Some _ =>
          let w := set_timers (delete t (timers (browser w))) w in
          Some (connect (user (client w)) ctor_ok w)
      | None => None
      end
  | IntervalFired i =>
      if decide (i ∈ intervals (browser w)) then Some (ping w) else None
  end.

Fixpoint run (es : list Event) (w : World) : option World :=
  match es with
  | [] => Some w
  | e :: rest =>
      match step e w with
      | Some w' => run rest w'
      | None => None
      end
  end.

(** The sockets that are connecting or open. *)
Definition live (r : ReadyState) : bool :=
  match r with CONNECTING | OPEN => true | CLOSING | CLOSED => false end.

Definition live_sockets (w : World) : gmap nat ReadyState :=
  filter (λ p, live p.2 = true) (sockets (browser w)).

(** *** The hooks of [hooks/useWebSocket] *)

(** The effect of [useRealtimeUpdates(channel, onUpdate)] when it runs: a
    new arrow function is subscribed; the cleanup of the effect is the
    returned [unsubscribe]. *)
Definition useRealtimeUpdates (c : Channel) (onUpdate : nat) (w : World)
  : MessageHandler * World :=
  let '(f, w) := fresh w in
  let handler := mkHandler f (RealtimeUpdates c onUpdate) in
  (handler, subscribe handler w).


(** The state of a component that calls [useWebSocket]:
    [useState(false)] and [useState<WSMessage | null>(null)]. *)
Record HookState : Type := mkHookState {
  hook_isConnected : bool;
  lastMessage : WSMessage
}.

Definition new_hook : HookState := mkHookState false VNull.

(** The state writes of the handler of hook [hook], applied. *)
Definition hook_apply (hook : nat) (st : HookState) (e : Effect) : HookState :=
  match e with
  | SetLastMessage k m =>
      if decide (k = hook) then mkHookState (hook_isConnected st) m else st
  | SetIsConnected k b =>
      if decide (k = hook) then mkHookState b (lastMessage st) else st
  | CallOnUpdate _ _ _ => st
  end.

(** The state of the component after a message reached its handler. *)
Definition hook_receive (hook : nat) (message : WSMessage) (st : HookState) : HookState :=
  foldl (hook_apply hook) st (websocket_hook_handler hook message).1.

(** [this.ws?.readyState === WebSocket.CLOSING]. *)
Definition ws_is_closing (w : World) : bool :=
  match ws (client w) with
  | Some s => bool_decide (ready_state s w = Some CLOSING)
  | None => false
  end.

(** The events that run [connect]: a call, and a reconnect timer. *)
Definition runs_connect (e : Event) : bool :=
  match e with
  | CallConnect _ _ | TimerFired _ _ => true
  | _ => false
  end.

Definition is_disconnect (e : Event) : bool :=
  match e with
  | CallDisconnect => true
  | _ => false
  end.

(** A run on which [disconnect()] is never called and [connect] never
    runs while the current socket is in its closing handshake. *)
Fixpoint orderly (es : list Event) (w : World) : bool :=
  match es with
  | [] => true
  | e :: rest =>
      negb (is_disconnect e) &&
      (negb (runs_connect e) || negb (ws_is_closing w)) &&
      match step e w with
      | Some w' => orderly rest w'
      | None => true
      end
  end.

End WS.

(** ** The pages that listen to the notification channels *)

Module Pages.
Import JsValue WS.

(** What a call of the API client settles to: its promise rejects, or
    resolves to [null] or [undefined] ([fetchApi] resolves to [undefined]
    on a 204 and to [null] on a body that is the JSON text [null]), or
    resolves to an object, which is taken to have the fields of its
    declared type. *)
Inductive Answer (T : Type) : Type :=
| Rejects
| Nullish
| Resolves (x : T).
Arguments Rejects {T}.
Arguments Nullish {T}.
Arguments Resolves {T} x.

(** What a state setter stores for an answer that did not reject: the
    object, or [null] / [undefined]. *)
Definition stored {T : Type} (a : Answer T) : option T :=
  match a with
  | Resolves x => Some x
  | Rejects | Nullish => None
  end.

Definition rejects {T : Type} (a : Answer T) : bool :=
  match a with
  | Rejects => true
  | Nullish | Resolves _ => false
  end.

Section WithData.

(** The response types of [lib/types], opaque here. *)
Variables Stats Report ServerT DomainT : Type.

(** What the API answers at the time of a re-read. *)
Record Backend : Type := mkBackend {
  getStats : Answer Stats;
  getCapacityReport : Answer Report;
  listServers : nat -> nat -> option string -> option nat -> Answer (list ServerT * nat);
  listDomains : nat -> nat -> option string -> option string -> Answer (list DomainT * nat)
}.

(** [s || undefined] on a string and on a number-or-empty-string. *)
Definition nonempty (s : string) : option string :=
  if String.eqb s "" then None else Some s.

Definition nonzero (n : option nat) : option nat :=
  match n with
  | Some (S k) => Some (S k)
  | _ => None
  end.

(** A callback as [useRealtimeUpdates] calls it: with the action and the
    data of the message. *)
Definition Callback (St : Type) : Type := jsval -> jsval -> Backend -> St -> St.

(** A loader of a page is declared without parameters; passed as
    [onUpdate] it is called with two arguments it never reads. *)
Definition as_callback {St : Type} (load : Backend -> St -> St) : Callback St :=
  λ _ _, load.

(** A page: the [useRealtimeUpdates] calls of its body, in order, each
    with the identity of its callback, and the callbacks themselves. *)
Record Page (St : Type) : Type := mkPage {
  subscriptions : list (Channel * nat);
  callback : nat -> option (Callback St)
}.
Arguments subscriptions {St} _.
Arguments callback {St} _.

(** The page runs what its handlers ask for.  The handlers of a page are
    those of [useRealtimeUpdates], which only call [onUpdate]; the state
    writes of [useWebSocket] go to the component that calls that hook
    ([WS.hook_apply]), which none of the pages does. *)
Definition apply_effect {St : Type} (p : Page St) (b : Backend) (st : St) (e : Effect) : St :=
  match e with
  | CallOnUpdate f act d =>
      match callback p f with
      | Some cb => cb act d b st
      | None => st
      end
  | SetLastMessage _ _ | SetIsConnected _ _ => st
  end.

(** The handlers the page subscribed, in the order of its
    [useRealtimeUpdates] calls. *)
Definition handlers_of {St : Type} (p : Page St) : list MessageHandler :=
  map (λ '(c, f), mkHandler 0 (RealtimeUpdates c f)) (subscriptions p).

(** The page state after a message has been dispatched to the handlers the
    page subscribed: they run until one throws. *)
Definition receive {St : Type} (p : Page St) (message : WSMessage) (b : Backend) (st : St) : St :=
  foldl (apply_effect p b) st (run_handlers (handlers_of p) message).1.

(** The message is a change event for the page: it carries data and its
    channel is one the page subscribed. *)
Definition reloads {St : Type} (p : Page St) (message : WSMessage) : bool :=
  has_data message && existsb (λ '(c, _), on_channel message c) (subscriptions p).

(** *** Dashboard *)

Record DashboardState : Type := mkDashboard {
  d_stats : option Stats;
  d_recentServers : list ServerT;
  d_recentDomains : list DomainT;
  d_loading : bool
}.

(** [loadData] of the dashboard: [Promise.all] of three reads, which
    rejects when one of them rejects, and nothing is set then.  Otherwise
    [setStats(statsData)] runs, then [serversData.servers] is read and
    set, then [domainsData.domains]: reading a property of an answer that
    is [null] or [undefined] throws, and what was set before stays set.
    [finally] clears [loading]. *)
Definition dashboard_loadData (b : Backend) (st : DashboardState) : DashboardState :=
  let statsData := getStats b in
  let serversData := listServers b 1 5 None None in
  let domainsData := listDomains b 1 5 None None in
  if rejects statsData || rejects serversData || rejects domainsData
  then mkDashboard (d_stats st) (d_recentServers st) (d_recentDomains st) false
  else
    match serversData with
    | Resolves (srv, _) =>
        match domainsData with
        | Resolves (dom, _) => mkDashboard (stored statsData) srv dom false
        | _ => mkDashboard (stored statsData) srv (d_recentDomains st) false
        end
    | _ => mkDashboard (stored statsData) (d_recentServers st) (d_recentDomains st) false
    end.

Definition Dashboard : Page DashboardState :=
  mkPage _ [(servers, 0); (domains, 0); (assignments, 0)]
    (λ f, if decide (f = 0) then Some (as_callback dashboard_loadData) else None).

(** *** Servers page (both versions; the older one has no group filter
    and passes three arguments, which the newer API client reads as
    [groupId = undefined]) *)

Record ServersState : Type := mkServersState {
  s_servers : list ServerT;
  s_total : nat;
  s_page : nat;
  s_pageSize : nat;
  s_loading : bool;
  s_statusFilter : string;
  s_groupFilter : option nat
}.

(** [loadServers]: [response.servers] is read before anything is set, so
    an answer that rejects or is [null] or [undefined] sets nothing. *)
Definition loadServers (b : Backend) (st : ServersState) : ServersState :=
  match listServers b (s_page st) (s_pageSize st)
          (nonempty (s_statusFilter st)) (nonzero (s_groupFilter st)) with
  | Resolves (srv, tot) =>
      mkServersState srv tot (s_page st) (s_pageSize st) false
        (s_statusFilter st) (s_groupFilter st)
  | Rejects | Nullish =>
      mkServersState (s_servers st) (s_total st) (s_page st) (s_pageSize st) false
        (s_statusFilter st) (s_groupFilter st)
  end.

Definition ServersPage : Page ServersState :=
  mkPage _ [(servers, 0)]
    (λ f, if decide (f = 0) then Some (as_callback loadServers) else None).

(** *** Domains page *)

Record DomainsState : Type := mkDomainsState {
  m_domains : list DomainT;
  m_total : nat;
  m_page : nat;
  m_pageSize : nat;
  m_loading : bool;
  m_statusFilter : string;
  m_searchQuery : string
}.

Definition loadDomains (b : Backend) (st : DomainsState) : DomainsState :=
  match listDomains b (m_page st) (m_pageSize st)
          (nonempty (m_statusFilter st)) (nonempty (m_searchQuery st)) with
  | Resolves (dom, tot) =>
      mkDomainsState dom tot (m_page st) (m_pageSize st) false
        (m_statusFilter st) (m_searchQuery st)
  | Rejects | Nullish =>
      mkDomainsState (m_domains st) (m_total st) (m_page st) (m_pageSize st) false
        (m_statusFilter st) (m_searchQuery st)
  end.

Definition DomainsPage : Page DomainsState :=
  mkPage _ [(domains, 0); (assignments, 0)]
    (λ f, if decide (f = 0) then Some (as_callback loadDomains) else None).

(** *** Assignments page *)

Record AssignmentsState : Type := mkAssignmentsState {
  a_stats : option Stats;
  a_capacityReport : option Report;
  a_servers : list ServerT;
  a_loading : bool
}.

(** [loadData] of the assignments page: as on the dashboard, with
    [setStats(statsData)] and [setCapacityReport(reportData)] before
    [serversData.servers] is read. *)
Definition assignments_loadData (b : Backend) (st : AssignmentsState) : AssignmentsState :=
  let statsData := getStats b in
  let reportData := getCapacityReport b in
  let serversData := listServers b 1 100 None None in
  if rejects statsData || rejects reportData || rejects serversData
  then mkAssignmentsState (a_stats st) (a_capacityReport st) (a_servers st) false
  else
    match serversData with
    | Resolves (srv, _) =>
        mkAssignmentsState (stored statsData) (stored reportData) srv false
    | _ =>
        mkAssignmentsState (stored statsData) (stored reportData) (a_servers st) false
    end.

Definition AssignmentsPage : Page AssignmentsState :=
  mkPage _ [(assignments, 0); (servers, 0); (domains, 0)]
    (λ f, if decide (f = 0) then Some (as_callback assignments_loadData) else None).

End WithData.

Arguments subscriptions {_ _ _ _ _} _.
Arguments callback {_ _ _ _ _} _.
Arguments mkBackend {_ _ _ _} _ _ _ _.
Arguments receive {_ _ _ _ _} p message b st.
Arguments handlers_of {_ _ _ _ _} p.
Arguments reloads {_ _ _ _ _} p message.
Arguments Dashboard {_ _ _ _}.
Arguments ServersPage {_ _ _ _}.
Arguments DomainsPage {_ _ _ _}.
Arguments AssignmentsPage {_ _ _ _}.
Arguments dashboard_loadData {_ _ _ _} b st.
Arguments loadServers {_ _ _ _} b st.
Arguments loadDomains {_ _ _ _} b st.
Arguments assignments_loadData {_ _ _ _} b st.
Arguments mkServersState {_} _ _ _ _ _ _ _.

End Pages.

(** ** Bulk import: [handleBulkImport] (servers) and [handleBulkCreate] (domains) *)

Module BulkImport.

(** A string that is split and trimmed: its UTF-16 code units. *)
Definition jsstring : Type := list N.

Definition LF : N := 10.
Definition COMMA : N := 44.

(** [s.split(sep)] for a one-character separator. *)
Fixpoint split (sep : N) (s : jsstring) : list jsstring :=
  match s with
  | [] => [[]]
  | c :: rest =>
      if (c =? sep)%N then [] :: split sep rest
      else
        match split sep rest with
        | piece :: pieces => (c :: piece) :: pieces
        | [] => [[c]]
        end
  end.

(** The code units [String.prototype.trim] strips: WhiteSpace (TAB, VT,
    FF, SP, NBSP, ZWNBSP and the space separators) and LineTerminator
    (LF, CR, LS, PS) of ECMAScript. *)
Definition is_white_space (c : N) : bool :=
  ((c =? 9) || (c =? 10) || (c =? 11) || (c =? 12) || (c =? 13) || (c =? 32)
   || (c =? 160) || (c =? 5760) || ((8192 <=? c) && (c <=? 8202))
   || (c =? 8232) || (c =? 8233) || (c =? 8239) || (c =? 8287)
   || (c =? 12288) || (c =? 65279))%N.

Fixpoint trim_start (s : jsstring) : jsstring :=
  match s with
  | c :: rest => if is_white_space c then trim_start rest else s
  | [] => []
  end.

Definition trim_end (s : jsstring) : jsstring := rev (trim_start (rev s)).

(** [s.trim()]. *)
Definition trim (s : jsstring) : jsstring := trim_end (trim_start s).

(** [line.length > 0]. *)
Definition nonempty (s : jsstring) : bool := (0 <? length s)%nat.

(** [text.split(sep).map(x => x.trim()).filter(x => x.length > 0)]. *)
Definition entries (sep : N) (text : jsstring) : list jsstring :=
  filter (λ x, nonempty x = true) (map trim (split sep text)).

(** How an awaited API call ends: a value, or an [Error] with its message. *)
Inductive Reply (R : Type) : Type :=
| Fulfilled (r : R)
| Threw (msg : string).
Arguments Fulfilled {R} _.
Arguments Threw {R} _.

(** *** Servers *)

Record ServerBulkCreate : Type := mkServerBulkCreate {
  sb_servers : list jsstring;
  sb_capacity_mode : string;
  sb_description : option string
}.

Record ServerBulkCreateResponse : Type := mkServerBulkCreateResponse {
  created : nat;
  skipped : nat;
  skipped_ips : list jsstring
}.

(** The state [handleBulkImport] reads and writes; [reloads] counts the
    calls of [loadServers] and [requests] lists the bodies posted to
    [/servers/bulk]. *)
Record ImportState : Type := mkImportState {
  bulkText : jsstring;
  bulkData_capacity_mode : string;
  bulkData_description : string;
  formError : string;
  submitting : bool;
  bulkResult : option ServerBulkCreateResponse;
  reloads : nat;
  requests : list ServerBulkCreate
}.

Definition handleBulkImport
  (bulkCreate : ServerBulkCreate -> Reply ServerBulkCreateResponse)
  (st : ImportState) : ImportState :=
  (* setFormError(''); setSubmitting(true); setBulkResult(null); *)
  let servers := entries LF (bulkText st) in
  if (length servers =? 0)%nat then
    (* setFormError(...); return;  and then [finally] *)
    mkImportState (bulkText st) (bulkData_capacity_mode st) (bulkData_description st)
      "Please enter at least one server" false None (reloads st) (requests st)
  else
    let request :=
      mkServerBulkCreate servers (bulkData_capacity_mode st)
        (if String.eqb (bulkData_description st) "" then None
         else Some (bulkData_description st)) in
    match bulkCreate request with
    | Fulfilled result =>
        mkImportState (bulkText st) (bulkData_capacity_mode st) (bulkData_description st)
          "" false (Some result)
          (if (0 <? created result)%nat then S (reloads st) else reloads st)
          (requests st ++ [request])
    | Threw msg =>
        mkImportState (bulkText st) (bulkData_capacity_mode st) (bulkData_description st)
          msg false None (reloads st) (requests st ++ [request])
    end.

(** *** Domains *)

Record DomainBulkCreate : Type := mkDomainBulkCreate {
  db_domains : list jsstring;
  db_tags : option (list jsstring)
}.

Record BulkCreateResponse : Type := mkBulkCreateResponse {
  d_created : nat;
  d_skipped : nat;
  skipped_domains : list jsstring
}.

(** The state [handleBulkCreate] reads and writes; [alerts] are the
    responses shown with [alert], [d_requests] the bodies posted to
    [/domains/bulk]. *)
Record CreateState : Type := mkCreateState {
  bulkDomains : jsstring;
  bulkTags : jsstring;
  d_formError : string;
  d_submitting : bool;
  showBulkModal : bool;
  d_reloads : nat;
  alerts : list BulkCreateResponse;
  d_requests : list DomainBulkCreate
}.

Definition handleBulkCreate
  (bulkCreate : DomainBulkCreate -> Reply BulkCreateResponse)
  (st : CreateState) : CreateState :=
  (* setFormError(''); setSubmitting(true); *)
  let domainsList := entries LF (bulkDomains st) in
  if (length domainsList =? 0)%nat then
    mkCreateState (bulkDomains st) (bulkTags st)
      "Please enter at least one domain" false (showBulkModal st)
      (d_reloads st) (alerts st) (d_requests st)
  else
    let tags := entries COMMA (bulkTags st) in
    let request :=
      mkDomainBulkCreate domainsList
        (if (0 <? length tags)%nat then Some tags else None) in
    match bulkCreate request with
    | Fulfilled result =>
        mkCreateState [] [] "" false false (S (d_reloads st))
          (if (0 <? d_skipped result)%nat then alerts st ++ [result] else alerts st)
          (d_requests st ++ [request])
    | Threw msg =>
        mkCreateState (bulkDomains st) (bulkTags st) msg false (showBulkModal st)
          (d_reloads st) (alerts st) (d_requests st ++ [request])
    end.

(** *** The submitted list in the words of the claim *)

(** [pieces.join(sep)]. *)
Fixpoint join (sep : N) (pieces : list jsstring) : jsstring :=
  match pieces with
  | [] => []
  | [piece] => piece
  | piece :: rest => piece ++ sep :: join sep rest
  end.

(** The lines of a text: at least one, none holds a line feed, and
    joined by line feeds they are the text. *)
Definition is_lines (text : jsstring) (lines : list jsstring) : Prop :=
  lines <> [] /\ Forall (fun l => LF ∉ l) lines /\ join LF lines = text.

(** [t] is [s] without its leading and trailing white space. *)
Definition is_trimmed_of (s t : jsstring) : Prop :=
  exists pre post,
    s = pre ++ t ++ post /\
    Forall (fun c => is_white_space c = true) pre /\
    Forall (fun c => is_white_space c = true) post /\
    (forall c, head t = Some c -> is_white_space c = false) /\
    (forall c, last t = Some c -> is_white_space c = false).

(** The non-empty, whitespace-trimmed lines, in the order of the lines. *)
Inductive trimmed_nonempty : list jsstring -> list jsstring -> Prop :=
| tn_nil : trimmed_nonempty [] []
| tn_blank l ls es :
    is_trimmed_of l [] -> trimmed_nonempty ls es -> trimmed_nonempty (l :: ls) es
| tn_entry l t ls es :
    is_trimmed_of l t -> t <> [] -> trimmed_nonempty ls es ->
    trimmed_nonempty (l :: ls) (t :: es).

End BulkImport.

(** ** The assignment ledger of the back end *)

Module Ledger.

(** Modelled from the spec: the failures of [assign] in the taxonomy of
    section 7; the back end is not among the sources. *)
Inductive AssignError : Type :=
| DomainAlreadyAssigned
| ServerAtCapacity
| NotFound.

#[global] Instance AssignError_eq_dec : EqDecision AssignError.
Proof. solve_decision. Defined.

(** Modelled from the spec: the two counters of a server of section 3. *)
Record ServerRow : Type := mkServerRow {
  current_domains : nat;
  max_domains : nat
}.

#[global] Instance ServerRow_eq_dec : EqDecision ServerRow.
Proof. solve_decision. Defined.

(** Modelled from the spec: the store of section 3, as far as [assign]
    touches it: the server rows with their counters, and for every known
    domain the server it is assigned to, if any ([None] is status free).
    The back end is not among the sources. *)
Record Store : Type := mkStore {
  servers : gmap nat ServerRow;
  domains : gmap nat (option nat)
}.

(** Modelled from the spec: [remainingSlots] of section 4.1. *)
Definition remainingSlots (s : ServerRow) : nat :=
  max_domains s - current_domains s.

(** Modelled from the spec: [assign(domain, server)] of section 4.3, one
    transaction: it fails [DomainAlreadyAssigned] if the domain is
    assigned, [ServerAtCapacity] if no slot remains, and otherwise
    records the assignment, flips the domain and increments the counter. *)
Definition assign (domain server : nat) (st : Store) : Store * option AssignError :=
  match domains st !! domain, servers st !! server with
  | Some (Some _), Some _ => (st, Some DomainAlreadyAssigned)
  | Some None, Some row =>
      if (remainingSlots row =? 0)%nat then (st, Some ServerAtCapacity)
      else
        (mkStore
           (<[server := mkServerRow (S (current_domains row)) (max_domains row)]> (servers st))
           (<[domain := Some server]> (domains st)),
         None)
  | _, _ => (st, Some NotFound)
  end.

(** Modelled from the spec: section 5 has every [assign] run its
    read-check-write inside a transaction that holds the write lock of
    the server row, so calls issued concurrently against one server take
    effect one after the other, in the order the lock is granted.  A
    schedule is that order; the outcome of each call is kept with the
    domain it was for. *)
Fixpoint run_schedule (server : nat) (schedule : list nat) (st : Store)
  : Store * list (nat * option AssignError) :=
  match schedule with
  | [] => (st, [])
  | d :: rest =>
      let '(st1, r) := assign d server st in
      let '(st2, rs) := run_schedule server rest st1 in
      (st2, (d, r) :: rs)
  end.

Definition successes (rs : list (nat * option AssignError)) : nat :=
  length (filter (λ r, r.2 = None) rs).

Definition failures_with (e : AssignError) (rs : list (nat * option AssignError)) : nat :=
  length (filter (λ r, r.2 = Some e) rs).

Arguments successes : simpl never.
Arguments failures_with : simpl never.

(** *** Calls in flight *)

(** Modelled from the spec: the read-check-write sequence of section 5,
    in two moves per call.  [Begin d] reads the rows and checks them; a
    call that fails its check ends there, a call that passes holds the
    row it has read.  [Commit d] writes the counter computed from the row
    that was read, records the assignment and ends the call.  With
    [locking], [Begin] waits while another call holds the row: that is
    the transaction boundary of section 5.  Without it the moves of
    different calls interleave freely. *)
Inductive Move : Type := Begin (d : nat) | Commit (d : nat).

(** Modelled from the spec: the store, the rows read by the calls that
    have passed their check, the calls that have not begun, and the
    answers given so far. *)
Record System : Type := mkSystem {
  store : Store;
  holding : gmap nat ServerRow;
  waiting : list nat;
  results : list (nat * option AssignError)
}.

(** Modelled from the spec: a call ends with an answer. *)
Definition finish (d : nat) (r : option AssignError) (sys : System) : System :=
  mkSystem (store sys) (holding sys) (filter (λ x, x ≠ d) (waiting sys))
    (results sys ++ [(d, r)]).

(** Modelled from the spec: the read and the check of [assign]. *)
Definition begin (locking : bool) (server d : nat) (sys : System) : option System :=
  if decide (d ∈ waiting sys) then
    if locking && negb (bool_decide (size (holding sys) = 0%nat)) then None
    else
      Some
        match domains (store sys) !! d, servers (store sys) !! server with
        | Some (Some _), Some _ => finish d (Some DomainAlreadyAssigned) sys
        | Some None, Some row =>
            if (remainingSlots row =? 0)%nat then finish d (Some ServerAtCapacity) sys
            else
              mkSystem (store sys) (<[d := row]> (holding sys))
                (filter (λ x, x ≠ d) (waiting sys)) (results sys)
        | _, _ => finish d (Some NotFound) sys
        end
  else None.

(** Modelled from the spec: the write of [assign], from the row read. *)
Definition commit (server d : nat) (sys : System) : option System :=
  match holding sys !! d with
  | Some seen =>
      Some
        (mkSystem
           (mkStore
              (<[server := mkServerRow (S (current_domains seen)) (max_domains seen)]>
                 (servers (store sys)))
              (<[d := Some server]> (domains (store sys))))
           (delete d (holding sys)) (waiting sys) (results sys ++ [(d, None)]))
  | None => None
  end.

(** Modelled from the spec: one move of one call. *)
Definition move (locking : bool) (server : nat) (m : Move) (sys : System)
  : option System :=
  match m with
  | Begin d => begin locking server d sys
  | Commit d => commit server d sys
  end.

(** Modelled from the spec: an interleaving of the moves of the calls. *)
Fixpoint run_moves (locking : bool) (server : nat) (ms : list Move) (sys : System)
  : option System :=
  match ms with
  | [] => Some sys
  | m :: rest =>
      match move locking server m sys with
      | Some sys' => run_moves locking server rest sys'
      | None => None
      end
  end.

(** Modelled from the spec: the calls have been issued and none has
    started. *)
Definition issue (st : Store) (calls : list nat) : System := mkSystem st ∅ calls [].

(** Every call has ended. *)
Definition settled (sys : System) : Prop := waiting sys = [] /\ holding sys = ∅.

(** One call after the other, each run to its end before the next starts. *)
Fixpoint serial_moves (server : nat) (calls : list nat) (st : Store) : list Move :=
  match calls with
  | [] => []
  | d :: rest =>
      match assign d server st with
      | (st', None) => Begin d :: Commit d :: serial_moves server rest st'
      | (st', Some _) => Begin d :: serial_moves server rest st'
      end
  end.

(** What the transaction boundary maintains while [calls] are in flight
    against [server], whose row was [row0] when they were issued. *)
Record in_flight (server : nat) (row0 : ServerRow) (calls : list nat) (sys : System)
  : Prop := mkInFlight {
  if_row :
    exists row,
      servers (store sys) !! server = Some row /\
      max_domains row = max_domains row0 /\
      (current_domains row <= max_domains row)%nat /\
      current_domains row = (current_domains row0 + successes (results sys))%nat /\
      (holding sys = ∅ \/
       exists d, holding sys = {[d := row]} /\ (d ∉ waiting sys) /\
                 (0 < remainingSlots row)%nat) /\
      Forall (fun r => r.2 = None \/
                       (r.2 = Some ServerAtCapacity /\
                        current_domains row = max_domains row)) (results sys);
  if_waiting : NoDup (waiting sys);
  if_free : Forall (fun d => domains (store sys) !! d = Some None) (waiting sys);
  if_count :
    (length (waiting sys) + size (holding sys) + length (results sys))%nat
    = length calls
}.

End Ledger.

(** ** Scenarios over the real-time client *)

Module Scenarios.
Import WS.

(** One reconnect attempt that fails: the pending timer fires, [connect]
    constructs a socket, and that socket fails to connect. *)
Definition failed_attempt (w : World) : option World :=
  match map_to_list (timers (browser w)) with
  | [(t, _)] =>
      w1 ← step (TimerFired t true) w;
      s ← ws (client w1);
      step (SocketFailed s) w1
  | _ => None
  end.

(** [k] failed attempts in a row. *)
Fixpoint failed_attempts (k : nat) (w : World) : option World :=
  match k with
  | O => Some w
  | S k' => w' ← failed_attempts k' w; failed_attempt w'
  end.

(** The client waits for its [n]-th consecutive reconnect attempt: the
    counter is [n], nothing is open or under way, and the one pending
    timer has the delay of that attempt. *)
Definition waiting (n : nat) (w : World) : Prop :=
  reconnectAttempts (client w) = n /\
  isConnecting (client w) = false /\
  ws_is_open w = false /\
  exists t, timers (browser w) = {[t := (reconnectDelay * 2 ^ (n - 1))%nat]}.

(** The client has given up: the counter is at its ceiling and no timer
    is pending. *)
Definition gave_up (w : World) : Prop :=
  reconnectAttempts (client w) = maxReconnectAttempts /\
  timers (browser w) = ∅ /\
  last (console (browser w)) = Some LogMaxReached.

(** A page connects and its socket opens; it calls [disconnect()] and
    then [connect()] again; the close event of the first socket arrives
    while the second socket is still connecting. *)
Definition handover : list Event :=
  [ CallConnect "u" true; SocketOpened 0; CallDisconnect;
    CallConnect "u" true; SocketClosed 0 ].

(** After the handover the reconnect timer that the close event of the
    first socket scheduled fires, and both sockets open. *)
Definition after_handover : list Event :=
  [ TimerFired 3 true; SocketOpened 2; SocketOpened 4 ].

(** What holds of a client on an orderly run: the identities handed out
    are fresh, every socket but the current one is closed, and a current
    socket that is connecting has the flag set. *)
Definition single_socket (w : World) : Prop :=
  (forall s r, ready_state s w = Some r -> (s < next_id (browser w))%nat) /\
  (forall s r, ready_state s w = Some r -> ws (client w) <> Some s -> r = CLOSED) /\
  (forall s, ws (client w) = Some s -> ready_state s w = Some CONNECTING ->
             isConnecting (client w) = true).

(** The server closes the connection in an orderly way while the page
    calls [connect()] again: the closing handshake of the open socket has
    started, [connect()] constructs a second socket, the close event of
    the first arrives, and the reconnect timer it scheduled fires while
    the second socket is still connecting. *)
Definition closing_window : list Event :=
  [ CallConnect "u" true; SocketOpened 0; SocketClosing 0;
    CallConnect "u" true; SocketClosed 0; TimerFired 3 true;
    SocketOpened 2; SocketOpened 4 ].

(** The same start, but the second socket opens before the close event
    of the first arrives. *)
Definition closing_window_keepalive : list Event :=
  [ CallConnect "u" true; SocketOpened 0; SocketClosing 0;
    CallConnect "u" true; SocketOpened 2; SocketClosed 0 ].

(** A handler as [useRealtimeUpdates('servers', f)] makes it. *)
Definition sample_handler : MessageHandler :=
  mkHandler 0 (RealtimeUpdates servers 0).

End Scenarios.

(** ** More of [Math] and of the comparisons on numbers *)

Module JsMath.
Import JsNum.

Definition of_Z (z : Z) : jsnum := Fin (inject_Z z).

(** [Math.ceil(x)]. *)
Definition ceil (x : jsnum) : jsnum :=
  match x with
  | Fin q => Fin (inject_Z (Qceiling q))
  | other => other
  end.

(** [a <= b]; every comparison with [NaN] is false. *)
Definition le (a b : jsnum) : bool :=
  match a, b with
  | NaN, _ | _, NaN => false
  | NegInf, _ | _, PosInf => true
  | Fin x, Fin y => Qle_bool x y
  | PosInf, _ | _, NegInf => false
  end.

(** [a >= b] and [a > b]. *)
Definition ge (a b : jsnum) : bool := le b a.

Definition gt (a b : jsnum) : bool :=
  match a, b with
  | NaN, _ | _, NaN => false
  | _, _ => negb (le a b)
  end.

(** [Math.min(a, b)]. *)
Definition min (a b : jsnum) : jsnum :=
  match a, b with
  | NaN, _ | _, NaN => NaN
  | NegInf, _ | _, NegInf => NegInf
  | PosInf, x | x, PosInf => x
  | Fin x, Fin y => if Qle_bool x y then Fin x else Fin y
  end.

End JsMath.

(** ** The [Pagination] component of [components/ui] *)

Module Paging.
Import JsNum JsMath.

Record PaginationProps : Type := mkPaginationProps {
  page : Z;
  pageSize : Z;
  total : Z
}.

(** What the component shows: the three numbers of "Showing .. to .. of ..
    results" and whether each button is disabled. *)
Record PaginationView : Type := mkPaginationView {
  showing_from : Z;
  showing_to : Z;
  showing_of : Z;
  previous_disabled : bool;
  next_disabled : bool
}.

(** [const totalPages = Math.ceil(total / pageSize)]. *)
Definition totalPages (props : PaginationProps) : jsnum :=
  ceil (div (of_Z (total props)) (of_Z (pageSize props))).

(** [Pagination(props)]; [None] is [return null]. *)
Definition Pagination (props : PaginationProps) : option PaginationView :=
  if le (totalPages props) (of_Z 1) then None
  else
    Some (mkPaginationView
            ((page props - 1) * pageSize props + 1)
            (Z.min (page props * pageSize props) (total props))
            (total props)
            (page props <=? 1)%Z
            (ge (of_Z (page props)) (totalPages props))).

(** The two buttons: [onPageChange(page - 1)] and [onPageChange(page + 1)],
    which the pages bind to [setPage]; a disabled button does nothing. *)
Inductive Button : Type := Previous | Next.

Definition click (b : Button) (props : PaginationProps) : PaginationProps :=
  match Pagination props with
  | None => props
  | Some view =>
      match b with
      | Previous =>
          if previous_disabled view then props
          else mkPaginationProps (page props - 1) (pageSize props) (total props)
      | Next =>
          if next_disabled view then props
          else mkPaginationProps (page props + 1) (pageSize props) (total props)
      end
  end.

(** A page is in range when it shows at least one result. *)
Definition in_range (props : PaginationProps) : Prop :=
  (0 < pageSize props)%Z /\ (1 <= page props)%Z /\
  ((page props - 1) * pageSize props < total props)%Z.

(** [Number.MAX_SAFE_INTEGER]. *)
Definition MAX_SAFE_INTEGER : Z := 2 ^ 53 - 1.

(** The numbers the component computes with are safe integers: up to
    [MAX_SAFE_INTEGER] the sums and products of integers are exact in
    the arithmetic of JavaScript, as they are here. *)
Definition safe_integers (props : PaginationProps) : Prop :=
  (total props <= MAX_SAFE_INTEGER)%Z /\
  (page props * pageSize props <= MAX_SAFE_INTEGER)%Z.

End Paging.

(** ** Selections: the check boxes of the domains page and of the
    "assign servers to group" dialog of the servers page *)

Module Selection.
Import BulkImport.

(** [Set<number>], insertion-ordered and without repetition. *)
Definition set_has (x : nat) (s : list nat) : bool := bool_decide (x ∈ s).

Definition set_add (x : nat) (s : list nat) : list nat :=
  if decide (x ∈ s) then s else s ++ [x].

Definition set_delete (x : nat) (s : list nat) : list nat :=
  filter (λ y, y ≠ x) s.

(** [new Set(array)]. *)
Definition set_of_array (l : list nat) : list nat :=
  foldl (λ acc x, set_add x acc) [] l.

(** The fields of [Domain] the selection reads. *)
Record Domain : Type := mkDomain { id : nat; status : string }.

(** [domains.filter(d => d.status === 'free')]. *)
Definition free_domains (domains : list Domain) : list Domain :=
  filter (λ d, String.eqb (status d) "free" = true) domains.

(** [toggleSelectDomain(id)]: the next value of [selectedDomains]. *)
Definition toggleSelectDomain (i : nat) (selectedDomains : list nat) : list nat :=
  if set_has i selectedDomains then set_delete i selectedDomains
  else set_add i selectedDomains.

(** [toggleSelectAll()]. *)
Definition toggleSelectAll (domains : list Domain) (selectedDomains : list nat)
  : list nat :=
  if (length selectedDomains =? length (free_domains domains))%nat then []
  else set_of_array (map id (free_domains domains)).

(** The [checked] of the check box in the header of the table. *)
Definition select_all_checked (domains : list Domain) (selectedDomains : list nat)
  : bool :=
  (0 <? length selectedDomains)%nat
  && (length selectedDomains =? length (free_domains domains))%nat.

(** *** [handleAssign] of the domains page *)

Inductive AssignRequest : Type :=
| AutoAssign (domain_ids : list nat)
| BulkAssign (domain_ids : list nat) (server_id : nat).

(** The state [handleAssign] reads and writes.  [assignServerId] is a
    number or the empty string ([None]); [a_requests] lists what was
    posted to [/assignments/auto] and [/assignments/bulk]. *)
Record AssignState : Type := mkAssignState {
  selectedDomains : list nat;
  autoAssign : bool;
  assignServerId : option nat;
  a_formError : string;
  a_submitting : bool;
  showAssignModal : bool;
  a_reloads : nat;
  a_requests : list AssignRequest
}.

Definition handleAssign (api : AssignRequest -> Reply unit) (st : AssignState)
  : AssignState :=
  (* setFormError(''); setSubmitting(true); *)
  let domainIds := selectedDomains st in
  let request :=
    if autoAssign st then Some (AutoAssign domainIds)
    else
      match assignServerId st with
      | Some (S n) => Some (BulkAssign domainIds (S n))
      | _ => None
      end in
  match request with
  | None =>
      mkAssignState (selectedDomains st) (autoAssign st) (assignServerId st)
        "Please select a server or enable auto-assign" false (showAssignModal st)
        (a_reloads st) (a_requests st)
  | Some r =>
      match api r with
      | Fulfilled _ =>
          mkAssignState [] false None "" false false (S (a_reloads st))
            (a_requests st ++ [r])
      | Threw msg =>
          mkAssignState (selectedDomains st) (autoAssign st) (assignServerId st)
            msg false (showAssignModal st) (a_reloads st) (a_requests st ++ [r])
      end
  end.

(** *** The dialog "assign servers to group" of the servers page *)

(** [selectedServersForGroup.includes(server.id)]. *)
Definition includes (i : nat) (selected : list nat) : bool :=
  bool_decide (i ∈ selected).

(** The [onChange] of a server's check box, with [e.target.checked]. *)
Definition checkbox_change (checked : bool) (i : nat) (selected : list nat)
  : list nat :=
  if checked then selected ++ [i] else filter (λ x, x ≠ i) selected.

(** A click: the browser reports the opposite of the [checked] it was
    given, which is [includes]. *)
Definition click_checkbox (i : nat) (selected : list nat) : list nat :=
  checkbox_change (negb (includes i selected)) i selected.

(** The state [handleAssignToGroup] reads and writes; [g_requests] lists
    the group and server ids posted to [/server-groups/{id}/servers]. *)
Record GroupState : Type := mkGroupState {
  selectedGroup : option nat;
  selectedServersForGroup : list nat;
  g_formError : string;
  g_submitting : bool;
  showAssignGroupModal : bool;
  g_reloads : nat;
  g_requests : list (nat * list nat)
}.

Definition handleAssignToGroup (assignServers : nat -> list nat -> Reply unit)
  (st : GroupState) : GroupState :=
  match selectedGroup st, selectedServersForGroup st with
  | None, _ | _, [] => st
  | Some g, _ :: _ =>
      match assignServers g (selectedServersForGroup st) with
      | Fulfilled _ =>
          mkGroupState (selectedGroup st) [] "" false false (S (g_reloads st))
            (g_requests st ++ [(g, selectedServersForGroup st)])
      | Threw msg =>
          mkGroupState (selectedGroup st) (selectedServersForGroup st) msg false
            (showAssignGroupModal st) (g_reloads st)
            (g_requests st ++ [(g, selectedServersForGroup st)])
      end
  end.

End Selection.

(** ** The tag fields of the domain forms *)

Module TagField.
Import BulkImport.

Definition SPACE : N := 32.

(** [pieces.join(sep)] for a separator string. *)
Fixpoint join_with (sep : jsstring) (pieces : list jsstring) : jsstring :=
  match pieces with
  | [] => []
  | [piece] => piece
  | piece :: rest => piece ++ sep ++ join_with sep rest
  end.

(** The [value] of the field: [formData.tags?.join(', ') || '']. *)
Definition tags_value (tags : list jsstring) : jsstring :=
  join_with [COMMA; SPACE] tags.

(** The [onChange] of the field:
    [e.target.value.split(',').map(t => t.trim()).filter(t => t)]. *)
Definition tags_of_value (value : jsstring) : list jsstring :=
  entries COMMA value.

(** A tag as the field produces it: not empty, without a comma, without
    white space at either end. *)
Definition clean (sep : N) (t : jsstring) : Prop :=
  t <> [] /\ (sep ∉ t) /\ trim t = t.

End TagField.

(** ** [AuthProvider]: the gate in front of the pages *)

Module Auth.
Import JsValue.

(** [user?.authenticated]: [undefined] on [null] and [undefined]. *)
Definition optional_prop (v : jsval) (k : string) : jsval :=
  match get_prop v k with
  | Some x => x
  | None => VUndefined
  end.

(** The state of the provider; [redirected] records
    [window.location.href = authApi.getLoginUrl()]. *)
Record AuthState : Type := mkAuthState {
  user : jsval;
  loading : bool;
  redirected : bool
}.

(** [useState(null)], [useState(true)]. *)
Definition initial : AuthState := mkAuthState VNull true false.

(** [checkAuth()], given what [authApi.getUser()] settles to: the parsed
    body of [/auth/me], or [None] when [fetch] or [response.json()]
    rejects. *)
Definition checkAuth (reply : option jsval) (st : AuthState) : AuthState :=
  match reply with
  | Some userData =>
      (* setUser(userData) *)
      match get_prop userData "authenticated" with
      | Some a =>
          if truthy a then mkAuthState userData false (redirected st)
          else mkAuthState userData false true
      | None => mkAuthState userData false true   (* the TypeError is caught *)
      end
  | None => mkAuthState (user st) false true
  end.

Inductive Rendered : Type := Authenticating | Redirecting | Children.

(** What the provider renders. *)
Definition render (st : AuthState) : Rendered :=
  if loading st then Authenticating
  else if negb (truthy (optional_prop (user st) "authenticated")) then Redirecting
  else Children.

End Auth.

(** ** The capacity overview of the assignments page *)

Module Overview.
Import JsNum JsMath.

Inductive BarColor : Type := red | yellow | green.

(** [x ?? 0] for the optional [utilization_percent] of a report row. *)
Definition or_zero (x : option jsnum) : jsnum :=
  match x with
  | Some v => v
  | None => Fin 0
  end.

(** The [width] of the bar: [Math.min(server.utilization_percent ?? 0, 100)]. *)
Definition bar_width (utilization_percent : option jsnum) : jsnum :=
  min (or_zero utilization_percent) (of_Z 100).

(** The colour of the bar. *)
Definition bar_color (utilization_percent : option jsnum) : BarColor :=
  if ge (or_zero utilization_percent) (of_Z 100) then red
  else if gt (or_zero utilization_percent) (of_Z 70) then yellow
  else green.

End Overview.

(** ** What the real-time client keeps *)

Module Keeps.
Import WS.

(** The reconnect counter is within its ceiling and every pending
    reconnect timer has one of the ten delays of the backoff. *)
Definition backoff_bounded (w : World) : Prop :=
  (reconnectAttempts (client w) <= maxReconnectAttempts)%nat /\
  forall t d, timers (browser w) !! t = Some d ->
              exists k, (k < maxReconnectAttempts)%nat /\ d = (reconnectDelay * 2 ^ k)%nat.

(** The keep-alive timers that run are the one the client remembers, and
    it remembers one only while its socket is open or in its closing
    handshake. *)
Definition one_keepalive (w : World) : Prop :=
  intervals (browser w) =
    match pingInterval (client w) with
    | Some i => {[ i ]}
    | None => ∅
    end /\
  (pingInterval (client w) <> None -> ws_is_open w || ws_is_closing w = true).

End Keeps.

(** ** Notifications arriving one after the other *)

Module Notifications.
Import WS Pages.

Section WithData.

Variables Stats Report ServerT DomainT : Type.

(** The page state after a series of messages, each paired with what the
    API answers when its re-read runs; the re-read a message triggers has
    settled before the next message is handled. *)
Definition receive_all {St : Type} (p : Page Stats Report ServerT DomainT St)
  (ms : list (WSMessage * Backend Stats Report ServerT DomainT)) (st : St) : St :=
  foldl (λ st '(m, b), receive p m b st) st ms.

End WithData.

Arguments receive_all {_ _ _ _ _} p ms st.

End Notifications.

(* ================================================================== *)
(** * Part II: properties                                               *)
(* ================================================================== *)

(** A list of distinct constants has no repetition. *)
Ltac distinct_elements :=
  repeat (apply NoDup_cons; split;
          [rewrite ?elem_of_cons, ?elem_of_nil; intuition discriminate|]);
  constructor.

(** A channel name equals at most one of several distinct constants. *)
Ltac one_channel :=
  try reflexivity;
  repeat match goal with
         | H : String.eqb _ _ = true |- _ => apply String.eqb_eq in H
         end;
  congruence.

(** ** Capacity *)

Section CapacityFacts.
Import JsNum Capacity.

Lemma count_is_zero (n : nat) :
  is_zero (inject_Z (Z.of_nat n)) = bool_decide (n = 0%nat).
Proof.
  unfold is_zero, Qeq_bool, inject_Z; simpl.
  destruct n as [|n]; [reflexivity|].
  rewrite bool_decide_eq_false_2 by discriminate.
  apply Z.eqb_neq. lia.
Qed.

Lemma Qred_mul_l (a b : Q) : Qred (Qred a * b) = Qred (a * b).
Proof. apply Qred_complete. now rewrite Qred_correct. Qed.

(** With room for at least one domain the capacity column shows the
    percentage of the design document. *)
Lemma servers_page_bar_width_positive (server : Server) :
  (0 < max_domains server)%nat ->
  servers_page_bar_width server =
  spec_utilization_percent (current_domains server) (max_domains server).
Proof.
  intros Hpos. unfold servers_page_bar_width, spec_utilization_percent, of_nat.
  destruct (max_domains server) as [|m] eqn:Hm; [lia|].
  cbn [div mul]. rewrite count_is_zero, bool_decide_eq_false_2 by discriminate.
  change (Z.of_nat 100) with 100%Z. unfold mul. now rewrite Qred_mul_l.
Qed.

(** The dashboard guards its divisor with [Math.max(capacity, 1)]: its
    bar is always a finite number. *)
Lemma dashboard_bar_width_finite (d : ModeUtilization) :
  is_finite (dashboard_bar_width d) = true.
Proof.
  unfold dashboard_bar_width, of_nat. cbn [max].
  destruct (Qle_bool _ _) eqn:Hle; cbn [div].
  - rewrite (count_is_zero 1). reflexivity.
  - rewrite count_is_zero.
    destruct (capacity d) as [|c] eqn:Hc; [|reflexivity].
    exfalso. clear -Hle. vm_compute in Hle. discriminate.
Qed.

(** Without capacity the capacity column of the servers page never shows
    a number. *)
Lemma servers_page_bar_width_no_capacity (server : Server) :
  max_domains server = 0%nat ->
  servers_page_bar_width server =
  if (current_domains server =? 0)%nat then NaN else PosInf.
Proof.
  intros Hmax. unfold servers_page_bar_width, of_nat. rewrite Hmax.
  cbn [div]. change (is_zero (inject_Z (Z.of_nat 0))) with true. cbn iota.
  rewrite count_is_zero.
  destruct (current_domains server) as [|c]; [reflexivity|].
  rewrite bool_decide_eq_false_2 by discriminate. reflexivity.
Qed.

Lemma dashboard_bar_width_zero_capacity (srv : nat) :
  dashboard_bar_width (mkModeUtilization srv 0 0) = Fin 0.
Proof. reflexivity. Qed.

(** C1 (defect of the servers page).  For a server whose [max_domains] is
    0 the design document defines the utilization as 0 and the dashboard
    bar, which guards its divisor, shows 0; the capacity column of the
    servers page divides by [max_domains] unguarded and produces [NaN]
    for an empty server and [Infinity] for any other. *)
Theorem servers_page_bar_width_zero_capacity :
  servers_page_bar_width (mkServer 1 0 0) = NaN /\
  servers_page_bar_width (mkServer 1 3 0) = PosInf /\
  spec_utilization_percent 0 0 = Fin 0 /\
  dashboard_bar_width (mkModeUtilization 1 0 0) = Fin 0.
Proof. repeat split; reflexivity. Qed.

(** C2.  There are exactly three capacity modes; [slotsFor] maps low to
    5, medium to 7 and high to 10; and the choices offered by the server
    forms are, in order, the three modes, each shown with its own slot
    count, and each value reads back as its mode. *)
Theorem capacity_modes_and_options :
  (forall m : CapacityMode, m ∈ all_modes) /\
  NoDup all_modes /\ length all_modes = 3%nat /\
  slotsFor low = 5%nat /\ slotsFor medium = 7%nat /\ slotsFor high = 10%nat /\
  CAPACITY_OPTIONS = map (fun m => option_for m (slotsFor m)) all_modes /\
  Forall (fun o => exists m, mode_of_value (value o) = Some m /\
                             o = option_for m (slotsFor m)) CAPACITY_OPTIONS.
Proof.
  split; [intros []; unfold all_modes; rewrite ?elem_of_cons; auto|].
  split.
  { unfold all_modes. distinct_elements. }
  do 5 (split; [reflexivity|]).
  unfold CAPACITY_OPTIONS.
  repeat constructor; [exists low | exists medium | exists high]; split; reflexivity.
Qed.

End CapacityFacts.

(** ** The API client *)

Section ApiFacts.
Import JsValue Api.

Variable ToString : jsval -> string.

(** A failed response never resolves the promise. *)
Lemma fetchApi_failed_rejects (r : Response) :
  ok r = false -> exists t, settled (fetchApi ToString r) = Rejected t.
Proof.
  intros Hok. unfold fetchApi. rewrite Hok. cbn [negb].
  destruct (get_prop _ _); eauto.
Qed.

(** An error body that does not parse gives ['Unknown error']. *)
Lemma fetchApi_unparseable (r : Response) :
  ok r = false -> json_body r = None ->
  fetchApi ToString r =
  mkOutcome (Rejected (ThrowApiError (mkApiError (status r) "Unknown error"))) true.
Proof. intros Hok Hbody. unfold fetchApi. rewrite Hok, Hbody. reflexivity. Qed.

(** A non-empty detail string supplied by the server is the message. *)
Lemma fetchApi_server_detail (r : Response) (d : string) :
  ok r = false -> server_detail r = Some d -> d <> "" ->
  fetchApi ToString r =
  mkOutcome (Rejected (ThrowApiError (mkApiError (status r) d))) true.
Proof.
  intros Hok Hd Hne. unfold fetchApi, server_detail in *. rewrite Hok. cbn [negb].
  destruct (json_body r) as [[| | | | | |flds]|]; try discriminate.
  cbn [get_prop]. destruct (assoc "detail" flds) as [[| | | |s| |]|]; try discriminate.
  injection Hd as ->.
  destruct (String.eqb d "") eqn:He; [apply String.eqb_eq in He; contradiction|].
  unfold or_else, truthy, default, id. rewrite He. reflexivity.
Qed.

(** Any parsed body other than [null] gives an [ApiError] with the
    status; without a truthy detail the message is ['Request failed']. *)
Lemma fetchApi_parsed_body (r : Response) (v : jsval) :
  ok r = false -> json_body r = Some v -> v <> VNull -> v <> VUndefined ->
  exists msg,
    fetchApi ToString r =
    mkOutcome (Rejected (ThrowApiError (mkApiError (status r) msg))) true /\
    (server_detail r = None ->
     (forall d, get_prop v "detail" = Some d -> truthy d = false) ->
     msg = "Request failed").
Proof.
  intros Hok Hbody Hnull Hundef. unfold fetchApi. rewrite Hok, Hbody. cbn [negb].
  destruct (get_prop v "detail") as [d|] eqn:Hget.
  - eexists; split; [reflexivity|]. intros _ Hfalsy.
    unfold or_else. now rewrite (Hfalsy d eq_refl).
  - destruct v; try discriminate; contradiction.
Qed.

(** A 204 response resolves to [undefined]; its body is never read. *)
Lemma fetchApi_no_content (r : Response) :
  status r = 204%nat ->
  fetchApi ToString r = mkOutcome (Resolved VUndefined) false.
Proof. intros H. unfold fetchApi, ok. rewrite H. reflexivity. Qed.

(** C6 (defect of [fetchApi]).  A failed response whose body is the JSON
    text [null] parses, so the [catch] fallback does not apply, and
    reading [error.detail] raises a [TypeError]: the caller gets neither
    an [ApiError] nor the status.  The promise is still rejected. *)
Theorem fetchApi_null_error_body :
  Api.ok (mkResponse 500 (Some VNull)) = false /\
  fetchApi ToString (mkResponse 500 (Some VNull)) =
  mkOutcome (Rejected ThrowTypeError) true.
Proof. split; reflexivity. Qed.

End ApiFacts.

(** ** The handler set of the real-time client *)

Section HandlerSet.
Import JsValue WS.

Lemma elem_of_set_add (h x : MessageHandler) (l : list MessageHandler) :
  x ∈ set_add h l <-> x = h \/ x ∈ l.
Proof.
  unfold set_add. destruct (decide (h ∈ l)) as [Hin|Hout].
  - split; [auto|]. intros [->|]; auto.
  - rewrite elem_of_app, list_elem_of_singleton. tauto.
Qed.

Lemma elem_of_set_delete (h x : MessageHandler) (l : list MessageHandler) :
  x ∈ set_delete h l <-> x ∈ l /\ x <> h.
Proof. unfold set_delete. rewrite list_elem_of_filter. tauto. Qed.



Lemma set_add_NoDup (h : MessageHandler) (l : list MessageHandler) :
  NoDup l -> NoDup (set_add h l).
Proof.
  intros Hnd. unfold set_add. destruct (decide (h ∈ l)); [assumption|].
  apply NoDup_app. repeat split; [assumption| |apply NoDup_singleton].
  intros x Hx Hx'. apply list_elem_of_singleton in Hx'. congruence.
Qed.


Lemma messageHandlers_set (l : list MessageHandler) (w : World) :
  messageHandlers (client (set_messageHandlers l w)) = l.
Proof. reflexivity. Qed.


(** What a message does: the subscribed handlers run in the order of
    subscription, and nothing else changes. *)
Lemma message_runs_handlers (w : World) (s : nat) (m : WSMessage) :
  ready_state s w = Some OPEN ->
  step (SocketMessage s (Some m)) w = Some (dispatch m w).
Proof. intros Hs. cbn [step]. rewrite Hs. reflexivity. Qed.

Lemma dispatch_effects (m : WSMessage) (w : World) :
  effects (browser (dispatch m w)) =
  effects (browser w) ++ (run_handlers (messageHandlers (client w)) m).1.
Proof.
  unfold dispatch. destruct (run_handlers _ m) as [es []]; reflexivity.
Qed.


Lemma dispatch_console (m : WSMessage) (w : World) :
  console (browser (dispatch m w)) =
  console (browser w) ++
    (if (run_handlers (messageHandlers (client w)) m).2 then [LogParseFailed] else []).
Proof.
  unfold dispatch. destruct (run_handlers _ m) as [es []]; cbn;
    [reflexivity|now rewrite app_nil_r].
Qed.


(** A message that carries data: its [data] and the [action] of the data
    can be read, and so can its [channel]. *)
Lemma has_data_read (m : WSMessage) :
  has_data m = true ->
  exists ch d act,
    get_prop m "channel" = Some ch /\
    get_prop m "data" = Some d /\ nullish d = false /\
    get_prop d "action" = Some act.
Proof.
  unfold has_data. intros H.
  destruct (get_prop m "data") as [d|] eqn:Hd; [|discriminate].
  apply negb_true_iff in H.
  assert (Hch : is_Some (get_prop m "channel")) by (destruct m; cbn in *; eauto; discriminate).
  assert (Hact : is_Some (get_prop d "action")) by (destruct d; cbn in *; eauto; discriminate).
  destruct Hch as [ch Hch], Hact as [act Hact]. now exists ch, d, act.
Qed.

(** On a message that carries data no handler throws. *)
Lemma run_handler_with_data (h : MessageHandler) (m : WSMessage) :
  has_data m = true -> (run_handler h m).2 = false.
Proof.
  intros H. destruct (has_data_read m H) as (ch & d & act & Hch & Hd & Hn & Hact).
  unfold run_handler, realtime_handler, websocket_hook_handler.
  destruct (body h) as [c f|k]; rewrite Hch, Hd; cbn.
  - rewrite Hact. cbn. now destruct (is_string ch (channel_name c)).
  - reflexivity.
Qed.

Lemma run_handlers_with_data (l : list MessageHandler) (m : WSMessage) :
  has_data m = true ->
  run_handlers l m = (flat_map (fun h => (run_handler h m).1) l, false).
Proof.
  intros H. induction l as [|h l IH]; [reflexivity|].
  cbn [run_handlers flat_map]. pose proof (run_handler_with_data h m H) as Hh.
  destruct (run_handler h m) as [es threw]. cbn in Hh. subst threw.
  now rewrite IH.
Qed.

(** On a message without data the handlers of [useRealtimeUpdates] call
    nothing. *)
Lemma realtime_handler_without_data (c : Channel) (f : nat) (m : WSMessage) :
  has_data m = false -> (realtime_handler c f m).1 = [].
Proof.
  unfold has_data, realtime_handler. intros H.
  destruct (get_prop m "channel") as [ch|]; [|reflexivity].
  destruct (is_string ch (channel_name c)); [|reflexivity].
  destruct (get_prop m "data") as [d|]; [|reflexivity]. cbn.
  apply negb_false_iff in H. destruct d; try discriminate; reflexivity.
Qed.

(** A message is on at most one of the four channels. *)
Lemma on_channel_one (m : WSMessage) (c c' : Channel) :
  on_channel m c = true -> on_channel m c' = true -> c = c'.
Proof.
  unfold on_channel. destruct (get_prop m "channel") as [[| | | |name| |]|]; try discriminate.
  cbn. intros H H'. apply String.eqb_eq in H, H'.
  destruct c, c'; cbn in *; congruence.
Qed.

End HandlerSet.

(** ** Subscriptions and dispatch *)

Section Subscriptions.
Import JsValue WS Scenarios.

(** [useRealtimeUpdates] subscribes a handler for its channel and callback. *)
Lemma useRealtimeUpdates_subscribes (c : Channel) (f : nat) (w : World) :
  body (useRealtimeUpdates c f w).1 = RealtimeUpdates c f /\
  (useRealtimeUpdates c f w).1 ∈ messageHandlers (client (useRealtimeUpdates c f w).2).
Proof.
  unfold useRealtimeUpdates. cbn. split; [reflexivity|].
  apply elem_of_set_add. now left.
Qed.

(** The claim C4 read for every received message: a handler subscribed
    for the channel of the message calls its callback.  It fails for a
    message of that channel without [data]: reading [message.data.action]
    throws, and the callback is not called. *)
Lemma realtime_update_needs_data :
  ~ (forall (w : World) (s : nat) (m : WSMessage) (h : MessageHandler)
            (c : Channel) (f : nat),
       h ∈ messageHandlers (client w) ->
       body h = RealtimeUpdates c f ->
       ready_state s w = Some OPEN ->
       on_channel m c = true ->
       exists w' act d,
         step (SocketMessage s (Some m)) w = Some w' /\
         CallOnUpdate f act d ∈ effects (browser w')).
Proof.
  intros H.
  destruct (H (subscribe sample_handler (mark 0 OPEN new_world)) 0%nat
              (VObj [("channel", VStr "servers")]) sample_handler servers 0%nat)
    as (w' & act & d & Hstep & Hin).
  - cbn. apply list_elem_of_singleton. reflexivity.
  - reflexivity.
  - reflexivity.
  - reflexivity.
  - vm_compute in Hstep. injection Hstep as <-. cbn in Hin.
    now apply not_elem_of_nil in Hin.
Qed.

(** C4, amended.  Whatever the message, the handler that
    [useRealtimeUpdates] registered for channel [c] with callback [f]
    calls [f] only if the channel of the message is [c]; in particular a
    message of any other of the four channels never reaches [f] through
    this subscription.  When the message carries data, every subscribed
    handler runs once, none throws, and the handler calls [f] (once, with
    the action and the data of the message) if and only if the channel
    of the message is [c]. *)
Theorem realtime_update_iff_channel
  (w : World) (s : nat) (m : WSMessage) (h : MessageHandler) (c : Channel) (f : nat) :
  h ∈ messageHandlers (client w) ->
  body h = RealtimeUpdates c f ->
  ready_state s w = Some OPEN ->
  (forall act d, CallOnUpdate f act d ∈ (run_handler h m).1 -> on_channel m c = true) /\
  (forall c', c' <> c -> on_channel m c' = true -> (run_handler h m).1 = []) /\
  (has_data m = true ->
   exists w' act d,
     step (SocketMessage s (Some m)) w = Some w' /\
     get_prop m "data" = Some d /\ get_prop d "action" = Some act /\
     effects (browser w') =
       effects (browser w) ++
       flat_map (fun h' => (run_handler h' m).1) (messageHandlers (client w)) /\
     console (browser w') = console (browser w) /\
     (on_channel m c = true -> run_handler h m = ([CallOnUpdate f act d], false)) /\
     (on_channel m c = false -> run_handler h m = ([], false))).
Proof.
  intros Hin Hbody Hopen.
  assert (Honly : forall act d, CallOnUpdate f act d ∈ (run_handler h m).1 ->
                                on_channel m c = true).
  { intros act d. unfold run_handler, realtime_handler, on_channel. rewrite Hbody.
    destruct (get_prop m "channel") as [ch|]; cbn; [|intros He; now apply not_elem_of_nil in He].
    destruct (is_string ch (channel_name c)); [reflexivity|].
    cbn. intros He. now apply not_elem_of_nil in He. }
  split; [exact Honly|]. split.
  - intros c' Hc' Hon.
    destruct (run_handler h m) as [[|e es] threw] eqn:Hrun; [reflexivity|]. exfalso.
    assert (He : exists act d, e = CallOnUpdate f act d).
    { revert Hrun. unfold run_handler, realtime_handler. rewrite Hbody.
      destruct (get_prop m "channel") as [ch|]; [|discriminate].
      destruct (is_string ch (channel_name c)); [|discriminate].
      destruct (_ ≫= _) as [[act d]|]; [|discriminate].
      intros Hrun. injection Hrun as <- _ _. now exists act, d. }
    destruct He as (act & d & ->). apply Hc'.
    apply (on_channel_one m); [exact Hon|].
    apply (Honly act d). rewrite ?Hrun. apply list_elem_of_here.
  - intros Hdata.
    destruct (has_data_read m Hdata) as (ch & d & act & Hch & Hd & Hn & Hact).
    exists (dispatch m w), act, d.
    split; [now apply message_runs_handlers|]. split; [exact Hd|]. split; [exact Hact|].
    split; [rewrite dispatch_effects, run_handlers_with_data by exact Hdata; reflexivity|].
    split.
    { rewrite dispatch_console, run_handlers_with_data by exact Hdata.
      cbn. apply app_nil_r. }
    unfold run_handler, realtime_handler, on_channel. rewrite Hbody, Hch, Hd. cbn.
    rewrite Hact. cbn. split; intros ->; reflexivity.
Qed.

Lemma realtime_update_iff_channel_witness :
  exists w',
    step (SocketMessage 0 (Some (envelope "servers" "updated" [])))
         (subscribe sample_handler (mark 0 OPEN new_world)) = Some w' /\
    effects (browser w') =
      [CallOnUpdate 0 (VStr "updated") (VObj [("action", VStr "updated")])].
Proof.
  destruct (realtime_update_iff_channel
              (subscribe sample_handler (mark 0 OPEN new_world)) 0
              (envelope "servers" "updated" [])
              sample_handler servers 0) as (_ & _ & Hdata).
  - cbn. apply list_elem_of_singleton. reflexivity.
  - reflexivity.
  - reflexivity.
  - destruct (Hdata eq_refl) as (w' & act & d & Hstep & _ & _ & Heff & _).
    exists w'. split; [exact Hstep|]. rewrite Heff. reflexivity.
Defined.




(** Whatever was subscribed before, after the returned function was
    called the handler is not in the set and no message reaches it. *)
Lemma unsubscribed_handler_is_gone (h : MessageHandler) (w : World) :
  h ∉ messageHandlers (client (unsubscribe h w)).
Proof.
  unfold unsubscribe. rewrite messageHandlers_set, elem_of_set_delete. tauto.
Qed.

End Subscriptions.

(** ** Reconnecting *)

Section Reconnect.
Import WS Scenarios.

(** Which fields the private methods leave alone. *)
Lemma ws_is_open_indep (w w' : World) :
  ws (client w') = ws (client w) ->
  sockets (browser w') = sockets (browser w) ->
  ws_is_open w' = ws_is_open w.
Proof. unfold ws_is_open, ready_state. now intros -> ->. Qed.

Lemma stopPing_keeps (w : World) :
  ws (client (stopPing w)) = ws (client w) /\
  sockets (browser (stopPing w)) = sockets (browser w) /\
  timers (browser (stopPing w)) = timers (browser w) /\
  reconnectAttempts (client (stopPing w)) = reconnectAttempts (client w) /\
  isConnecting (client (stopPing w)) = isConnecting (client w) /\
  console (browser (stopPing w)) = console (browser w).
Proof. unfold stopPing. destruct (pingInterval (client w)); repeat split. Qed.

(** [attemptReconnect] below the ceiling: one more timer, whose delay is
    the base delay doubled once per earlier attempt. *)
Lemma attemptReconnect_schedules (w : World) (n : nat) :
  reconnectAttempts (client w) = n -> (n < maxReconnectAttempts)%nat ->
  let w' := attemptReconnect w in
  reconnectAttempts (client w') = S n /\
  timers (browser w') =
    <[next_id (browser w) := (reconnectDelay * 2 ^ n)%nat]> (timers (browser w)) /\
  console (browser w') =
    console (browser w) ++ [LogReconnecting (reconnectDelay * 2 ^ n) (S n)] /\
  ws (client w') = ws (client w) /\
  sockets (browser w') = sockets (browser w) /\
  isConnecting (client w') = isConnecting (client w).
Proof.
  intros Hn Hlt. unfold attemptReconnect. rewrite Hn.
  destruct (maxReconnectAttempts <=? n)%nat eqn:Hle;
    [apply Nat.leb_le in Hle; lia|].
  repeat split.
Qed.

(** [attemptReconnect] at the ceiling: nothing is scheduled. *)
Lemma attemptReconnect_gives_up (w : World) :
  (maxReconnectAttempts <= reconnectAttempts (client w))%nat ->
  attemptReconnect w = log LogMaxReached w.
Proof.
  intros Hge. unfold attemptReconnect.
  destruct (_ <=? _)%nat eqn:Hle; [reflexivity|].
  apply Nat.leb_gt in Hle. lia.
Qed.

(** [onopen] resets the counter. *)
Lemma onopen_resets (w : World) : reconnectAttempts (client (onopen w)) = 0%nat.
Proof. reflexivity. Qed.

Lemma onclose_below_ceiling (w : World) (n : nat) :
  reconnectAttempts (client w) = n -> (n < maxReconnectAttempts)%nat ->
  ws_is_open w = false -> timers (browser w) = ∅ ->
  waiting (S n) (onclose w).
Proof.
  intros Hn Hlt Hclosed Htimers. unfold onclose.
  set (w1 := stopPing (set_isConnecting false (log LogDisconnected w))).
  destruct (stopPing_keeps (set_isConnecting false (log LogDisconnected w)))
    as (Hws & Hsock & Htm & Hra & Hic & _). fold w1 in Hws, Hsock, Htm, Hra, Hic.
  cbn in Hws, Hsock, Htm, Hra, Hic.
  destruct (attemptReconnect_schedules w1 n) as (Ha & Hb & _ & Hc & Hd & He);
    [congruence|assumption|].
  unfold waiting. split; [exact Ha|]. split; [congruence|].
  split.
  - rewrite <- Hclosed. apply ws_is_open_indep; congruence.
  - exists (next_id (browser w1)). rewrite Hb, Htm, Htimers.
    replace (S n - 1)%nat with n by lia. reflexivity.
Qed.

Lemma onclose_at_ceiling (w : World) :
  reconnectAttempts (client w) = maxReconnectAttempts ->
  timers (browser w) = ∅ ->
  gave_up (onclose w).
Proof.
  intros Hn Htimers. unfold onclose.
  set (w1 := stopPing (set_isConnecting false (log LogDisconnected w))).
  destruct (stopPing_keeps (set_isConnecting false (log LogDisconnected w)))
    as (_ & _ & Htm & Hra & _ & _). fold w1 in Htm, Hra. cbn in Htm, Hra.
  rewrite attemptReconnect_gives_up by lia.
  unfold gave_up. cbn. split; [congruence|]. split; [congruence|].
  apply last_snoc.
Qed.

Lemma ready_state_set_ws_sockets
  (s : nat) (x : option nat) (m : gmap nat ReadyState) (w : World) :
  ready_state s (set_ws x (set_sockets m w)) = m !! s.
Proof. reflexivity. Qed.

(** The state in which a scheduled attempt has run and failed, just
    before [onclose] runs. *)
Lemma failed_attempt_unfold (w : World) (n : nat) :
  waiting n w ->
  exists w2,
    failed_attempt w = Some (onclose w2) /\
    reconnectAttempts (client w2) = n /\
    ws_is_open w2 = false /\
    timers (browser w2) = ∅.
Proof.
  intros (Hn & Hic & Hclosed & t & Htimers).
  unfold failed_attempt. rewrite Htimers, map_to_list_singleton.
  cbn [step]. rewrite Htimers, lookup_singleton_eq. cbn [mbind option_bind].
  rewrite delete_singleton_eq.
  set (w0 := set_timers ∅ w).
  assert (Hguard : ws_is_open w0 || isConnecting (client w0) = false).
  { rewrite (ws_is_open_indep w w0), Hclosed by reflexivity. exact Hic. }
  unfold connect. rewrite Hguard.
  cbn [fresh set_user set_isConnecting set_next_id set_sockets set_ws
       client browser ws sockets next_id mbind option_bind].
  set (s := next_id (browser w0)).
  rewrite ready_state_set_ws_sockets, lookup_insert_eq.
  eexists. split; [reflexivity|].
  split; [exact Hn|]. split; [|reflexivity].
  unfold ws_is_open, ready_state. cbn.
  rewrite lookup_insert_eq. reflexivity.
Qed.

Lemma failed_attempt_below_ceiling (w : World) (n : nat) :
  waiting n w -> (n < maxReconnectAttempts)%nat ->
  exists w', failed_attempt w = Some w' /\ waiting (S n) w'.
Proof.
  intros Hw Hlt. destruct (failed_attempt_unfold w n Hw) as (w2 & -> & Hn & Hc & Ht).
  eexists. split; [reflexivity|]. now apply onclose_below_ceiling.
Qed.

Lemma failed_attempt_at_ceiling (w : World) :
  waiting maxReconnectAttempts w ->
  exists w', failed_attempt w = Some w' /\ gave_up w'.
Proof.
  intros Hw. destruct (failed_attempt_unfold w _ Hw) as (w2 & -> & Hn & Hc & Ht).
  eexists. split; [reflexivity|]. now apply onclose_at_ceiling.
Qed.

(** After a disconnect, [k] failed attempts leave the client waiting for
    attempt [k + 1], as long as that is within the ceiling. *)
Lemma failed_attempts_waiting (w : World) (k : nat) :
  waiting 1 w -> (S k <= maxReconnectAttempts)%nat ->
  exists w', failed_attempts k w = Some w' /\ waiting (S k) w'.
Proof.
  intros Hw. induction k as [|k IH]; intros Hle.
  - exists w. split; [reflexivity|assumption].
  - destruct IH as (w1 & Hrun & Hw1); [lia|].
    destruct (failed_attempt_below_ceiling w1 (S k) Hw1) as (w2 & Hstep & Hw2); [lia|].
    exists w2. split; [|assumption]. cbn [failed_attempts]. rewrite Hrun. exact Hstep.
Qed.

(** A client that has given up has no attempt left to run. *)
Lemma gave_up_is_final (w : World) : gave_up w -> failed_attempt w = None.
Proof.
  intros (_ & Ht & _). unfold failed_attempt. rewrite Ht, map_to_list_empty. reflexivity.
Qed.

(** C3.  Take a client whose socket [s] is connecting.  When the socket
    opens, the attempt counter is 0.  When the connection is then lost,
    the [n]-th consecutive reconnect attempt, for [n] from 1 to 10, is
    scheduled with a delay of [1000 * 2^(n-1)] ms (and is the only timer
    pending); and once ten attempts in a row have failed nothing is
    scheduled any more: no timer is pending and no further attempt can
    run. *)
Theorem reconnect_backoff (w : World) (s : nat) :
  ready_state s w = Some CONNECTING ->
  ws (client w) = Some s ->
  timers (browser w) = ∅ ->
  exists w0,
    step (SocketOpened s) w = Some w0 /\
    reconnectAttempts (client w0) = 0%nat /\
    (forall n, (1 <= n <= 10)%nat ->
       exists w' t,
         (step (SocketClosed s) w0 ≫= failed_attempts (n - 1)) = Some w' /\
         reconnectAttempts (client w') = n /\
         timers (browser w') = {[t := (1000 * 2 ^ (n - 1))%nat]}) /\
    (exists w',
       (step (SocketClosed s) w0 ≫= failed_attempts 10) = Some w' /\
       reconnectAttempts (client w') = 10%nat /\
       timers (browser w') = ∅ /\
       failed_attempt w' = None).
Proof.
  intros Hs Hws Htimers.
  set (w0 := onopen (mark s OPEN w)). exists w0.
  split; [cbn [step]; rewrite Hs; reflexivity|].
  split; [reflexivity|].
  assert (Hopen : ready_state s w0 = Some OPEN).
  { unfold w0, ready_state. cbn. apply lookup_insert_eq. }
  assert (Hclose : exists w1, step (SocketClosed s) w0 = Some w1 /\ waiting 1 w1).
  { cbn [step]. rewrite Hopen. eexists. split; [reflexivity|].
    apply (onclose_below_ceiling _ 0).
    - reflexivity.
    - unfold maxReconnectAttempts. lia.
    - unfold ws_is_open, ready_state. cbn. rewrite Hws. cbn.
      rewrite lookup_insert_eq. reflexivity.
    - cbn. exact Htimers. }
  destruct Hclose as (w1 & Hstep & Hw1). rewrite Hstep. cbn [mbind option_bind].
  split.
  - intros n Hn.
    destruct (failed_attempts_waiting w1 (n - 1) Hw1) as (w' & Hrun & Hw');
      [unfold maxReconnectAttempts; lia|].
    replace (S (n - 1)) with n in Hw' by lia.
    destruct Hw' as (Ha & _ & _ & t & Ht).
    exists w', t. repeat split; assumption.
  - destruct (failed_attempts_waiting w1 9 Hw1) as (w9 & Hrun & Hw9);
      [unfold maxReconnectAttempts; lia|].
    destruct (failed_attempt_at_ceiling w9 Hw9) as (w10 & Hlast & Hgave).
    exists w10. split.
    + change (failed_attempts 10 w1) with (failed_attempts 9 w1 ≫= failed_attempt).
      rewrite Hrun. exact Hlast.
    + destruct Hgave as (Ha & Ht & Hl). repeat split; try assumption.
      apply gave_up_is_final. repeat split; assumption.
Qed.

Lemma reconnect_backoff_witness :
  exists w0,
    step (SocketOpened 0) (connect "u" true new_world) = Some w0 /\
    reconnectAttempts (client w0) = 0%nat /\
    exists w' t,
      (step (SocketClosed 0) w0 ≫= failed_attempts 2) = Some w' /\
      timers (browser w') = {[t := 4000%nat]}.
Proof.
  destruct (reconnect_backoff (connect "u" true new_world) 0)
    as (w0 & Hopen & Hzero & Hn & _); [reflexivity..|].
  exists w0. split; [exact Hopen|]. split; [exact Hzero|].
  destruct (Hn 3%nat) as (w' & t & Hrun & _ & Ht); [lia|].
  exists w', t. split; [exact Hrun|exact Ht].
Defined.

End Reconnect.

(** ** Connecting *)

Section Connect.
Import WS Scenarios.

(** With an open socket, or with [isConnecting] set, [connect] returns at
    once: the state of the client and of the browser is unchanged. *)
Lemma connect_guarded (usr : string) (ctor_ok : bool) (w : World) :
  ws_is_open w || isConnecting (client w) = true -> connect usr ctor_ok w = w.
Proof. intros H. unfold connect. now rewrite H. Qed.

Lemma connect_idempotent (usr usr' : string) (ctor_ok ctor_ok' : bool) (w : World) :
  connect usr' ctor_ok' (connect usr true w) = connect usr true w.
Proof.
  destruct (ws_is_open w || isConnecting (client w)) eqn:Hg.
  - rewrite (connect_guarded usr true w Hg). now apply connect_guarded.
  - apply connect_guarded. unfold connect. rewrite Hg. cbn. apply orb_true_r.
Qed.

(** C10 (defect of [connect] together with [disconnect]).  The guard of
    [connect] tests the flag [isConnecting], not the socket.  After
    [disconnect()] the handlers of the old socket are still attached, and
    its close event clears the flag while the socket of a newer
    [connect()] is still connecting.  In that state a connection attempt
    is under way, yet [connect] constructs one more socket; when both
    open, the client has two open sockets. *)
Theorem connect_during_attempt_opens_second_socket :
  exists w,
    run handover new_world = Some w /\
    ws (client w) = Some 2%nat /\
    ready_state 2 w = Some CONNECTING /\
    isConnecting (client w) = false /\
    connect "u" true w <> w /\
    exists w',
      run after_handover w = Some w' /\
      ready_state 2 w' = Some OPEN /\
      ready_state 4 w' = Some OPEN /\
      size (live_sockets w') = 2%nat.
Proof.
  eexists. split; [vm_compute; reflexivity|].
  do 3 (split; [reflexivity|]).
  split.
  - intros H. apply (f_equal (fun w => ws (client w))) in H. vm_compute in H. discriminate.
  - eexists. split; [vm_compute; reflexivity|].
    repeat split; vm_compute; reflexivity.
Qed.

(** *** On an orderly run there is at most one live socket *)

Lemma single_socket_frame (w w' : World) :
  ws (client w') = ws (client w) ->
  sockets (browser w') = sockets (browser w) ->
  (next_id (browser w) <= next_id (browser w'))%nat ->
  (isConnecting (client w) = true -> isConnecting (client w') = true) ->
  single_socket w -> single_socket w'.
Proof.
  intros Hws Hsock Hid Hflag (H1 & H2 & H3).
  unfold single_socket, ready_state in *. rewrite Hws, Hsock.
  repeat split.
  - intros s r Hs. specialize (H1 s r Hs). lia.
  - exact H2.
  - intros s Hs Hc. apply Hflag. now apply (H3 s).
Qed.

(** The flag may be cleared when the current socket is not connecting. *)
Lemma single_socket_clear (w w' : World) :
  ws (client w') = ws (client w) ->
  sockets (browser w') = sockets (browser w) ->
  (next_id (browser w) <= next_id (browser w'))%nat ->
  (forall s, ws (client w) = Some s -> ready_state s w <> Some CONNECTING) ->
  single_socket w -> single_socket w'.
Proof.
  intros Hws Hsock Hid Hnot (H1 & H2 & H3).
  unfold single_socket, ready_state in *. rewrite Hws, Hsock.
  repeat split.
  - intros s r Hs. specialize (H1 s r Hs). lia.
  - exact H2.
  - intros s Hs Hc. exfalso. now apply (Hnot s).
Qed.

Lemma attemptReconnect_frame (w : World) :
  ws (client (attemptReconnect w)) = ws (client w) /\
  sockets (browser (attemptReconnect w)) = sockets (browser w) /\
  (next_id (browser w) <= next_id (browser (attemptReconnect w)))%nat /\
  isConnecting (client (attemptReconnect w)) = isConnecting (client w).
Proof.
  unfold attemptReconnect. destruct (_ <=? _)%nat; cbn; repeat split; lia.
Qed.

Lemma stopPing_frame (w : World) :
  ws (client (stopPing w)) = ws (client w) /\
  sockets (browser (stopPing w)) = sockets (browser w) /\
  next_id (browser (stopPing w)) = next_id (browser w) /\
  isConnecting (client (stopPing w)) = isConnecting (client w).
Proof. unfold stopPing. destruct (pingInterval (client w)); repeat split. Qed.

Lemma onclose_frame (w : World) :
  ws (client (onclose w)) = ws (client w) /\
  sockets (browser (onclose w)) = sockets (browser w) /\
  (next_id (browser w) <= next_id (browser (onclose w)))%nat.
Proof.
  unfold onclose.
  destruct (attemptReconnect_frame (stopPing (set_isConnecting false (log LogDisconnected w))))
    as (A1 & A2 & A3 & _).
  destruct (stopPing_frame (set_isConnecting false (log LogDisconnected w)))
    as (B1 & B2 & B3 & _).
  rewrite A1, A2, B1, B2. rewrite B3 in A3. repeat split. exact A3.
Qed.

(** A message changes what the handlers did and the console only. *)
Lemma dispatch_frame (m : WSMessage) (w : World) :
  client (dispatch m w) = client w /\
  sockets (browser (dispatch m w)) = sockets (browser w) /\
  timers (browser (dispatch m w)) = timers (browser w) /\
  intervals (browser (dispatch m w)) = intervals (browser w) /\
  next_id (browser (dispatch m w)) = next_id (browser w).
Proof.
  unfold dispatch. destruct (run_handlers _ m) as [es []]; repeat split.
Qed.

Lemma onmessage_frame (parsed : option WSMessage) (w : World) :
  client (onmessage parsed w) = client w /\
  sockets (browser (onmessage parsed w)) = sockets (browser w) /\
  timers (browser (onmessage parsed w)) = timers (browser w) /\
  intervals (browser (onmessage parsed w)) = intervals (browser w) /\
  next_id (browser (onmessage parsed w)) = next_id (browser w).
Proof.
  destruct parsed as [m|]; [apply dispatch_frame|repeat split].
Qed.

(** A socket that is not closed is the current socket. *)
Lemma single_socket_current (w : World) (s : nat) (r : ReadyState) :
  single_socket w -> ready_state s w = Some r -> r <> CLOSED ->
  ws (client w) = Some s.
Proof.
  intros (_ & H2 & _) Hs Hr.
  destruct (decide (ws (client w) = Some s)) as [|Hne]; [assumption|].
  exfalso. apply Hr. now apply (H2 s r).
Qed.

Lemma single_socket_mark (w : World) (s : nat) (r : ReadyState) :
  single_socket w -> ws (client w) = Some s ->
  r <> CONNECTING ->
  is_Some (ready_state s w) ->
  single_socket (mark s r w) /\
  ws (client (mark s r w)) = Some s /\
  ready_state s (mark s r w) = Some r.
Proof.
  intros (H1 & H2 & H3) Hws Hr [r0 Hs].
  unfold single_socket, mark, ready_state in *. cbn.
  split; [|split; [assumption|apply lookup_insert_eq]].
  repeat split.
  - intros s' r'. destruct (decide (s = s')) as [<-|Hne].
    + intros _. now apply (H1 s r0).
    + rewrite lookup_insert_ne by assumption. apply H1.
  - intros s' r'. destruct (decide (s = s')) as [<-|Hne].
    + intros _ Hc. congruence.
    + rewrite lookup_insert_ne by assumption. apply H2.
  - intros s' Hs'. assert (s' = s) as -> by congruence.
    rewrite lookup_insert_eq. congruence.
Qed.

Lemma connect_single_socket (usr : string) (ctor_ok : bool) (w : World) :
  ws_is_closing w = false ->
  single_socket w -> single_socket (connect usr ctor_ok w).
Proof.
  intros Hcalm Hinv. unfold connect.
  destruct (ws_is_open w || isConnecting (client w)) eqn:Hguard; [assumption|].
  apply orb_false_elim in Hguard as [Hopen Hflag].
  assert (Hidle : forall s, ws (client w) = Some s -> ready_state s w <> Some CONNECTING).
  { intros s Hs Hc. destruct Hinv as (_ & _ & H3).
    rewrite (H3 s Hs Hc) in Hflag. discriminate. }
  destruct ctor_ok.
  - destruct Hinv as (H1 & H2 & H3).
    cbn [fresh]. unfold single_socket, ready_state in *. cbn.
    set (n := next_id (browser w)).
    assert (Hfresh : sockets (browser w) !! n = None).
    { destruct (sockets (browser w) !! n) eqn:E; [|reflexivity].
      specialize (H1 n _ E). lia. }
    repeat split.
    + intros s r. destruct (decide (n = s)) as [<-|Hne]; [lia|].
      rewrite lookup_insert_ne by assumption. intros Hs. specialize (H1 s r Hs). lia.
    + intros s r. destruct (decide (n = s)) as [<-|Hne]; [congruence|].
      rewrite lookup_insert_ne by assumption. intros Hs _.
      destruct (decide (ws (client w) = Some s)) as [Hcur|Hold]; [|now apply (H2 s r)].
      destruct r; [exfalso; now apply (Hidle s)| | |reflexivity]; exfalso.
      * unfold ws_is_open, ready_state in Hopen. rewrite Hcur, Hs in Hopen.
        rewrite bool_decide_eq_true_2 in Hopen by reflexivity. discriminate.
      * unfold ws_is_closing, ready_state in Hcalm. rewrite Hcur, Hs in Hcalm.
        rewrite bool_decide_eq_true_2 in Hcalm by reflexivity. discriminate.
  - set (w1 := set_isConnecting false (log LogCreateFailed
                 (set_user usr (set_isConnecting true w)))).
    destruct (attemptReconnect_frame w1) as (A1 & A2 & A3 & A4).
    apply (single_socket_clear w); try assumption;
      rewrite ?A1, ?A2; reflexivity.
Qed.

Lemma step_single_socket (e : Event) (w w' : World) :
  e <> CallDisconnect ->
  (runs_connect e = true -> ws_is_closing w = false) ->
  single_socket w -> step e w = Some w' -> single_socket w'.
Proof.
  intros He Hcalm Hinv Hstep. destruct e; cbn [step] in Hstep.
  - injection Hstep as <-. apply connect_single_socket; auto.
  - contradiction.
  - injection Hstep as <-. now apply (single_socket_frame w).
  - injection Hstep as <-. now apply (single_socket_frame w).
  - destruct (ready_state s w) as [[]|] eqn:Hs; try discriminate.
    injection Hstep as <-.
    pose proof (single_socket_current w s _ Hinv Hs ltac:(discriminate)) as Hcur.
    destruct (single_socket_mark w s OPEN Hinv Hcur ltac:(discriminate) ltac:(eauto))
      as (Hinv1 & Hws1 & Hs1).
    apply (single_socket_clear (mark s OPEN w)); try assumption; try reflexivity.
    + cbn. lia.
    + intros s' Hs'. assert (s' = s) as -> by congruence. congruence.
  - destruct (ready_state s w) as [[]|] eqn:Hs; try discriminate.
    injection Hstep as <-.
    destruct (onmessage_frame parsed w) as (F1 & F2 & _ & _ & F5).
    apply (single_socket_frame w); rewrite ?F1, ?F2, ?F5; auto.
  - destruct (ready_state s w) as [[]|] eqn:Hs; try discriminate.
    injection Hstep as <-.
    pose proof (single_socket_current w s _ Hinv Hs ltac:(discriminate)) as Hcur.
    now destruct (single_socket_mark w s CLOSING Hinv Hcur ltac:(discriminate) ltac:(eauto)).
  - assert (Hlive : exists r, ready_state s w = Some r /\ r <> CLOSED /\
                              w' = onclose (mark s CLOSED w)).
    { destruct (ready_state s w) as [[]|] eqn:Hs; try discriminate;
        injection Hstep as <-; eexists; repeat split; discriminate. }
    destruct Hlive as (r & Hs & Hr & ->).
    pose proof (single_socket_current w s _ Hinv Hs Hr) as Hcur.
    destruct (single_socket_mark w s CLOSED Hinv Hcur ltac:(discriminate) ltac:(eauto))
      as (Hinv1 & Hws1 & Hs1).
    destruct (onclose_frame (mark s CLOSED w)) as (A1 & A2 & A3).
    apply (single_socket_clear (mark s CLOSED w)); try assumption.
    intros s' Hs'. assert (s' = s) as -> by congruence. congruence.
  - assert (Hlive : exists r, ready_state s w = Some r /\ r <> CLOSED /\
                              w' = onclose (onerror (mark s CLOSED w))).
    { destruct (ready_state s w) as [[]|] eqn:Hs; try discriminate;
        injection Hstep as <-; eexists; repeat split; discriminate. }
    destruct Hlive as (r & Hs & Hr & ->).
    pose proof (single_socket_current w s _ Hinv Hs Hr) as Hcur.
    destruct (single_socket_mark w s CLOSED Hinv Hcur ltac:(discriminate) ltac:(eauto))
      as (Hinv1 & Hws1 & Hs1).
    destruct (onclose_frame (onerror (mark s CLOSED w))) as (A1 & A2 & A3).
    apply (single_socket_clear (mark s CLOSED w)); try assumption.
    intros s' Hs'. assert (s' = s) as -> by congruence. congruence.
  - destruct (timers (browser w) !! t); [|discriminate].
    injection Hstep as <-. apply connect_single_socket.
    + now apply Hcalm.
    + now apply (single_socket_frame w).
  - destruct (decide _); [|discriminate]. injection Hstep as <-.
    unfold ping, send. destruct (ws (client w)); [|assumption].
    destruct (ws_is_open w); [|assumption]. now apply (single_socket_frame w).
Qed.

(** What [orderly] says of the first event of a run. *)
Lemma orderly_cons (e : Event) (es : list Event) (w : World) :
  orderly (e :: es) w = true ->
  e <> CallDisconnect /\
  (runs_connect e = true -> ws_is_closing w = false) /\
  (forall w', step e w = Some w' -> orderly es w' = true).
Proof.
  cbn [orderly]. intros H.
  apply andb_true_iff in H as [H Hrest]. apply andb_true_iff in H as [Hd Hc].
  split; [intros ->; discriminate|]. split.
  - intros Hr. rewrite Hr in Hc. cbn in Hc. now apply negb_true_iff in Hc.
  - intros w' Hstep. now rewrite Hstep in Hrest.
Qed.

Lemma run_single_socket (es : list Event) :
  forall w w',
    orderly es w = true ->
    single_socket w -> run es w = Some w' -> single_socket w'.
Proof.
  induction es as [|e es IH]; intros w w' Hes Hinv Hrun; cbn [run] in Hrun.
  - now injection Hrun as <-.
  - destruct (orderly_cons e es w Hes) as (He & Hcalm & Hrest).
    destruct (step e w) as [w1|] eqn:Hstep; [|discriminate].
    apply (IH w1 w'); [now apply Hrest| |assumption].
    now apply (step_single_socket e w).
Qed.

Lemma new_world_single_socket : single_socket new_world.
Proof.
  unfold single_socket, ready_state. cbn. repeat split.
  - intros s r. rewrite lookup_empty. discriminate.
  - intros s r. rewrite lookup_empty. discriminate.
  - intros s. discriminate.
Qed.

(** On an orderly run of a new client ([disconnect()] is never called,
    and [connect] never runs while the current socket is in its closing
    handshake), the client has at most one socket that is connecting or
    open, and that socket is its current one. *)
Lemma one_live_socket_without_disconnect (es : list Event) (w : World) (s s' : nat) :
  orderly es new_world = true ->
  run es new_world = Some w ->
  ready_state s w ≫= (fun r => Some (live r)) = Some true ->
  ready_state s' w ≫= (fun r => Some (live r)) = Some true ->
  s = s' /\ ws (client w) = Some s.
Proof.
  intros Hes Hrun Hs Hs'.
  pose proof (run_single_socket es _ _ Hes new_world_single_socket Hrun) as Hinv.
  assert (Hcur : forall x, ready_state x w ≫= (fun r => Some (live r)) = Some true ->
                           ws (client w) = Some x).
  { intros x Hx. destruct (ready_state x w) as [r|] eqn:Hr; [|discriminate].
    apply (single_socket_current w x r Hinv Hr). intros ->. discriminate. }
  pose proof (Hcur s Hs). pose proof (Hcur s' Hs'). split; congruence.
Qed.

(** The closing handshake matters: when the server starts to close the
    open socket and [connect()] is called in that window, a second
    socket is constructed, the close event of the first then clears the
    flag, and the reconnect timer constructs a third; two sockets end up
    open although [disconnect()] was never called. *)
Lemma closing_window_two_open_sockets :
  Forall (fun e => e <> CallDisconnect) closing_window /\
  exists w,
    run closing_window new_world = Some w /\
    ready_state 2 w = Some OPEN /\
    ready_state 4 w = Some OPEN /\
    size (live_sockets w) = 2%nat.
Proof.
  split; [repeat constructor; discriminate|].
  eexists. split; [vm_compute; reflexivity|].
  repeat split; vm_compute; reflexivity.
Qed.

End Connect.

(** ** Pages *)

Section PageFacts.
Import JsValue WS Pages.

Variables Stats Report ServerT DomainT : Type.

Local Abbreviation dashboard := (@Dashboard Stats Report ServerT DomainT).
Local Abbreviation serversPage := (@ServersPage Stats Report ServerT DomainT).
Local Abbreviation domainsPage := (@DomainsPage Stats Report ServerT DomainT).
Local Abbreviation assignmentsPage := (@AssignmentsPage Stats Report ServerT DomainT).

Lemma channel_name_inj (c c' : Channel) : channel_name c = channel_name c' -> c = c'.
Proof. destruct c, c'; intros H; try reflexivity; discriminate. Qed.

(** On a message that carries data, the handler of [useRealtimeUpdates]
    calls its callback with the action and the data when the message is
    on its channel, and does nothing otherwise. *)
Lemma realtime_handler_with_data (m : WSMessage) :
  has_data m = true ->
  exists act d, forall c f,
    realtime_handler c f m =
    (if on_channel m c then [CallOnUpdate f act d] else [], false).
Proof.
  intros H. destruct (has_data_read m H) as (ch & d & act & Hch & Hd & Hn & Hact).
  exists act, d. intros c f. unfold realtime_handler, on_channel. rewrite Hch, Hd. cbn.
  rewrite Hact. cbn. now destruct (is_string ch (channel_name c)).
Qed.

(** What the handlers of a page do with a message. *)
Lemma page_handlers_run {St : Type} (p : Page Stats Report ServerT DomainT St)
  (m : WSMessage) :
  (run_handlers (handlers_of p) m).1 =
  if has_data m
  then flat_map (fun '(c, f) => (realtime_handler c f m).1) (subscriptions p)
  else [].
Proof.
  unfold handlers_of. destruct (has_data m) eqn:Hdata.
  - rewrite run_handlers_with_data by exact Hdata. cbn [fst].
    induction (subscriptions p) as [|[c f] l IH]; [reflexivity|].
    cbn [map flat_map]. now rewrite IH.
  - induction (subscriptions p) as [|[c f] l IH]; [reflexivity|].
    cbn [map run_handlers run_handler body].
    pose proof (realtime_handler_without_data c f m Hdata) as Hnone.
    destruct (realtime_handler c f m) as [es threw]. cbn in Hnone. subst es.
    destruct threw; [reflexivity|].
    destruct (run_handlers _ m) as [es' threw']. exact IH.
Qed.

(** A page all of whose subscriptions pass the same loader: a change
    event of a channel of the page triggers that loader once, and any
    other message nothing. *)
Lemma receive_dashboard (b : Backend Stats Report ServerT DomainT) (m : WSMessage)
  (st : DashboardState Stats ServerT DomainT) :
  receive dashboard m b st =
  if reloads dashboard m then dashboard_loadData b st else st.
Proof.
  unfold receive, reloads. rewrite page_handlers_run.
  destruct (has_data m) eqn:Hdata; [|reflexivity].
  destruct (realtime_handler_with_data m Hdata) as (act & d & Hrun). cbn.
  rewrite !Hrun. cbn.
  destruct (on_channel m servers) eqn:E1; destruct (on_channel m domains) eqn:E2;
    destruct (on_channel m assignments) eqn:E3; try reflexivity; exfalso.
  all: try (pose proof (on_channel_one m _ _ E1 E2); discriminate).
  all: try (pose proof (on_channel_one m _ _ E1 E3); discriminate).
  all: try (pose proof (on_channel_one m _ _ E2 E3); discriminate).
Qed.

Lemma receive_servers_page (b : Backend Stats Report ServerT DomainT) (m : WSMessage)
  (st : ServersState ServerT) :
  receive serversPage m b st =
  if reloads serversPage m then loadServers b st else st.
Proof.
  unfold receive, reloads. rewrite page_handlers_run.
  destruct (has_data m) eqn:Hdata; [|reflexivity].
  destruct (realtime_handler_with_data m Hdata) as (act & d & Hrun). cbn.
  rewrite !Hrun. cbn. destruct (on_channel m servers); reflexivity.
Qed.

Lemma receive_domains_page (b : Backend Stats Report ServerT DomainT) (m : WSMessage)
  (st : DomainsState DomainT) :
  receive domainsPage m b st =
  if reloads domainsPage m then loadDomains b st else st.
Proof.
  unfold receive, reloads. rewrite page_handlers_run.
  destruct (has_data m) eqn:Hdata; [|reflexivity].
  destruct (realtime_handler_with_data m Hdata) as (act & d & Hrun). cbn.
  rewrite !Hrun. cbn.
  destruct (on_channel m domains) eqn:E2; destruct (on_channel m assignments) eqn:E3;
    try reflexivity; exfalso.
  pose proof (on_channel_one m _ _ E2 E3). discriminate.
Qed.

Lemma receive_assignments_page (b : Backend Stats Report ServerT DomainT) (m : WSMessage)
  (st : AssignmentsState Stats Report ServerT) :
  receive assignmentsPage m b st =
  if reloads assignmentsPage m then assignments_loadData b st else st.
Proof.
  unfold receive, reloads. rewrite page_handlers_run.
  destruct (has_data m) eqn:Hdata; [|reflexivity].
  destruct (realtime_handler_with_data m Hdata) as (act & d & Hrun). cbn.
  rewrite !Hrun. cbn.
  destruct (on_channel m servers) eqn:E1; destruct (on_channel m domains) eqn:E2;
    destruct (on_channel m assignments) eqn:E3; try reflexivity; exfalso.
  all: try (pose proof (on_channel_one m _ _ E1 E2); discriminate).
  all: try (pose proof (on_channel_one m _ _ E1 E3); discriminate).
  all: try (pose proof (on_channel_one m _ _ E2 E3); discriminate).
Qed.

(** Whether a message makes a page re-read depends on its channel and on
    whether it carries data, and on nothing else of it. *)
Lemma reloads_same {St : Type} (p : Page Stats Report ServerT DomainT St)
  (m1 m2 : WSMessage) :
  get_prop m1 "channel" = get_prop m2 "channel" ->
  has_data m1 = has_data m2 ->
  reloads p m1 = reloads p m2.
Proof.
  intros Hch Hdata. unfold reloads, on_channel. now rewrite Hch, Hdata.
Qed.

(** C8, amended.  On each of the four pages, two messages of the same
    channel that both carry data leave the page in the same state
    whatever their action and fields: the state after a message is the
    state before, or the state the loader of the page computes from the
    answers of the API and the paging and filter settings of the page. *)
Theorem pages_only_reload (b : Backend Stats Report ServerT DomainT) (m1 m2 : WSMessage) :
  get_prop m1 "channel" = get_prop m2 "channel" ->
  has_data m1 = true ->
  has_data m2 = true ->
  (forall st,
     receive dashboard m1 b st =
     receive dashboard m2 b st /\
     (receive dashboard m1 b st = st \/
      receive dashboard m1 b st = dashboard_loadData b st)) /\
  (forall st,
     receive serversPage m1 b st =
     receive serversPage m2 b st /\
     (receive serversPage m1 b st = st \/
      receive serversPage m1 b st = loadServers b st)) /\
  (forall st,
     receive domainsPage m1 b st =
     receive domainsPage m2 b st /\
     (receive domainsPage m1 b st = st \/
      receive domainsPage m1 b st = loadDomains b st)) /\
  (forall st,
     receive assignmentsPage m1 b st =
     receive assignmentsPage m2 b st /\
     (receive assignmentsPage m1 b st = st \/
      receive assignmentsPage m1 b st =
      assignments_loadData b st)).
Proof.
  intros Hch Hdata1 Hdata2.
  assert (Hdata : has_data m1 = has_data m2) by congruence.
  repeat split.
  all: rewrite ?receive_dashboard, ?receive_servers_page, ?receive_domains_page,
         ?receive_assignments_page, ?(reloads_same _ m1 m2 Hch Hdata); try reflexivity.
  all: destruct (reloads _ _); auto.
Qed.

End PageFacts.

Lemma pages_only_reload_witness :
  let b := Pages.mkBackend (Pages.Resolves 7%nat) (@Pages.Rejects nat)
             (fun _ _ _ _ => Pages.Resolves ([1%nat; 2%nat], 2%nat))
             (fun _ _ _ _ => @Pages.Rejects (list nat * nat)) in
  let st := Pages.mkServersState [] 0 1 20 true "" None in
  Pages.receive Pages.ServersPage
    (WS.envelope "servers" "created" [("id", JsValue.VNum 1)]) b st =
  Pages.receive Pages.ServersPage
    (WS.envelope "servers" "deleted" []) b st.
Proof.
  intros b st.
  apply (pages_only_reload nat nat nat nat b
           (WS.envelope "servers" "created" [("id", JsValue.VNum 1)])
           (WS.envelope "servers" "deleted" [])); reflexivity.
Defined.

(** The claim C8 read for every pair of events of one channel and for
    all the state of the session.  It fails twice.  An event of the
    channel without [data] makes the handler of [useRealtimeUpdates]
    throw before it calls the loader, so the page is not re-read, while
    an event with data re-reads it.  And the hook [useWebSocket] keeps
    the event itself in its state, so two events of one channel with
    different payloads leave different states. *)
Lemma events_of_one_channel_differ :
  let b := Pages.mkBackend (Pages.Resolves 7%nat) (@Pages.Rejects nat)
             (fun _ _ _ _ => Pages.Resolves ([1%nat; 2%nat], 2%nat))
             (fun _ _ _ _ => @Pages.Rejects (list nat * nat)) in
  let st := Pages.mkServersState [] 0 1 20 true "" None in
  let created := WS.envelope "servers" "created" [("id", JsValue.VNum 1)] in
  let deleted := WS.envelope "servers" "deleted" [] in
  let bare := JsValue.VObj [("channel", JsValue.VStr "servers")] in
  (JsValue.get_prop created "channel" = JsValue.get_prop bare "channel" /\
   Pages.receive Pages.ServersPage created b st <>
   Pages.receive Pages.ServersPage bare b st) /\
  (JsValue.get_prop created "channel" = JsValue.get_prop deleted "channel" /\
   WS.hook_receive 0 created WS.new_hook <> WS.hook_receive 0 deleted WS.new_hook).
Proof.
  cbv zeta. split; (split; [reflexivity|]); intros H.
  - apply (f_equal (fun st => Pages.s_total _ st)) in H. vm_compute in H. discriminate.
  - apply (f_equal WS.lastMessage) in H. vm_compute in H. discriminate.
Qed.

(** ** Bulk import *)

Section BulkImportFacts.
Import BulkImport.

Lemma split_not_nil (sep : N) (s : jsstring) : split sep s <> [].
Proof.
  destruct s as [|c rest]; cbn; [discriminate|].
  destruct (c =? sep)%N; [discriminate|]. destruct (split sep rest); discriminate.
Qed.

Lemma join_cons (sep : N) (piece : jsstring) (rest : list jsstring) :
  rest <> [] -> join sep (piece :: rest) = piece ++ sep :: join sep rest.
Proof. destruct rest; [contradiction|reflexivity]. Qed.

(** Joining the pieces of [split] gives the text back. *)
Lemma join_split (sep : N) (s : jsstring) : join sep (split sep s) = s.
Proof.
  induction s as [|c rest IH]; [reflexivity|]. cbn [split].
  destruct (c =? sep)%N eqn:Hc.
  - apply N.eqb_eq in Hc. subst c.
    rewrite join_cons by apply split_not_nil. now rewrite IH.
  - pose proof (split_not_nil sep rest) as Hne.
    destruct (split sep rest) as [|piece pieces]; [contradiction|].
    destruct pieces as [|p ps]; cbn in *; now rewrite <- IH.
Qed.

(** No piece of [split] holds the separator. *)
Lemma split_no_sep (sep : N) (s : jsstring) :
  Forall (fun l => sep ∉ l) (split sep s).
Proof.
  induction s as [|c rest IH]; cbn [split].
  - constructor; [apply not_elem_of_nil|constructor].
  - destruct (c =? sep)%N eqn:Hc.
    + constructor; [apply not_elem_of_nil|exact IH].
    + apply N.eqb_neq in Hc.
      destruct (split sep rest) as [|piece pieces].
      * constructor; [|constructor]. rewrite list_elem_of_singleton. congruence.
      * inversion IH; subst. constructor; [|assumption].
        rewrite elem_of_cons. intros [?|?]; [congruence|contradiction].
Qed.

Lemma split_app_sep (sep : N) (p x : jsstring) :
  sep ∉ p -> split sep (p ++ sep :: x) = p :: split sep x.
Proof.
  induction p as [|c p IH]; intros Hp; cbn [app split].
  - now rewrite N.eqb_refl.
  - rewrite not_elem_of_cons in Hp. destruct Hp as [Hc Hp].
    destruct (c =? sep)%N eqn:E; [apply N.eqb_eq in E; congruence|].
    now rewrite IH.
Qed.

Lemma split_without_sep (sep : N) (p : jsstring) : sep ∉ p -> split sep p = [p].
Proof.
  induction p as [|c p IH]; intros Hp; cbn [split]; [reflexivity|].
  rewrite not_elem_of_cons in Hp. destruct Hp as [Hc Hp].
  destruct (c =? sep)%N eqn:E; [apply N.eqb_eq in E; congruence|].
  now rewrite IH.
Qed.

(** [split] undoes [join] on pieces without the separator: the pieces of
    a text are determined by the text. *)
Lemma split_join (sep : N) (pieces : list jsstring) :
  pieces <> [] -> Forall (fun l => sep ∉ l) pieces ->
  split sep (join sep pieces) = pieces.
Proof.
  induction pieces as [|p rest IH]; intros Hne Hall; [contradiction|].
  inversion Hall as [|? ? Hp Hrest]; subst.
  destruct rest as [|q rest'].
  - cbn. now apply split_without_sep.
  - rewrite join_cons by discriminate. rewrite split_app_sep by assumption.
    now rewrite IH.
Qed.

Lemma is_lines_split (text : jsstring) : is_lines text (split LF text).
Proof.
  split; [apply split_not_nil|]. split; [apply split_no_sep|apply join_split].
Qed.

Lemma is_lines_unique (text : jsstring) (lines : list jsstring) :
  is_lines text lines -> lines = split LF text.
Proof. intros (Hne & Hall & <-). symmetry. now apply split_join. Qed.

(** *** Trimming *)

Lemma trim_start_prefix (s : jsstring) :
  exists pre,
    s = pre ++ trim_start s /\
    Forall (fun c => is_white_space c = true) pre /\
    (forall c, head (trim_start s) = Some c -> is_white_space c = false).
Proof.
  induction s as [|c rest (pre & Heq & Hpre & Hhead)].
  - exists []. repeat split; [constructor|discriminate].
  - cbn [trim_start]. destruct (is_white_space c) eqn:Hc.
    + exists (c :: pre). cbn. rewrite <- Heq. repeat split; [now constructor|assumption].
    + exists []. repeat split; [constructor|]. cbn. now intros ? [= <-].
Qed.

Lemma trim_start_skips (pre x : jsstring) :
  Forall (fun c => is_white_space c = true) pre ->
  trim_start (pre ++ x) = trim_start x.
Proof. induction 1 as [|c pre Hc _ IH]; [reflexivity|]. cbn. now rewrite Hc. Qed.

Lemma trim_start_fixed (t : jsstring) :
  (forall c, head t = Some c -> is_white_space c = false) -> trim_start t = t.
Proof. destruct t as [|c t]; [reflexivity|]. intros H. cbn. now rewrite (H c eq_refl). Qed.

Lemma last_rev (v : jsstring) : last (rev v) = head v.
Proof. destruct v as [|c v]; [reflexivity|]. cbn. apply last_snoc. Qed.

Lemma head_rev (v : jsstring) : head (rev v) = last v.
Proof. rewrite <- (rev_involutive v) at 2. symmetry. apply last_rev. Qed.

Lemma head_app_nonempty (a b : jsstring) : a <> [] -> head (a ++ b) = head a.
Proof. destruct a; [contradiction|reflexivity]. Qed.

Lemma Forall_rev_ws (l : jsstring) :
  Forall (fun c => is_white_space c = true) l ->
  Forall (fun c => is_white_space c = true) (rev l).
Proof.
  rewrite !Forall_forall. intros H c Hc. apply H.
  apply list_elem_of_In. apply list_elem_of_In in Hc. now apply in_rev.
Qed.

(** [trim] removes white space at both ends, and nothing else. *)
Lemma trim_is_trimmed (s : jsstring) : is_trimmed_of s (trim s).
Proof.
  destruct (trim_start_prefix s) as (pre & Hs & Hpre & Hhead).
  destruct (trim_start_prefix (rev (trim_start s))) as (erp & Hu & Herp & Hlast).
  unfold trim, trim_end. set (u := trim_start s) in *.
  set (v := trim_start (rev u)) in *.
  assert (Hu' : u = rev v ++ rev erp).
  { rewrite <- rev_app_distr, <- Hu. symmetry. apply rev_involutive. }
  exists pre, (rev erp). split; [now rewrite <- Hu'|].
  split; [assumption|]. split; [now apply Forall_rev_ws|]. split.
  - intros c Hc. apply Hhead. rewrite Hu'.
    rewrite head_app_nonempty; [assumption|]. intros E. rewrite E in Hc. discriminate.
  - intros c Hc. apply Hlast. now rewrite <- last_rev.
Qed.

Lemma trim_start_all_white (s : jsstring) :
  Forall (fun c => is_white_space c = true) s -> trim_start s = [].
Proof. intros H. rewrite <- (app_nil_r s). now rewrite trim_start_skips. Qed.

(** The trimmed form of a string is determined by the string. *)
Lemma is_trimmed_unique (s t : jsstring) : is_trimmed_of s t -> t = trim s.
Proof.
  intros (pre & post & -> & Hpre & Hpost & Hhead & Hlast).
  unfold trim, trim_end. rewrite trim_start_skips by assumption.
  destruct t as [|c t'].
  - cbn [app]. rewrite (trim_start_all_white post) by assumption. reflexivity.
  - rewrite (trim_start_fixed ((c :: t') ++ post)) by exact Hhead.
    rewrite rev_app_distr, trim_start_skips by now apply Forall_rev_ws.
    rewrite trim_start_fixed; [now rewrite rev_involutive|].
    intros x. rewrite head_rev. apply Hlast.
Qed.

Lemma trimmed_nonempty_entries (lines : list jsstring) :
  trimmed_nonempty lines (filter (fun x => nonempty x = true) (map trim lines)).
Proof.
  induction lines as [|l ls IH]; [constructor|]. cbn [map].
  destruct (trim l) as [|c t] eqn:Ht.
  - rewrite filter_cons_False by (cbn; discriminate).
    apply tn_blank; [|assumption]. rewrite <- Ht. apply trim_is_trimmed.
  - rewrite filter_cons_True by reflexivity.
    apply tn_entry; [|discriminate|assumption]. rewrite <- Ht. apply trim_is_trimmed.
Qed.

Lemma trimmed_nonempty_unique (lines es : list jsstring) :
  trimmed_nonempty lines es ->
  es = filter (fun x => nonempty x = true) (map trim lines).
Proof.
  induction 1 as [|l ls es Hl _ IH|l t ls es Hl Hne _ IH]; [reflexivity| |].
  - cbn [map]. rewrite <- (is_trimmed_unique _ _ Hl).
    now rewrite filter_cons_False by (cbn; discriminate).
  - cbn [map]. rewrite <- (is_trimmed_unique _ _ Hl).
    rewrite filter_cons_True by (destruct t; [contradiction|reflexivity]).
    now rewrite IH.
Qed.

(** The list both handlers build is the list of non-empty trimmed lines
    of the text, and the only one. *)
Lemma entries_are_trimmed_lines (text : jsstring) :
  (exists lines, is_lines text lines /\ trimmed_nonempty lines (entries LF text)) /\
  (forall lines es, is_lines text lines -> trimmed_nonempty lines es ->
                    es = entries LF text).
Proof.
  split.
  - exists (split LF text). split; [apply is_lines_split|apply trimmed_nonempty_entries].
  - intros lines es Hlines Hes. rewrite (is_lines_unique _ _ Hlines) in Hes.
    now apply trimmed_nonempty_unique.
Qed.

(** C5.  For every text typed into the bulk-import box of the servers
    page and of the domains page: the text has exactly one list of
    non-empty trimmed lines; when that list is empty the handler sets its
    form error and posts nothing; otherwise it posts exactly one request,
    and the list in that request is that list, in the order of the lines. *)
Theorem bulk_import_submits_trimmed_lines
  (serverApi_bulkCreate : ServerBulkCreate -> Reply ServerBulkCreateResponse)
  (domainApi_bulkCreate : DomainBulkCreate -> Reply BulkCreateResponse)
  (st : ImportState) (dst : CreateState) :
  (exists lines es,
     is_lines (bulkText st) lines /\ trimmed_nonempty lines es /\
     (forall lines' es', is_lines (bulkText st) lines' ->
                         trimmed_nonempty lines' es' -> es' = es) /\
     match es with
     | [] =>
         formError (handleBulkImport serverApi_bulkCreate st)
           = "Please enter at least one server" /\
         requests (handleBulkImport serverApi_bulkCreate st) = requests st
     | _ :: _ =>
         exists request,
           requests (handleBulkImport serverApi_bulkCreate st)
             = requests st ++ [request] /\
           sb_servers request = es
     end) /\
  (exists lines es,
     is_lines (bulkDomains dst) lines /\ trimmed_nonempty lines es /\
     (forall lines' es', is_lines (bulkDomains dst) lines' ->
                         trimmed_nonempty lines' es' -> es' = es) /\
     match es with
     | [] =>
         d_formError (handleBulkCreate domainApi_bulkCreate dst)
           = "Please enter at least one domain" /\
         d_requests (handleBulkCreate domainApi_bulkCreate dst) = d_requests dst
     | _ :: _ =>
         exists request,
           d_requests (handleBulkCreate domainApi_bulkCreate dst)
             = d_requests dst ++ [request] /\
           db_domains request = es
     end).
Proof.
  split.
  - destruct (entries_are_trimmed_lines (bulkText st)) as ((lines & Hl & He) & Huniq).
    exists lines, (entries LF (bulkText st)).
    split; [assumption|]. split; [assumption|]. split; [exact Huniq|].
    unfold handleBulkImport.
    destruct (entries LF (bulkText st)) as [|e es] eqn:Hes; cbn [length Nat.eqb].
    + split; reflexivity.
    + eexists. destruct (serverApi_bulkCreate _); cbn [requests]; split; reflexivity.
  - destruct (entries_are_trimmed_lines (bulkDomains dst)) as ((lines & Hl & He) & Huniq).
    exists lines, (entries LF (bulkDomains dst)).
    split; [assumption|]. split; [assumption|]. split; [exact Huniq|].
    unfold handleBulkCreate.
    destruct (entries LF (bulkDomains dst)) as [|e es] eqn:Hes; cbn [length Nat.eqb].
    + split; reflexivity.
    + eexists. destruct (domainApi_bulkCreate _); cbn [d_requests]; split; reflexivity.
Qed.

End BulkImportFacts.

(** ** The ledger under concurrent [assign] calls *)

Section LedgerFacts.
Import Ledger.

Lemma assign_free_domain (d server : nat) (st : Store) (row : ServerRow) :
  servers st !! server = Some row -> domains st !! d = Some None ->
  assign d server st =
  if (remainingSlots row =? 0)%nat then (st, Some ServerAtCapacity)
  else (mkStore (<[server := mkServerRow (S (current_domains row)) (max_domains row)]>
                   (servers st))
                (<[d := Some server]> (domains st)), None).
Proof. intros Hs Hd. unfold assign. now rewrite Hd, Hs. Qed.

(** Calls for distinct free domains, taken in any order: the first
    [remainingSlots] of them succeed, the others fail at capacity, and
    the counter grows by the number of successes. *)
Lemma run_schedule_counts (server : nat) (order : list nat) :
  forall (st : Store) (row : ServerRow),
    servers st !! server = Some row ->
    NoDup order ->
    Forall (fun d => domains st !! d = Some None) order ->
    exists row',
      servers (run_schedule server order st).1 !! server = Some row' /\
      max_domains row' = max_domains row /\
      current_domains row' =
        (current_domains row + Nat.min (remainingSlots row) (length order))%nat /\
      successes (run_schedule server order st).2
        = Nat.min (remainingSlots row) (length order) /\
      failures_with ServerAtCapacity (run_schedule server order st).2
        = (length order - remainingSlots row)%nat /\
      Forall (fun r => domains (run_schedule server order st).1 !! r.1 =
                       Some (match r.2 with None => Some server | Some _ => None end))
             (run_schedule server order st).2 /\
      (forall d, d ∉ order ->
                 domains (run_schedule server order st).1 !! d = domains st !! d).
Proof.
  induction order as [|d rest IH]; intros st row Hrow Hnd Hfree.
  - exists row. cbn. rewrite Nat.min_0_r, Nat.add_0_r. repeat split; auto.
  - apply NoDup_cons in Hnd as [Hd Hnd]. inversion Hfree as [|? ? Hdfree Hrest]; subst.
    cbn [run_schedule]. rewrite (assign_free_domain d server st row Hrow Hdfree).
    unfold remainingSlots in *.
    destruct (max_domains row - current_domains row =? 0)%nat eqn:Hfull.
    + apply Nat.eqb_eq in Hfull.
      destruct (IH st row Hrow Hnd Hrest) as (row' & H1 & H2 & H3 & H4 & H5 & H6 & H7).
      destruct (run_schedule server rest st) as [st2 rs] eqn:Hrun. cbn [fst snd] in *.
      exists row'. rewrite Hfull in *. cbn [Nat.min] in *.
      split; [assumption|]. split; [assumption|]. split; [assumption|].
      unfold successes, failures_with in *. cbn [length].
      rewrite filter_cons_False by (cbn; discriminate).
      rewrite filter_cons_True by reflexivity. cbn [length].
      split; [assumption|]. split; [lia|]. split.
      * constructor; [|assumption]. cbn. rewrite H7 by assumption. assumption.
      * intros d' Hd'. apply not_elem_of_cons in Hd' as [_ Hd']. now apply H7.
    + apply Nat.eqb_neq in Hfull.
      set (row1 := mkServerRow (S (current_domains row)) (max_domains row)).
      set (st1 := mkStore (<[server := row1]> (servers st)) (<[d := Some server]> (domains st))).
      assert (Hrow1 : servers st1 !! server = Some row1) by apply lookup_insert_eq.
      assert (Hrest1 : Forall (fun d' => domains st1 !! d' = Some None) rest).
      { apply Forall_forall. intros d' Hd'. cbn.
        rewrite lookup_insert_ne by (intros ->; contradiction).
        now apply (proj1 (Forall_forall _ _) Hrest). }
      destruct (IH st1 row1 Hrow1 Hnd Hrest1) as (row' & H1 & H2 & H3 & H4 & H5 & H6 & H7).
      destruct (run_schedule server rest st1) as [st2 rs] eqn:Hrun. cbn [fst snd] in *.
      exists row'. cbn [max_domains current_domains row1] in *.
      split; [assumption|]. split; [assumption|].
      unfold successes, failures_with in *. cbn [length].
      rewrite filter_cons_True by reflexivity.
      rewrite filter_cons_False by (cbn; discriminate). cbn [length].
      split; [lia|]. split; [lia|]. split; [lia|]. split.
      * constructor; [|assumption]. cbn. rewrite H7 by assumption.
        apply lookup_insert_eq.
      * intros d' Hd'. apply not_elem_of_cons in Hd' as [Hne Hd'].
        rewrite H7 by assumption. cbn. now apply lookup_insert_ne.
Qed.

(** Calls for distinct free domains, more of them than slots are left,
    run one after the other in any order: as many succeed as slots were
    left, the others fail at capacity, and the server ends full. *)
Lemma serial_assign_fills_server
  (st : Store) (server : nat) (row : ServerRow) (calls order : list nat) :
  servers st !! server = Some row ->
  (current_domains row <= max_domains row)%nat ->
  NoDup calls ->
  Forall (fun d => domains st !! d = Some None) calls ->
  (remainingSlots row < length calls)%nat ->
  order ≡ₚ calls ->
  exists row',
    servers (run_schedule server order st).1 !! server = Some row' /\
    current_domains row' = max_domains row' /\
    max_domains row' = max_domains row /\
    successes (run_schedule server order st).2 = remainingSlots row /\
    failures_with ServerAtCapacity (run_schedule server order st).2
      = (length calls - remainingSlots row)%nat.
Proof.
  intros Hrow Hinv Hnd Hfree Hmore Hperm.
  assert (Hnd' : NoDup order) by now rewrite Hperm.
  assert (Hfree' : Forall (fun d => domains st !! d = Some None) order) by now rewrite Hperm.
  assert (Hlen : length order = length calls) by now rewrite Hperm.
  destruct (run_schedule_counts server order st row Hrow Hnd' Hfree')
    as (row' & H1 & H2 & H3 & H4 & H5 & _).
  exists row'. unfold remainingSlots in *. rewrite Hlen in *.
  split; [assumption|]. split; [lia|]. split; [assumption|]. split; lia.
Qed.

(** *** Calls in flight *)

Lemma length_filter_ne (d : nat) (l : list nat) :
  NoDup l -> d ∈ l -> S (length (filter (fun x => x <> d) l)) = length l.
Proof.
  induction l as [|x l IH]; intros Hnd Hin; [now apply elem_of_nil in Hin|].
  apply NoDup_cons in Hnd as [Hx Hnd]. apply elem_of_cons in Hin as [->|Hin].
  - rewrite filter_cons_False by auto. cbn. f_equal.
    clear IH Hnd. induction l as [|y l IH]; [reflexivity|].
    apply not_elem_of_cons in Hx as [Hne Hx].
    rewrite filter_cons_True by auto. cbn. now rewrite IH.
  - rewrite filter_cons_True by (intros ->; contradiction). cbn. now rewrite IH.
Qed.

Lemma not_elem_of_filter_ne (d : nat) (l : list nat) :
  d ∉ filter (fun x => x <> d) l.
Proof. rewrite list_elem_of_filter. tauto. Qed.

Lemma successes_snoc (rs : list (nat * option AssignError)) (d : nat)
  (r : option AssignError) :
  successes (rs ++ [(d, r)]) =
  (successes rs + match r with None => 1 | Some _ => 0 end)%nat.
Proof.
  unfold successes. rewrite filter_app, length_app. f_equal.
  destruct r; [rewrite filter_cons_False by (cbn; discriminate)
              |rewrite filter_cons_True by reflexivity]; reflexivity.
Qed.

Lemma issue_in_flight (st : Store) (server : nat) (row0 : ServerRow) (calls : list nat) :
  servers st !! server = Some row0 ->
  (current_domains row0 <= max_domains row0)%nat ->
  NoDup calls ->
  Forall (fun d => domains st !! d = Some None) calls ->
  in_flight server row0 calls (issue st calls).
Proof.
  intros Hrow Hle Hnd Hfree. constructor; cbn; try assumption.
  - exists row0. repeat split; try assumption; [unfold successes; cbn; lia|now left|constructor].
  - rewrite map_size_empty. lia.
Qed.

(** The invariant survives every move the row lock allows. *)
Lemma move_in_flight (server : nat) (row0 : ServerRow) (calls : list nat)
  (m : Move) (sys sys' : System) :
  in_flight server row0 calls sys ->
  move true server m sys = Some sys' ->
  in_flight server row0 calls sys'.
Proof.
  intros [(row & Hrow & Hmax & Hle & Hcur & Hhold & Hres) Hnd Hfree Hcount] Hmove.
  destruct m as [d|d]; cbn [move] in Hmove.
  - (* Begin *)
    unfold begin in Hmove. destruct (decide (d ∈ waiting sys)) as [Hin|]; [|discriminate].
    cbn [andb] in Hmove.
    destruct (bool_decide (size (holding sys) = 0%nat)) eqn:Hsize; [|discriminate].
    apply bool_decide_eq_true in Hsize. apply map_size_empty_inv in Hsize.
    cbn [negb] in Hmove. injection Hmove as <-.
    rewrite (proj1 (Forall_forall _ _) Hfree d Hin), Hrow.
    pose proof (length_filter_ne d _ Hnd Hin) as Hlen.
    assert (Hnd' : NoDup (filter (fun x => x <> d) (waiting sys))) by now apply NoDup_filter.
    assert (Hfree' : Forall (fun d' => domains (store sys) !! d' = Some None)
                       (filter (fun x => x <> d) (waiting sys))).
    { apply Forall_forall. intros x Hx. apply list_elem_of_filter in Hx as [_ Hx].
      now apply (proj1 (Forall_forall _ _) Hfree). }
    destruct (remainingSlots row =? 0)%nat eqn:Hfull.
    + apply Nat.eqb_eq in Hfull. unfold remainingSlots in Hfull.
      constructor; cbn; try assumption.
      * exists row. rewrite successes_snoc. cbn.
        repeat split; try assumption; [lia|now left|].
        apply Forall_app. split; [assumption|].
        constructor; [|constructor]. right. cbn. split; [reflexivity|lia].
      * rewrite length_app. cbn. lia.
    + apply Nat.eqb_neq in Hfull.
      constructor; cbn; try assumption.
      * exists row. repeat split; try assumption.
        right. exists d. rewrite Hsize. split; [reflexivity|].
        split; [apply not_elem_of_filter_ne|lia].
      * rewrite Hsize in *. rewrite insert_empty, map_size_singleton.
        rewrite map_size_empty in Hcount. lia.
  - (* Commit *)
    unfold commit in Hmove. destruct (holding sys !! d) as [seen|] eqn:Hseen; [|discriminate].
    injection Hmove as <-.
    destruct Hhold as [Hempty|(d' & Hd' & Hout & Hroom)].
    { rewrite Hempty, lookup_empty in Hseen. discriminate. }
    rewrite Hd' in Hseen. apply lookup_singleton_Some in Hseen as [-> <-].
    unfold remainingSlots in Hroom.
    assert (Hnone : Forall (fun r : nat * option AssignError => r.2 = None) (results sys)).
    { eapply Forall_impl; [exact Hres|]. intros r [?|[_ ?]]; [assumption|lia]. }
    constructor; cbn.
    + exists (mkServerRow (S (current_domains row)) (max_domains row)). cbn.
      rewrite lookup_insert_eq, successes_snoc. cbn.
      repeat split; try assumption; try lia.
      * left. rewrite Hd'. apply delete_singleton_eq.
      * apply Forall_app. split.
        -- eapply Forall_impl; [exact Hnone|]. intros r ?. now left.
        -- constructor; [now left|constructor].
    + assumption.
    + apply Forall_forall. intros x Hx.
      rewrite lookup_insert_ne by (intros ->; contradiction).
      now apply (proj1 (Forall_forall _ _) Hfree).
    + rewrite Hd' in *. rewrite delete_singleton_eq, map_size_empty, length_app.
      rewrite map_size_singleton in Hcount. cbn. lia.
Qed.

Lemma run_moves_in_flight (server : nat) (row0 : ServerRow) (calls : list nat)
  (ms : list Move) :
  forall sys sys',
    in_flight server row0 calls sys ->
    run_moves true server ms sys = Some sys' ->
    in_flight server row0 calls sys'.
Proof.
  induction ms as [|m ms IH]; intros sys sys' Hinv Hrun; cbn [run_moves] in Hrun.
  - now injection Hrun as <-.
  - destruct (move true server m sys) as [sys1|] eqn:Hmove; [|discriminate].
    apply (IH sys1); [|assumption]. now apply (move_in_flight _ _ _ m sys).
Qed.

Lemma failures_all (rs : list (nat * option AssignError)) (e : AssignError) :
  Forall (fun r => r.2 = None \/ r.2 = Some e) rs ->
  (successes rs + failures_with e rs)%nat = length rs.
Proof.
  unfold successes, failures_with.
  induction 1 as [|r rs [Hr|Hr] _ IH]; [reflexivity| |].
  - rewrite filter_cons_True by assumption.
    rewrite (filter_cons_False (fun r => r.2 = Some e)) by congruence. cbn. lia.
  - rewrite filter_cons_False by congruence.
    rewrite (filter_cons_True (fun r => r.2 = Some e)) by assumption. cbn. lia.
Qed.

Lemma successes_all (rs : list (nat * option AssignError)) :
  Forall (fun r => r.2 = None) rs -> successes rs = length rs.
Proof.
  unfold successes. induction 1 as [|r rs Hr _ IH]; [reflexivity|].
  rewrite filter_cons_True by assumption. cbn. now rewrite IH.
Qed.

(** C9.  [N] calls of [assign] for distinct free domains are issued at
    once against a server with [R < N] slots left, each running its
    read-check-write under the row lock.  However their moves
    interleave, once every call has ended exactly [R] calls have
    succeeded, exactly [N - R] have failed with [ServerAtCapacity], and
    the counter of the server equals [max_domains]. *)
Theorem concurrent_assign_fills_server
  (st : Store) (server : nat) (row : ServerRow) (calls : list nat)
  (moves : list Move) (sys : System) :
  servers st !! server = Some row ->
  (current_domains row <= max_domains row)%nat ->
  NoDup calls ->
  Forall (fun d => domains st !! d = Some None) calls ->
  (remainingSlots row < length calls)%nat ->
  run_moves true server moves (issue st calls) = Some sys ->
  settled sys ->
  length (results sys) = length calls /\
  successes (results sys) = remainingSlots row /\
  failures_with ServerAtCapacity (results sys) = (length calls - remainingSlots row)%nat /\
  exists row',
    servers (store sys) !! server = Some row' /\
    max_domains row' = max_domains row /\
    current_domains row' = max_domains row'.
Proof.
  intros Hrow Hle Hnd Hfree Hmore Hrun [Hwait Hhold].
  pose proof (run_moves_in_flight server row calls moves _ _
                (issue_in_flight st server row calls Hrow Hle Hnd Hfree) Hrun)
    as [(row' & Hrow' & Hmax & Hle' & Hcur & _ & Hres) _ _ Hcount].
  rewrite Hwait, Hhold, map_size_empty in Hcount. cbn in Hcount.
  unfold remainingSlots in *.
  assert (Hfull : current_domains row' = max_domains row').
  { destruct (decide (current_domains row' = max_domains row')) as [|Hne]; [assumption|].
    exfalso.
    assert (Hall : Forall (fun r : nat * option AssignError => r.2 = None) (results sys)).
    { eapply Forall_impl; [exact Hres|]. intros r [?|[_ ?]]; [assumption|contradiction]. }
    apply successes_all in Hall. lia. }
  assert (Hsum : (successes (results sys) + failures_with ServerAtCapacity (results sys))%nat
                 = length (results sys)).
  { apply failures_all. eapply Forall_impl; [exact Hres|]. intros r [?|[? _]]; auto. }
  split; [assumption|]. split; [lia|]. split; [lia|].
  exists row'. repeat split; assumption.
Qed.

Lemma filter_ne_absent (d : nat) (l : list nat) :
  d ∉ l -> filter (fun x => x <> d) l = l.
Proof.
  induction l as [|x l IH]; intros Hd; [reflexivity|].
  apply not_elem_of_cons in Hd as [Hne Hd].
  rewrite filter_cons_True by auto. now rewrite IH.
Qed.

Lemma begin_first (server d : nat) (rest : list nat) (st : Store)
  (rs : list (nat * option AssignError)) :
  d ∉ rest ->
  begin true server d (mkSystem st ∅ (d :: rest) rs) =
  Some
    match domains st !! d, servers st !! server with
    | Some (Some _), Some _ => mkSystem st ∅ rest (rs ++ [(d, Some DomainAlreadyAssigned)])
    | Some None, Some row =>
        if (remainingSlots row =? 0)%nat
        then mkSystem st ∅ rest (rs ++ [(d, Some ServerAtCapacity)])
        else mkSystem st (<[d := row]> ∅) rest rs
    | _, _ => mkSystem st ∅ rest (rs ++ [(d, Some NotFound)])
    end.
Proof.
  intros Hd. unfold begin, finish. cbn [store holding waiting results].
  rewrite decide_True by (apply elem_of_cons; now left).
  rewrite map_size_empty, bool_decide_eq_true_2 by reflexivity. cbn [andb negb].
  rewrite filter_cons_False by auto. rewrite filter_ne_absent by assumption.
  reflexivity.
Qed.

Lemma commit_held (server d : nat) (row : ServerRow) (rest : list nat) (st : Store)
  (rs : list (nat * option AssignError)) :
  commit server d (mkSystem st (<[d := row]> ∅) rest rs) =
  Some (mkSystem
          (mkStore (<[server := mkServerRow (S (current_domains row)) (max_domains row)]>
                      (servers st))
                   (<[d := Some server]> (domains st)))
          ∅ rest (rs ++ [(d, None)])).
Proof.
  unfold commit. cbn [store holding waiting results].
  now rewrite lookup_insert_eq, delete_insert_eq, delete_empty.
Qed.

(** Running the calls one after the other is one of the interleavings
    the lock allows; it ends every call and does what [assign] does. *)
Lemma serial_moves_run (server : nat) (calls : list nat) :
  forall (st : Store) (rs : list (nat * option AssignError)),
    NoDup calls ->
    run_moves true server (serial_moves server calls st) (mkSystem st ∅ calls rs) =
    Some (mkSystem (run_schedule server calls st).1 ∅ []
            (rs ++ (run_schedule server calls st).2)).
Proof.
  induction calls as [|d rest IH]; intros st rs Hnd.
  - cbn. now rewrite app_nil_r.
  - apply NoDup_cons in Hnd as [Hd Hnd].
    pose proof (begin_first server d rest st rs Hd) as Hbegin.
    cbn [serial_moves run_schedule]. unfold assign in *.
    destruct (domains st !! d) as [[srv|]|] eqn:Hdom;
      destruct (servers st !! server) as [row|] eqn:Hsrv.
    all: try (destruct (remainingSlots row =? 0)%nat eqn:Hfull).
    all: cbn [run_moves move]; rewrite Hbegin.
    all: try (rewrite IH by assumption;
              destruct (run_schedule server rest st) as [st2 rs2]; cbn [fst snd];
              now rewrite <- app_assoc).
    cbn [run_moves move]. rewrite commit_held, IH by assumption.
    destruct (run_schedule server rest _) as [st2 rs2]. cbn [fst snd].
    now rewrite <- app_assoc.
Qed.

(** Every batch of calls has an interleaving in which all calls end. *)
Lemma calls_can_settle (server : nat) (calls : list nat) (st : Store) :
  NoDup calls ->
  exists moves sys,
    run_moves true server moves (issue st calls) = Some sys /\ settled sys.
Proof.
  intros Hnd. eexists _, _. split; [now apply serial_moves_run|]. split; reflexivity.
Qed.

(** Without the row lock the same calls can overrun the server: two
    calls read the last free slot before either writes, both succeed,
    and the counter records one of them. *)
Lemma unlocked_assign_loses_an_update :
  let st := mkStore {[ 1%nat := mkServerRow 4 5 ]} {[ 10%nat := None; 11%nat := None ]} in
  exists sys,
    run_moves false 1 [Begin 10; Begin 11; Commit 10; Commit 11]%nat (issue st [10; 11]%nat)
      = Some sys /\
    settled sys /\
    successes (results sys) = 2%nat /\
    servers (store sys) !! 1%nat = Some (mkServerRow 5 5) /\
    domains (store sys) !! 10%nat = Some (Some 1%nat) /\
    domains (store sys) !! 11%nat = Some (Some 1%nat).
Proof.
  intros st. eexists. split; [vm_compute; reflexivity|].
  repeat split; vm_compute; reflexivity.
Qed.

Lemma concurrent_assign_fills_server_witness :
  let st := mkStore {[ 1%nat := mkServerRow 3 5 ]}
              {[ 10%nat := None; 11%nat := None; 12%nat := None ]} in
  match run_moves true 1 [Begin 12; Commit 12; Begin 10; Commit 10; Begin 11]%nat
          (issue st [10; 11; 12]%nat) with
  | Some sys =>
      successes (results sys) = 2%nat /\
      failures_with ServerAtCapacity (results sys) = 1%nat
  | None => False
  end.
Proof.
  intros st.
  destruct (run_moves true 1 [Begin 12; Commit 12; Begin 10; Commit 10; Begin 11]%nat
              (issue st [10; 11; 12]%nat)) as [sys|] eqn:Hrun;
    [|vm_compute in Hrun; discriminate].
  destruct (concurrent_assign_fills_server st 1 (mkServerRow 3 5) [10; 11; 12]%nat
              [Begin 12; Commit 12; Begin 10; Commit 10; Begin 11]%nat sys)
    as (_ & H2 & H3 & _).
  - reflexivity.
  - cbn. lia.
  - distinct_elements.
  - repeat constructor.
  - cbn. lia.
  - exact Hrun.
  - vm_compute in Hrun. injection Hrun as <-. split; reflexivity.
  - exact (conj H2 H3).
Defined.

End LedgerFacts.

(** ** Pagination *)

Section PagingFacts.
Import JsNum JsMath Paging.

Lemma ceiling_quotient_le (a b k : Z) :
  (0 < b)%Z ->
  (Qceiling (Qred (inject_Z a / inject_Z b)) <= k)%Z <-> (a <= k * b)%Z.
Proof.
  intros Hb.
  assert (Hb' : (0 < inject_Z b)%Q)
    by (change (inject_Z 0 < inject_Z b)%Q; rewrite <- Zlt_Qlt; exact Hb).
  assert (Hb0 : ~ (inject_Z b == 0)%Q) by (intros E; rewrite E in Hb'; discriminate).
  rewrite (Qceiling_comp _ _ (Qred_correct _)).
  split.
  - intros H. rewrite Zle_Qle in H.
    assert (H1 : (inject_Z a / inject_Z b <= inject_Z k)%Q).
    { eapply Qle_trans; [apply Qle_ceiling|exact H]. }
    rewrite Zle_Qle, inject_Z_mult.
    apply (Qmult_le_r _ _ _ Hb') in H1.
    rewrite (Qmult_comm (_ / _)), Qmult_div_r in H1; assumption.
  - intros H. rewrite Zle_Qle, inject_Z_mult in H.
    apply Qle_shift_div_r in H; [|exact Hb'].
    apply Qceiling_resp_le in H. now rewrite Qceiling_Z in H.
Qed.

Lemma le_of_Z (a b : Z) : le (of_Z a) (of_Z b) = (a <=? b)%Z.
Proof.
  unfold le, of_Z. destruct (a <=? b)%Z eqn:E.
  - apply Qle_bool_iff. rewrite <- Zle_Qle. now apply Z.leb_le.
  - destruct (Qle_bool _ _) eqn:Q; [|reflexivity].
    apply Qle_bool_iff in Q. rewrite <- Zle_Qle in Q. apply Z.leb_gt in E. lia.
Qed.

(** With a positive page size the number of pages is an integer [n], and
    [n <= k] exactly when [k] pages hold all the results. *)
Lemma totalPages_spec (props : PaginationProps) :
  (0 < pageSize props)%Z ->
  exists n,
    totalPages props = of_Z n /\
    forall k, (n <= k)%Z <-> (total props <= k * pageSize props)%Z.
Proof.
  intros Hb. exists (Qceiling (Qred (inject_Z (total props) / inject_Z (pageSize props)))).
  split; [|intros k; now apply ceiling_quotient_le].
  unfold totalPages, of_Z, div, is_zero.
  destruct (Qeq_bool (inject_Z (pageSize props)) 0) eqn:E; [|reflexivity].
  apply Qeq_bool_iff in E. unfold Qeq in E. cbn in E. lia.
Qed.

Lemma Pagination_unfold (props : PaginationProps) (n : Z) :
  totalPages props = of_Z n ->
  Pagination props =
  if (n <=? 1)%Z then None
  else Some (mkPaginationView
               ((page props - 1) * pageSize props + 1)
               (Z.min (page props * pageSize props) (total props))
               (total props)
               (page props <=? 1)%Z
               (n <=? page props)%Z).
Proof.
  intros Hn. unfold Pagination, ge. rewrite Hn, !le_of_Z. reflexivity.
Qed.

Lemma totalPages_other_page (props : PaginationProps) (p : Z) :
  totalPages (mkPaginationProps p (pageSize props) (total props)) = totalPages props.
Proof. reflexivity. Qed.

(** X1.  With a positive page size the pagination bar is hidden exactly
    when one page holds all the results. *)
Theorem pagination_hidden_iff (props : PaginationProps) :
  (0 < pageSize props)%Z ->
  Pagination props = None <-> (total props <= pageSize props)%Z.
Proof.
  intros Hb. destruct (totalPages_spec props Hb) as (n & Hn & Hk).
  rewrite (Pagination_unfold props n Hn).
  specialize (Hk 1%Z). rewrite Z.mul_1_l in Hk.
  destruct (n <=? 1)%Z eqn:E.
  - apply Z.leb_le in E. split; [intros _; now apply Hk|reflexivity].
  - apply Z.leb_gt in E. split; [discriminate|]. intros H. apply Hk in H. lia.
Qed.

Lemma pagination_hidden_iff_witness :
  Pagination (mkPaginationProps 1 20 20) = None /\
  Pagination (mkPaginationProps 1 20 21) <> None.
Proof.
  split.
  - apply (pagination_hidden_iff (mkPaginationProps 1 20 20)); cbn; lia.
  - intros H. apply (pagination_hidden_iff (mkPaginationProps 1 20 21)) in H; cbn in *; lia.
Defined.

(** X2.  With safe integers (the total and [page * pageSize] are at most
    [Number.MAX_SAFE_INTEGER], so that the sums and products of the
    component are exact), on a page in range of a list that needs more
    than one page, the bar shows a range [from..to] inside [1..total] of
    at most [pageSize] results; Previous is disabled exactly on page 1
    and Next exactly when the range ends at [total]; and when Next is
    enabled the range of the next page starts right after this one. *)
Theorem pagination_ranges_tile (props : PaginationProps) :
  safe_integers props ->
  in_range props ->
  (pageSize props < total props)%Z ->
  exists view,
    Pagination props = Some view /\
    (1 <= showing_from view <= showing_to view)%Z /\
    (showing_to view <= total props)%Z /\
    (showing_to view - showing_from view < pageSize props)%Z /\
    showing_of view = total props /\
    (previous_disabled view = true <-> page props = 1%Z) /\
    (next_disabled view = true <-> showing_to view = total props) /\
    (next_disabled view = false ->
     exists view',
       Pagination (click Next props) = Some view' /\
       showing_from view' = (showing_to view + 1)%Z).
Proof.
  intros _ (Hb & Hp & Hr) Hmany.
  destruct (totalPages_spec props Hb) as (n & Hn & Hk).
  pose proof (Hk 1%Z) as Hone. pose proof (Hk (page props)) as Hpage.
  rewrite (Pagination_unfold props n Hn).
  destruct (n <=? 1)%Z eqn:E; [apply Z.leb_le in E; lia|].
  eexists. split; [reflexivity|].
  cbn [showing_from showing_to showing_of previous_disabled next_disabled].
  split; [nia|]. split; [lia|]. split; [nia|]. split; [reflexivity|].
  split; [rewrite Z.leb_le; lia|].
  split.
  - split; intros H; [apply Z.leb_le, Hpage in H|apply Z.leb_le, Hpage]; lia.
  - intros Hnext. unfold click. rewrite (Pagination_unfold props n Hn), E.
    cbn [next_disabled]. rewrite Hnext.
    rewrite (Pagination_unfold _ n) by (rewrite totalPages_other_page; exact Hn).
    rewrite E. eexists. split; [reflexivity|]. cbn [showing_from page pageSize total].
    apply Z.leb_gt in Hnext.
    assert (page props * pageSize props < total props)%Z by lia. lia.
Qed.

Lemma pagination_ranges_tile_witness :
  exists view,
    Pagination (mkPaginationProps 2 20 45) = Some view /\
    showing_from view = 21%Z /\ showing_to view = 40%Z /\
    next_disabled view = false.
Proof.
  destruct (pagination_ranges_tile (mkPaginationProps 2 20 45))
    as (view & Hview & _);
    [unfold safe_integers, MAX_SAFE_INTEGER; cbn; lia|unfold in_range; cbn; lia|cbn; lia|].
  exists view. split; [exact Hview|].
  vm_compute in Hview. injection Hview as <-. repeat split.
Defined.

(** X3.  Clicking the buttons never leaves the range: from a page that
    shows at least one result, every sequence of clicks ends on a page
    that shows at least one result, with the page size and the total
    unchanged. *)
Theorem pagination_clicks_stay_in_range (bs : list Button) (props : PaginationProps) :
  in_range props ->
  in_range (foldl (fun p b => click b p) props bs) /\
  pageSize (foldl (fun p b => click b p) props bs) = pageSize props /\
  total (foldl (fun p b => click b p) props bs) = total props.
Proof.
  revert props. induction bs as [|b bs IH]; intros props Hin;
    [split; [assumption|split; reflexivity]|].
  cbn [foldl].
  assert (Hstep : in_range (click b props) /\
                  pageSize (click b props) = pageSize props /\
                  total (click b props) = total props).
  { destruct Hin as (Hb & Hp & Hr).
    destruct (totalPages_spec props Hb) as (n & Hn & Hk).
    unfold click. rewrite (Pagination_unfold props n Hn).
    assert (Hsame : in_range props /\ pageSize props = pageSize props /\
                    total props = total props)
      by (split; [repeat split; assumption|split; reflexivity]).
    destruct (n <=? 1)%Z; [exact Hsame|].
    cbn [previous_disabled next_disabled].
    destruct b.
    - destruct (page props <=? 1)%Z eqn:E; [exact Hsame|].
      apply Z.leb_gt in E. unfold in_range. cbn. repeat split; try lia; nia.
    - destruct (n <=? page props)%Z eqn:E; [exact Hsame|].
      apply Z.leb_gt in E. unfold in_range. cbn. repeat split; try lia.
      pose proof (Hk (page props)). lia. }
  destruct Hstep as (Hin' & Hps & Htot).
  destruct (IH (click b props) Hin') as (H1 & H2 & H3).
  repeat split; [apply H1|apply H1|apply H1|congruence|congruence].
Qed.

Lemma pagination_clicks_stay_in_range_witness :
  in_range (foldl (fun p b => click b p) (mkPaginationProps 1 20 45)
              [Next; Next; Next; Previous; Next; Next]).
Proof.
  apply (pagination_clicks_stay_in_range [Next; Next; Next; Previous; Next; Next]
           (mkPaginationProps 1 20 45)).
  unfold in_range. cbn. lia.
Defined.

End PagingFacts.

(** ** Selections *)

Section SelectionFacts.
Import BulkImport Selection.

Lemma elem_of_set_add_nat (x y : nat) (s : list nat) :
  y ∈ Selection.set_add x s <-> y = x \/ y ∈ s.
Proof.
  unfold Selection.set_add. destruct (decide (x ∈ s)).
  - split; [auto|]. intros [->|]; auto.
  - rewrite elem_of_app, list_elem_of_singleton. tauto.
Qed.

Lemma NoDup_set_add_nat (x : nat) (s : list nat) :
  NoDup s -> NoDup (Selection.set_add x s).
Proof.
  intros Hs. unfold Selection.set_add. destruct (decide (x ∈ s)); [assumption|].
  apply NoDup_app. repeat split; [assumption| |apply NoDup_singleton].
  intros y Hy Hy'. apply list_elem_of_singleton in Hy'. congruence.
Qed.

Lemma elem_of_set_delete_nat (x y : nat) (s : list nat) :
  y ∈ Selection.set_delete x s <-> y ∈ s /\ y <> x.
Proof. unfold Selection.set_delete. rewrite list_elem_of_filter. tauto. Qed.

Lemma set_of_array_spec (l : list nat) :
  NoDup (set_of_array l) /\ forall x, x ∈ set_of_array l <-> x ∈ l.
Proof.
  unfold set_of_array.
  assert (H : forall acc, NoDup acc ->
            NoDup (foldl (fun a x => Selection.set_add x a) acc l) /\
            forall x, x ∈ foldl (fun a x => Selection.set_add x a) acc l <->
                      x ∈ acc \/ x ∈ l).
  { induction l as [|y l IH]; intros acc Hacc; cbn [foldl].
    - split; [assumption|]. intros x. rewrite elem_of_nil. tauto.
    - destruct (IH (Selection.set_add y acc) (NoDup_set_add_nat y acc Hacc)) as [H1 H2].
      split; [assumption|]. intros x. rewrite H2, elem_of_set_add_nat, elem_of_cons. tauto. }
  destruct (H [] (NoDup_nil_2)) as [H1 H2]. split; [assumption|].
  intros x. rewrite H2, elem_of_nil. tauto.
Qed.

(** X4.  [toggleSelectDomain] flips the membership of its domain and of
    no other, keeps the selection free of repetitions, changes its size
    by exactly one, and toggling the same domain twice gives back the
    same selected domains. *)
Theorem toggleSelectDomain_flips (i : nat) (selected : list nat) :
  NoDup selected ->
  NoDup (toggleSelectDomain i selected) /\
  (i ∈ toggleSelectDomain i selected <-> i ∉ selected) /\
  (forall x, x <> i -> x ∈ toggleSelectDomain i selected <-> x ∈ selected) /\
  (forall x, x ∈ toggleSelectDomain i (toggleSelectDomain i selected) <-> x ∈ selected) /\
  length (toggleSelectDomain i selected) =
    (if set_has i selected then length selected - 1 else length selected + 1)%nat.
Proof.
  intros Hnd.
  assert (Hflip : forall s, (i ∈ toggleSelectDomain i s <-> i ∉ s) /\
                            (forall x, x <> i -> x ∈ toggleSelectDomain i s <-> x ∈ s)).
  { intros s. unfold toggleSelectDomain, set_has.
    destruct (decide (i ∈ s)) as [Hin|Hout].
    - rewrite bool_decide_eq_true_2 by assumption. split.
      + rewrite elem_of_set_delete_nat. tauto.
      + intros x Hx. rewrite elem_of_set_delete_nat. tauto.
    - rewrite bool_decide_eq_false_2 by assumption. split.
      + rewrite elem_of_set_add_nat. tauto.
      + intros x Hx. rewrite elem_of_set_add_nat. tauto. }
  split; [|split; [apply Hflip|split; [apply Hflip|split]]].
  - unfold toggleSelectDomain. destruct (set_has i selected).
    + now apply NoDup_filter.
    + now apply NoDup_set_add_nat.
  - intros x. destruct (decide (x = i)) as [->|Hne].
    + rewrite (proj1 (Hflip _)), (proj1 (Hflip _)).
      destruct (decide (i ∈ selected)); tauto.
    + now rewrite (proj2 (Hflip _) x Hne), (proj2 (Hflip _) x Hne).
  - unfold toggleSelectDomain, set_has.
    destruct (decide (i ∈ selected)) as [Hin|Hout].
    + rewrite bool_decide_eq_true_2 by assumption.
      pose proof (length_filter_ne i selected Hnd Hin). unfold Selection.set_delete. lia.
    + rewrite bool_decide_eq_false_2 by assumption.
      unfold Selection.set_add. rewrite decide_False by assumption.
      rewrite length_app. reflexivity.
Qed.

Lemma toggleSelectDomain_flips_witness :
  toggleSelectDomain 7 [3; 7; 9]%nat = [3; 9]%nat /\
  NoDup (toggleSelectDomain 7 [3; 7; 9]%nat).
Proof.
  split; [reflexivity|].
  apply (toggleSelectDomain_flips 7 [3; 7; 9]%nat). distinct_elements.
Defined.

Lemma NoDup_free_ids (domains : list Domain) :
  NoDup (map id domains) -> NoDup (map id (free_domains domains)).
Proof.
  unfold free_domains. induction domains as [|d ds IH]; intros Hnd; [constructor|].
  cbn [map] in Hnd. apply NoDup_cons in Hnd as [Hd Hnd].
  destruct (decide (String.eqb (status d) "free" = true)) as [Hf|Hf].
  - rewrite filter_cons_True by assumption. cbn [map]. apply NoDup_cons.
    split; [|now apply IH]. intros Hin. apply Hd.
    apply list_elem_of_fmap in Hin as (d' & -> & Hd').
    apply list_elem_of_filter in Hd' as [_ Hd']. apply list_elem_of_fmap. eauto.
  - rewrite filter_cons_False by assumption. now apply IH.
Qed.

Lemma same_size_same_elements (s f : list nat) :
  NoDup s -> NoDup f -> (forall x, x ∈ s -> x ∈ f) ->
  length s = length f <-> (forall x, x ∈ f -> x ∈ s).
Proof.
  intros Hs Hf Hsub. split.
  - intros Hlen x Hx.
    assert (Hperm : s ≡ₚ f).
    { apply submseteq_length_Permutation; [|lia]. now apply NoDup_submseteq. }
    now rewrite Hperm.
  - intros Hsup. apply Permutation_length. apply NoDup_Permutation; try assumption.
    intros x. split; auto.
Qed.

(** X5.  On a page whose domains have distinct ids, with a selection
    made of free domains of that page: [toggleSelectAll] clears the
    selection when every free domain is selected, and otherwise selects
    exactly the free domains; after it the header box is checked exactly
    in the second case. *)
Theorem toggleSelectAll_toggles (domains : list Domain) (selected : list nat) :
  NoDup (map id domains) ->
  NoDup selected ->
  (forall x, x ∈ selected -> x ∈ map id (free_domains domains)) ->
  ((forall x, x ∈ map id (free_domains domains) -> x ∈ selected) ->
   toggleSelectAll domains selected = [] /\
   select_all_checked domains (toggleSelectAll domains selected) = false) /\
  ((exists x, x ∈ map id (free_domains domains) /\ x ∉ selected) ->
   NoDup (toggleSelectAll domains selected) /\
   (forall y, y ∈ toggleSelectAll domains selected <->
              y ∈ map id (free_domains domains)) /\
   select_all_checked domains (toggleSelectAll domains selected) = true).
Proof.
  intros Hids Hsel Hsub.
  pose proof (NoDup_free_ids domains Hids) as Hfree.
  pose proof (same_size_same_elements selected _ Hsel Hfree Hsub) as Hsize.
  rewrite length_map in Hsize.
  unfold toggleSelectAll, select_all_checked. split.
  - intros Hall. apply Hsize in Hall. apply Nat.eqb_eq in Hall. rewrite Hall.
    split; reflexivity.
  - intros (x & Hx & Hout).
    destruct (length selected =? length (free_domains domains))%nat eqn:E.
    { apply Nat.eqb_eq in E. exfalso. apply Hout. now apply (proj1 Hsize E). }
    destruct (set_of_array_spec (map id (free_domains domains))) as [Hnd Hmem].
    split; [assumption|]. split; [exact Hmem|].
    assert (Hlen : length (set_of_array (map id (free_domains domains)))
                   = length (free_domains domains)).
    { rewrite <- (length_map id). apply Permutation_length.
      apply NoDup_Permutation; assumption. }
    rewrite Hlen, Nat.eqb_refl, andb_true_r. apply Nat.ltb_lt.
    destruct (free_domains domains); [now apply elem_of_nil in Hx|cbn; lia].
Qed.

Lemma toggleSelectAll_toggles_witness :
  select_all_checked [mkDomain 1 "free"; mkDomain 2 "assigned"; mkDomain 3 "free"]
    (toggleSelectAll [mkDomain 1 "free"; mkDomain 2 "assigned"; mkDomain 3 "free"]
       [3]%nat) = true.
Proof.
  apply (toggleSelectAll_toggles
           [mkDomain 1 "free"; mkDomain 2 "assigned"; mkDomain 3 "free"] [3]%nat).
  - cbn. distinct_elements.
  - distinct_elements.
  - intros x Hx. apply list_elem_of_singleton in Hx as ->.
    change (3%nat ∈ [1; 3]%nat). rewrite !elem_of_cons. auto.
  - exists 1%nat. split.
    + change (1%nat ∈ [1; 3]%nat). rewrite !elem_of_cons. auto.
    + rewrite list_elem_of_singleton. discriminate.
Defined.

(** *** Clicks on the check boxes of the group dialog *)

Lemma click_checkbox_spec (i : nat) (selected : list nat) :
  NoDup selected ->
  NoDup (click_checkbox i selected) /\
  forall x, x ∈ click_checkbox i selected <->
            (if decide (x = i) then x ∉ selected else x ∈ selected).
Proof.
  intros Hnd. unfold click_checkbox, checkbox_change, includes.
  destruct (decide (i ∈ selected)) as [Hin|Hout].
  - rewrite bool_decide_eq_true_2 by assumption. cbn [negb].
    split; [now apply NoDup_filter|].
    intros x. rewrite list_elem_of_filter. destruct (decide (x = i)) as [->|]; tauto.
  - rewrite bool_decide_eq_false_2 by assumption. cbn [negb]. split.
    + apply NoDup_app. repeat split; [assumption| |apply NoDup_singleton].
      intros y Hy Hy'. apply list_elem_of_singleton in Hy'. congruence.
    + intros x. rewrite elem_of_app, list_elem_of_singleton.
      destruct (decide (x = i)) as [->|]; tauto.
Qed.

(** X6.  The dialog opens with an empty array.  After any sequence of
    clicks on the check boxes the array holds no server twice, and it
    holds a server exactly when its box was clicked an odd number of
    times. *)
Theorem group_selection_is_a_set (clicks : list nat) :
  NoDup (foldl (fun s i => click_checkbox i s) [] clicks) /\
  forall i, i ∈ foldl (fun s i => click_checkbox i s) [] clicks <->
            Nat.odd (length (filter (fun x => x = i) clicks)) = true.
Proof.
  induction clicks as [|c clicks IH] using rev_ind.
  - split; [constructor|]. intros i. cbn. rewrite elem_of_nil. split; [tauto|discriminate].
  - rewrite foldl_app. cbn [foldl]. destruct IH as [Hnd Hmem].
    destruct (click_checkbox_spec c _ Hnd) as [Hnd' Hmem'].
    split; [assumption|]. intros i. rewrite Hmem', filter_app, length_app.
    destruct (decide (i = c)) as [->|Hne].
    + rewrite filter_cons_True by reflexivity. cbn [filter length].
      rewrite Nat.add_1_r, Nat.odd_succ, <- Nat.negb_odd, Hmem.
      destruct (Nat.odd _); cbn; split; intros H; try discriminate; try tauto.
    + rewrite filter_cons_False by congruence. cbn [filter length].
      rewrite Nat.add_0_r. apply Hmem.
Qed.

(** X7.  [handleAssignToGroup] posts nothing when no group or no server
    is selected and leaves the state as it is; otherwise it posts exactly
    one request with the selected servers in their order, and it empties
    the selection and closes the dialog only when that request
    succeeded; when it failed the selection is kept and the form error
    is the message of the failure. *)
Theorem handleAssignToGroup_outcome
  (assignServers : nat -> list nat -> Reply unit) (st : GroupState) :
  ((selectedGroup st = None \/ selectedServersForGroup st = []) ->
   handleAssignToGroup assignServers st = st) /\
  (forall g, selectedGroup st = Some g -> selectedServersForGroup st <> [] ->
     g_requests (handleAssignToGroup assignServers st) =
       g_requests st ++ [(g, selectedServersForGroup st)] /\
     g_submitting (handleAssignToGroup assignServers st) = false /\
     match assignServers g (selectedServersForGroup st) with
     | Fulfilled _ =>
         selectedServersForGroup (handleAssignToGroup assignServers st) = [] /\
         showAssignGroupModal (handleAssignToGroup assignServers st) = false /\
         g_reloads (handleAssignToGroup assignServers st) = S (g_reloads st)
     | Threw msg =>
         selectedServersForGroup (handleAssignToGroup assignServers st)
           = selectedServersForGroup st /\
         g_formError (handleAssignToGroup assignServers st) = msg /\
         showAssignGroupModal (handleAssignToGroup assignServers st)
           = showAssignGroupModal st /\
         g_reloads (handleAssignToGroup assignServers st) = g_reloads st
     end).
Proof.
  unfold handleAssignToGroup. split.
  - intros [Hg|Hs]; [now rewrite Hg|]. rewrite Hs. now destruct (selectedGroup st).
  - intros g Hg Hs. rewrite Hg.
    destruct (selectedServersForGroup st) as [|x l] eqn:E; [contradiction|].
    destruct (assignServers g (x :: l)); repeat split.
Qed.

(** X8.  [handleAssign] posts at most one request, and the request
    carries the selected domains in their order: an auto-assign request
    when auto-assign is on, whatever server is chosen; else a bulk
    request for the chosen server; and with neither it posts nothing,
    keeps the selection and shows its form error.  The selection is
    emptied only when the request succeeded. *)
Theorem handleAssign_outcome (api : AssignRequest -> Reply unit) (st : AssignState) :
  a_submitting (handleAssign api st) = false /\
  (autoAssign st = true ->
   a_requests (handleAssign api st) =
     a_requests st ++ [AutoAssign (selectedDomains st)]) /\
  (forall n, autoAssign st = false -> assignServerId st = Some (S n) ->
   a_requests (handleAssign api st) =
     a_requests st ++ [BulkAssign (selectedDomains st) (S n)]) /\
  (autoAssign st = false -> assignServerId st = None \/ assignServerId st = Some 0%nat ->
   a_requests (handleAssign api st) = a_requests st /\
   selectedDomains (handleAssign api st) = selectedDomains st /\
   a_formError (handleAssign api st) = "Please select a server or enable auto-assign") /\
  (forall r, a_requests (handleAssign api st) = a_requests st ++ [r] ->
     match api r with
     | Fulfilled _ =>
         selectedDomains (handleAssign api st) = [] /\
         showAssignModal (handleAssign api st) = false /\
         a_reloads (handleAssign api st) = S (a_reloads st)
     | Threw msg =>
         selectedDomains (handleAssign api st) = selectedDomains st /\
         a_formError (handleAssign api st) = msg /\
         a_reloads (handleAssign api st) = a_reloads st
     end).
Proof.
  assert (Hone : forall (l : list AssignRequest) r r', l ++ [r'] = l ++ [r] -> r = r').
  { intros l r r' H. apply app_inv_head in H. congruence. }
  assert (Hnone : forall (l : list AssignRequest) r, l = l ++ [r] -> False).
  { intros l r H. apply (f_equal length) in H. rewrite length_app in H. cbn in H. lia. }
  unfold handleAssign.
  destruct (autoAssign st) eqn:Hauto; [|destruct (assignServerId st) as [[|n]|] eqn:Hsrv].
  - destruct (api (AutoAssign (selectedDomains st))) eqn:Hapi; cbn.
    all: split; [reflexivity|]; split; [reflexivity|].
    all: split; [intros n' Hf; discriminate|]; split; [intros Hf; discriminate|].
    all: intros r' Hr; apply Hone in Hr; subst r'; rewrite Hapi; repeat split.
  - cbn. split; [reflexivity|]. split; [intros Hf; discriminate|].
    split; [intros n' _ Hf; discriminate|]. split; [intros _ _; repeat split|].
    intros r Hr. exfalso. now apply Hnone in Hr.
  - destruct (api (BulkAssign (selectedDomains st) (S n))) eqn:Hapi; cbn.
    all: split; [reflexivity|]; split; [intros Hf; discriminate|].
    all: split; [intros n' _ [= <-]; reflexivity|].
    all: split; [intros _ [Hf|Hf]; discriminate|].
    all: intros r' Hr; apply Hone in Hr; subst r'; rewrite Hapi; repeat split.
  - cbn. split; [reflexivity|]. split; [intros Hf; discriminate|].
    split; [intros n' _ Hf; discriminate|]. split; [intros _ _; repeat split|].
    intros r Hr. exfalso. now apply Hnone in Hr.
Qed.

End SelectionFacts.

(** ** Tag fields *)

Section TagFacts.
Import BulkImport TagField.

Lemma trim_idempotent (s : jsstring) : trim (trim s) = trim s.
Proof.
  symmetry. apply is_trimmed_unique.
  destruct (trim_is_trimmed s) as (pre & post & _ & _ & _ & Hhead & Hlast).
  exists [], []. rewrite app_nil_r. repeat split; try constructor; assumption.
Qed.

Lemma trim_keeps_out (sep : N) (s : jsstring) : sep ∉ s -> sep ∉ trim s.
Proof.
  intros Hs Hin. apply Hs.
  destruct (trim_is_trimmed s) as (pre & post & Heq & _).
  rewrite Heq, !elem_of_app. auto.
Qed.

(** Every entry is clean: not empty, without the separator, trimmed. *)
Lemma entries_clean (sep : N) (text : jsstring) :
  Forall (clean sep) (entries sep text).
Proof.
  unfold entries. apply Forall_forall. intros t Ht.
  apply list_elem_of_filter in Ht as [Hne Ht].
  apply list_elem_of_fmap in Ht as (p & -> & Hp).
  pose proof (proj1 (Forall_forall _ _) (split_no_sep sep text) p Hp) as Hsep.
  repeat split.
  - intros E. rewrite E in Hne. discriminate.
  - now apply trim_keeps_out.
  - apply trim_idempotent.
Qed.

Lemma trim_after_white (pre t : jsstring) :
  Forall (fun c => is_white_space c = true) pre -> trim t = t -> trim (pre ++ t) = t.
Proof.
  intros Hpre Ht. unfold trim in *. now rewrite trim_start_skips.
Qed.

Lemma entries_cons (sep : N) (p rest : jsstring) :
  sep ∉ p -> trim p <> [] ->
  entries sep (p ++ sep :: rest) = trim p :: entries sep rest.
Proof.
  intros Hp Hne. unfold entries. rewrite split_app_sep by assumption. cbn [map].
  rewrite filter_cons_True; [reflexivity|]. destruct (trim p); [contradiction|reflexivity].
Qed.

Lemma entries_single (sep : N) (p : jsstring) :
  sep ∉ p -> trim p <> [] -> entries sep p = [trim p].
Proof.
  intros Hp Hne. unfold entries. rewrite split_without_sep by assumption. cbn [map].
  rewrite filter_cons_True; [reflexivity|]. destruct (trim p); [contradiction|reflexivity].
Qed.

(** Joining clean tags with ", " and reading the field back gives the
    tags; [pre] is the space that follows a comma. *)
Lemma tags_of_joined (tags : list jsstring) :
  Forall (clean COMMA) tags -> tags <> [] ->
  forall pre, Forall (fun c => is_white_space c = true) pre -> COMMA ∉ pre ->
  entries COMMA (pre ++ join_with [COMMA; SPACE] tags) = tags.
Proof.
  induction tags as [|t rest IH]; intros Hclean Hne pre Hpre Hcomma; [contradiction|].
  inversion Hclean as [|? ? (Ht1 & Ht2 & Ht3) Hrest]; subst.
  assert (Hsep : COMMA ∉ pre ++ t) by (rewrite elem_of_app; tauto).
  assert (Htrim : trim (pre ++ t) = t) by now apply trim_after_white.
  destruct rest as [|u rest'].
  - cbn [join_with]. rewrite entries_single; rewrite ?Htrim; auto.
  - change (join_with [COMMA; SPACE] (t :: u :: rest'))
      with (t ++ COMMA :: ([SPACE] ++ join_with [COMMA; SPACE] (u :: rest'))).
    rewrite app_assoc, entries_cons; rewrite ?Htrim; auto.
    f_equal. apply IH; [assumption|discriminate| |].
    + constructor; [reflexivity|constructor].
    + rewrite list_elem_of_singleton. discriminate.
Qed.

(** X9.  Whatever is typed into a tag field, the tags read from it are
    clean (not empty, no comma, no white space at either end); the field
    then shows them joined by ", ", and reading that text back gives the
    same tags, so what the field shows is stable. *)
Theorem tag_field_round_trip (value : jsstring) :
  Forall (clean COMMA) (tags_of_value value) /\
  tags_of_value (tags_value (tags_of_value value)) = tags_of_value value /\
  tags_value (tags_of_value (tags_value (tags_of_value value)))
    = tags_value (tags_of_value value).
Proof.
  pose proof (entries_clean COMMA value) as Hclean.
  assert (Hrt : tags_of_value (tags_value (tags_of_value value)) = tags_of_value value).
  { unfold tags_of_value, tags_value in *.
    destruct (entries COMMA value) as [|t ts] eqn:E; [reflexivity|].
    apply (tags_of_joined (t :: ts) Hclean ltac:(discriminate) []);
      [constructor|apply not_elem_of_nil]. }
  split; [exact Hclean|]. split; [exact Hrt|]. now rewrite Hrt.
Qed.

(** X10.  Every request [handleBulkCreate] posts names at least one
    domain, its domain names are clean lines, and its tags are either
    left out or a non-empty list of clean tags: no empty name and no
    empty tag is ever sent. *)
Theorem handleBulkCreate_requests_clean
  (bulkCreate : DomainBulkCreate -> Reply BulkCreateResponse) (st : CreateState) :
  Forall (fun r => db_domains r <> [] /\ Forall (clean LF) (db_domains r) /\
                   match db_tags r with
                   | None => True
                   | Some tags => tags <> [] /\ Forall (clean COMMA) tags
                   end) (d_requests st) ->
  Forall (fun r => db_domains r <> [] /\ Forall (clean LF) (db_domains r) /\
                   match db_tags r with
                   | None => True
                   | Some tags => tags <> [] /\ Forall (clean COMMA) tags
                   end) (d_requests (handleBulkCreate bulkCreate st)).
Proof.
  intros Hold. unfold handleBulkCreate.
  pose proof (entries_clean LF (bulkDomains st)) as Hd.
  pose proof (entries_clean COMMA (bulkTags st)) as Ht.
  destruct (entries LF (bulkDomains st)) as [|d ds] eqn:Ed; cbn [length Nat.eqb];
    [exact Hold|].
  assert (Hnew : forall tags, tags = entries COMMA (bulkTags st) ->
            (fun r => db_domains r <> [] /\ Forall (clean LF) (db_domains r) /\
               match db_tags r with
               | None => True
               | Some tags => tags <> [] /\ Forall (clean COMMA) tags
               end)
            (mkDomainBulkCreate (d :: ds)
               (if (0 <? length tags)%nat then Some tags else None))).
  { intros tags ->. cbn. split; [discriminate|]. split; [assumption|].
    destruct (entries COMMA (bulkTags st)); cbn; [exact I|]. split; [discriminate|assumption]. }
  destruct (bulkCreate _); cbn [d_requests]; apply Forall_app; split; try assumption;
    (constructor; [now apply Hnew|constructor]).
Qed.

Lemma handleBulkCreate_requests_clean_witness :
  Forall (fun r => db_domains r <> [] /\ Forall (clean LF) (db_domains r) /\
                   match db_tags r with
                   | None => True
                   | Some tags => tags <> [] /\ Forall (clean COMMA) tags
                   end)
    (d_requests
       (handleBulkCreate (fun _ => Fulfilled (mkBulkCreateResponse 1 0 []))
          (mkCreateState [32; 97; 46; 98; 10; 10]%N [120; 44; 32; 44; 121]%N
             "" false true 0 [] []))).
Proof.
  apply (handleBulkCreate_requests_clean
           (fun _ => Fulfilled (mkBulkCreateResponse 1 0 []))
           (mkCreateState [32; 97; 46; 98; 10; 10]%N [120; 44; 32; 44; 121]%N
              "" false true 0 [] [])).
  constructor.
Defined.

End TagFacts.

(** ** What every run of the real-time client keeps *)

Section ClientInvariants.
Import WS Scenarios Keeps.

Lemma backoff_bounded_frame (w w' : World) :
  reconnectAttempts (client w') = reconnectAttempts (client w) ->
  timers (browser w') = timers (browser w) ->
  backoff_bounded w -> backoff_bounded w'.
Proof. unfold backoff_bounded. now intros -> ->. Qed.

Lemma attemptReconnect_bounded (w : World) :
  backoff_bounded w -> backoff_bounded (attemptReconnect w).
Proof.
  intros [Hle Htimers]. unfold attemptReconnect.
  destruct (maxReconnectAttempts <=? reconnectAttempts (client w))%nat eqn:E.
  - split; assumption.
  - apply Nat.leb_gt in E. split; [cbn; lia|]. cbn.
    intros t d. destruct (decide (next_id (browser w) = t)) as [<-|Hne].
    + rewrite lookup_insert_eq. intros [= <-]. eauto.
    + rewrite lookup_insert_ne by assumption. apply Htimers.
Qed.

Lemma onclose_bounded (w : World) : backoff_bounded w -> backoff_bounded (onclose w).
Proof.
  intros H. unfold onclose. apply attemptReconnect_bounded.
  destruct (stopPing_keeps (set_isConnecting false (log LogDisconnected w)))
    as (_ & _ & Ht & Ha & _).
  eapply backoff_bounded_frame; [exact Ha|exact Ht|exact H].
Qed.

Lemma connect_bounded (usr : string) (ctor_ok : bool) (w : World) :
  backoff_bounded w -> backoff_bounded (connect usr ctor_ok w).
Proof.
  intros H. unfold connect.
  destruct (ws_is_open w || isConnecting (client w)); [assumption|].
  destruct ctor_ok.
  - now apply (backoff_bounded_frame w).
  - apply attemptReconnect_bounded. now apply (backoff_bounded_frame w).
Qed.

Lemma disconnect_keeps_backoff (w : World) :
  reconnectAttempts (client (disconnect w)) = reconnectAttempts (client w) /\
  timers (browser (disconnect w)) = timers (browser w).
Proof.
  unfold disconnect.
  destruct (stopPing_keeps w) as (Hws & _ & Ht & Ha & _).
  destruct (ws (client (stopPing w))) as [s|]; [|now split].
  unfold socket_close. destruct (ready_state s (stopPing w)) as [[]|]; now split.
Qed.

Lemma step_bounded (e : Event) (w w' : World) :
  backoff_bounded w -> step e w = Some w' -> backoff_bounded w'.
Proof.
  intros H Hstep. destruct e; cbn [step] in Hstep.
  - injection Hstep as <-. now apply connect_bounded.
  - injection Hstep as <-. destruct (disconnect_keeps_backoff w) as [Ha Ht].
    now apply (backoff_bounded_frame w).
  - injection Hstep as <-. now apply (backoff_bounded_frame w).
  - injection Hstep as <-. now apply (backoff_bounded_frame w).
  - destruct (ready_state s w) as [[]|]; try discriminate. injection Hstep as <-.
    destruct H as [_ Ht]. split; [cbn; lia|exact Ht].
  - destruct (ready_state s w) as [[]|]; try discriminate. injection Hstep as <-.
    destruct (onmessage_frame parsed w) as (F1 & _ & F3 & _).
    apply (backoff_bounded_frame w); [now rewrite F1|exact F3|exact H].
  - destruct (ready_state s w) as [[]|]; try discriminate. injection Hstep as <-.
    now apply (backoff_bounded_frame w).
  - destruct (ready_state s w) as [[]|]; try discriminate; injection Hstep as <-;
      apply onclose_bounded; now apply (backoff_bounded_frame w).
  - destruct (ready_state s w) as [[]|]; try discriminate; injection Hstep as <-;
      apply onclose_bounded; now apply (backoff_bounded_frame w).
  - destruct (timers (browser w) !! t) eqn:E; [|discriminate]. injection Hstep as <-.
    apply connect_bounded. destruct H as [Ha Ht]. split; [exact Ha|].
    cbn. intros t' d'. destruct (decide (t = t')) as [<-|Hne].
    + rewrite lookup_delete_eq. discriminate.
    + rewrite lookup_delete_ne by assumption. apply Ht.
  - destruct (decide _); [|discriminate]. injection Hstep as <-.
    unfold ping, send. destruct (ws (client w)); [|assumption].
    destruct (ws_is_open w); [|assumption]. now apply (backoff_bounded_frame w).
Qed.

(** X11.  Whatever is called on a new client and whatever the browser
    reports, the reconnect counter never exceeds 10, and every pending
    reconnect timer has a delay [1000 * 2^k] with [k < 10], hence between
    1 second and [1000 * 2^9] ms, that is 512 seconds. *)
Theorem backoff_is_bounded (es : list Event) (w : World) :
  run es new_world = Some w ->
  (reconnectAttempts (client w) <= 10)%nat /\
  forall t d, timers (browser w) !! t = Some d ->
    (exists k, (k < 10)%nat /\ d = (1000 * 2 ^ k)%nat) /\
    (1000 <= d <= 1000 * 2 ^ 9)%nat.
Proof.
  intros Hrun.
  assert (Hinv : backoff_bounded w).
  { assert (Hnew : backoff_bounded new_world).
    { split; [cbn; unfold maxReconnectAttempts; lia|].
      intros t d. cbn. rewrite lookup_empty. discriminate. }
    revert Hrun Hnew. generalize new_world. induction es as [|e es IH]; intros w0 Hrun H0.
    - cbn in Hrun. now injection Hrun as <-.
    - cbn [run] in Hrun. destruct (step e w0) as [w1|] eqn:Hstep; [|discriminate].
      apply (IH w1 Hrun). now apply (step_bounded e w0). }
  destruct Hinv as [Ha Ht]. split; [exact Ha|].
  intros t d Hd. destruct (Ht t d Hd) as (k & Hk & ->).
  unfold maxReconnectAttempts, reconnectDelay in *. split; [eauto|].
  split.
  - rewrite <- (Nat.mul_1_r 1000) at 1. apply Nat.mul_le_mono_l.
    change 1%nat with (2 ^ 0)%nat. apply Nat.pow_le_mono_r; lia.
  - apply Nat.mul_le_mono_l. apply Nat.pow_le_mono_r; lia.
Qed.

Lemma backoff_is_bounded_witness :
  exists w,
    run [CallConnect "u" true; SocketOpened 0; SocketClosed 0; TimerFired 2 true;
         SocketFailed 3] new_world = Some w /\
    (reconnectAttempts (client w) <= 10)%nat.
Proof.
  eexists. split; [vm_compute; reflexivity|].
  eapply (backoff_is_bounded
            [CallConnect "u" true; SocketOpened 0; SocketClosed 0; TimerFired 2 true;
             SocketFailed 3]).
  vm_compute. reflexivity.
Defined.

(** X12.  [disconnect()] does not stop the client: when an open
    connection is disconnected, the close event of its socket still
    schedules a reconnect with the backoff delay, and when that timer
    fires the client constructs a new socket and is connecting again. *)
Theorem disconnect_is_followed_by_reconnect (w : World) (s n : nat) :
  ws (client w) = Some s ->
  ready_state s w = Some OPEN ->
  reconnectAttempts (client w) = n ->
  (n < 10)%nat ->
  exists w1 t,
    run [CallDisconnect; SocketClosed s] w = Some w1 /\
    ws (client w1) = None /\
    timers (browser w1) !! t = Some (1000 * 2 ^ n)%nat /\
    exists w2 s',
      step (TimerFired t true) w1 = Some w2 /\
      ws (client w2) = Some s' /\
      ready_state s' w2 = Some CONNECTING /\
      isConnecting (client w2) = true.
Proof.
  intros Hws Hs Hn Hlt.
  destruct (stopPing_keeps w) as (P1 & P2 & P3 & P4 & P5 & _).
  assert (Hdisc : disconnect w = set_ws None (mark s CLOSING (stopPing w))).
  { assert (Hs' : ready_state s (stopPing w) = Some OPEN)
      by (unfold ready_state in *; rewrite P2; exact Hs).
    unfold disconnect. rewrite P1, Hws. unfold socket_close. rewrite Hs'. reflexivity. }
  set (w0 := set_ws None (mark s CLOSING (stopPing w))) in *.
  assert (Hclosing : ready_state s w0 = Some CLOSING).
  { unfold w0, ready_state. cbn. apply lookup_insert_eq. }
  set (wc := mark s CLOSED w0).
  set (wp := stopPing (set_isConnecting false (log LogDisconnected wc))).
  destruct (stopPing_keeps (set_isConnecting false (log LogDisconnected wc)))
    as (Q1 & Q2 & Q3 & Q4 & Q5 & _). fold wp in Q1, Q2, Q3, Q4, Q5.
  cbn in Q1, Q3, Q4, Q5.
  destruct (attemptReconnect_schedules wp n) as (A1 & A2 & _ & A4 & A5 & A6).
  { rewrite Q4, P4. exact Hn. }
  { unfold maxReconnectAttempts. exact Hlt. }
  exists (attemptReconnect wp), (next_id (browser wp)).
  split.
  { cbn [run step]. rewrite Hdisc. rewrite Hclosing. reflexivity. }
  split; [rewrite A4, Q1; reflexivity|].
  split; [rewrite A2; apply lookup_insert_eq|].
  cbn [step]. rewrite A2, lookup_insert_eq.
  set (wt := set_timers _ (attemptReconnect wp)).
  assert (Hguard : ws_is_open wt || isConnecting (client wt) = false).
  { unfold ws_is_open. cbn. rewrite A4, Q1, A6, Q5. reflexivity. }
  unfold connect. rewrite Hguard. cbn [fresh].
  eexists _, _. split; [reflexivity|]. split; [reflexivity|].
  split; [|reflexivity].
  unfold ready_state. cbn. apply lookup_insert_eq.
Qed.

Lemma disconnect_is_followed_by_reconnect_witness :
  exists w1 t,
    run [CallDisconnect; SocketClosed 0] (mark 0 OPEN (set_ws (Some 0%nat) new_world))
      = Some w1 /\
    timers (browser w1) !! t = Some 1000%nat.
Proof.
  destruct (disconnect_is_followed_by_reconnect
              (mark 0 OPEN (set_ws (Some 0%nat) new_world)) 0 0)
    as (w1 & t & Hrun & _ & Ht & _); [reflexivity|reflexivity|reflexivity|lia|].
  exists w1, t. split; [exact Hrun|exact Ht].
Defined.

End ClientInvariants.

(** ** Orderly runs: one socket, one keep-alive timer *)

Section OrderlyRuns.
Import WS Scenarios Keeps.

(** X13.  On every orderly run of a new client, that is as long as
    [disconnect()] is not called and [connect] does not run while the
    current socket is in its closing handshake, the sockets that are
    connecting or open are at most one, and such a socket is the
    client's current one. *)
Theorem live_sockets_on_orderly_runs (es : list Event) (w : World) :
  orderly es new_world = true ->
  run es new_world = Some w ->
  (size (live_sockets w) <= 1)%nat /\
  (forall s r, live_sockets w !! s = Some r -> ws (client w) = Some s).
Proof.
  intros Hes Hrun.
  pose proof (run_single_socket es _ _ Hes new_world_single_socket Hrun) as Hinv.
  assert (Hcur : forall s r, live_sockets w !! s = Some r -> ws (client w) = Some s).
  { intros s r Hs. apply map_lookup_filter_Some in Hs as [Hs Hlive]. cbn in Hlive.
    apply (single_socket_current w s r Hinv Hs). intros ->. discriminate. }
  split; [|exact Hcur].
  destruct (ws (client w)) as [s0|] eqn:Hws.
  - destruct (live_sockets w !! s0) as [r0|] eqn:Hs0.
    + assert (Hone : live_sockets w = {[ s0 := r0 ]}).
      { apply map_eq. intros k. destruct (decide (k = s0)) as [->|Hk].
        - now rewrite lookup_singleton_eq.
        - rewrite lookup_singleton_ne by congruence.
          destruct (live_sockets w !! k) as [r|] eqn:Hr; [|reflexivity].
          apply Hcur in Hr. congruence. }
      rewrite Hone, map_size_singleton. constructor.
    + assert (Hnone : live_sockets w = ∅).
      { apply map_empty. intros k.
        destruct (live_sockets w !! k) as [r|] eqn:Hr; [|reflexivity].
        pose proof (Hcur _ _ Hr) as Hk. congruence. }
      rewrite Hnone, map_size_empty. repeat constructor.
  - assert (Hnone : live_sockets w = ∅).
    { apply map_empty. intros k.
      destruct (live_sockets w !! k) as [r|] eqn:Hr; [|reflexivity].
      apply Hcur in Hr. discriminate. }
    rewrite Hnone, map_size_empty. repeat constructor.
Qed.

Lemma live_sockets_on_orderly_runs_witness :
  exists w,
    run [CallConnect "u" true; SocketOpened 0; SocketClosing 0; SocketClosed 0;
         TimerFired 2 true; CallConnect "v" true; SocketOpened 3] new_world = Some w /\
    live_sockets w !! 3%nat = Some OPEN /\
    (size (live_sockets w) <= 1)%nat.
Proof.
  eexists. split; [vm_compute; reflexivity|]. split; [vm_compute; reflexivity|].
  eapply (live_sockets_on_orderly_runs
            [CallConnect "u" true; SocketOpened 0; SocketClosing 0; SocketClosed 0;
             TimerFired 2 true; CallConnect "v" true; SocketOpened 3]).
  - vm_compute. reflexivity.
  - vm_compute. reflexivity.
Defined.

Lemma one_keepalive_frame (w w' : World) :
  intervals (browser w') = intervals (browser w) ->
  pingInterval (client w') = pingInterval (client w) ->
  ws (client w') = ws (client w) ->
  sockets (browser w') = sockets (browser w) ->
  one_keepalive w -> one_keepalive w'.
Proof.
  unfold one_keepalive, ws_is_open, ws_is_closing, ready_state.
  now intros -> -> -> ->.
Qed.

Lemma attemptReconnect_keepalive (w : World) :
  one_keepalive w -> one_keepalive (attemptReconnect w).
Proof.
  apply one_keepalive_frame;
    unfold attemptReconnect; destruct (_ <=? _)%nat; reflexivity.
Qed.

(** After [stopPing] no keep-alive timer runs. *)
Lemma stopPing_clears (w : World) :
  intervals (browser w) =
    match pingInterval (client w) with Some i => {[ i ]} | None => ∅ end ->
  intervals (browser (stopPing w)) = ∅ /\ pingInterval (client (stopPing w)) = None.
Proof.
  intros Hint. unfold stopPing.
  destruct (pingInterval (client w)) as [i|] eqn:E; cbn; [|now split].
  split; [|reflexivity]. rewrite Hint. apply difference_diag_L.
Qed.

Lemma cleared_keepalive (w : World) :
  intervals (browser w) = ∅ -> pingInterval (client w) = None -> one_keepalive w.
Proof. intros Hi Hp. split; [now rewrite Hi, Hp|]. rewrite Hp. congruence. Qed.

Lemma onclose_keepalive (w : World) :
  intervals (browser w) =
    match pingInterval (client w) with Some i => {[ i ]} | None => ∅ end ->
  one_keepalive (onclose w).
Proof.
  intros Hint. unfold onclose. apply attemptReconnect_keepalive.
  apply cleared_keepalive; apply stopPing_clears; exact Hint.
Qed.

Lemma idle_no_keepalive (w : World) :
  one_keepalive w -> ws_is_open w = false -> ws_is_closing w = false ->
  pingInterval (client w) = None /\ intervals (browser w) = ∅.
Proof.
  intros [Hint Hopen] Hclosed Hcalm.
  destruct (pingInterval (client w)) as [i|] eqn:E; [|now split].
  rewrite Hclosed, Hcalm in Hopen. discriminate Hopen. discriminate.
Qed.

Lemma connect_keepalive (usr : string) (ctor_ok : bool) (w : World) :
  ws_is_closing w = false ->
  one_keepalive w -> one_keepalive (connect usr ctor_ok w).
Proof.
  intros Hcalm H. unfold connect.
  destruct (ws_is_open w || isConnecting (client w)) eqn:Hguard; [assumption|].
  apply orb_false_elim in Hguard as [Hclosed _].
  destruct (idle_no_keepalive w H Hclosed Hcalm) as [Hp Hi].
  destruct ctor_ok.
  - cbn [fresh]. now apply cleared_keepalive.
  - apply attemptReconnect_keepalive. now apply cleared_keepalive.
Qed.

Lemma step_keepalive (e : Event) (w w' : World) :
  e <> CallDisconnect ->
  (runs_connect e = true -> ws_is_closing w = false) ->
  single_socket w -> one_keepalive w ->
  step e w = Some w' -> one_keepalive w'.
Proof.
  intros He Hcalm Hone Hkeep Hstep. destruct e; cbn [step] in Hstep.
  - injection Hstep as <-. apply connect_keepalive; auto.
  - contradiction.
  - injection Hstep as <-. now apply (one_keepalive_frame w).
  - injection Hstep as <-. now apply (one_keepalive_frame w).
  - destruct (ready_state s w) as [[]|] eqn:Hs; try discriminate.
    injection Hstep as <-.
    pose proof (single_socket_current w s _ Hone Hs ltac:(discriminate)) as Hcur.
    assert (Hclosed : ws_is_open w = false).
    { unfold ws_is_open. rewrite Hcur, Hs. reflexivity. }
    assert (Hnot : ws_is_closing w = false).
    { unfold ws_is_closing. rewrite Hcur, Hs. reflexivity. }
    destruct (idle_no_keepalive w Hkeep Hclosed Hnot) as [Hp Hi].
    unfold onopen, startPing. cbn [fresh]. split; cbn.
    + rewrite Hi. apply (right_id_L ∅ (∪)).
    + intros _. unfold ws_is_open, ready_state. cbn. rewrite Hcur, lookup_insert_eq.
      reflexivity.
  - destruct (ready_state s w) as [[]|] eqn:Hs; try discriminate.
    injection Hstep as <-.
    destruct (onmessage_frame parsed w) as (F1 & F2 & _ & F4 & _).
    apply (one_keepalive_frame w); rewrite ?F1; auto.
  - destruct (ready_state s w) as [[]|] eqn:Hs; try discriminate.
    injection Hstep as <-.
    pose proof (single_socket_current w s _ Hone Hs ltac:(discriminate)) as Hcur.
    destruct Hkeep as [Hint _]. split; [exact Hint|].
    intros _. unfold ws_is_open, ws_is_closing, ready_state, mark. cbn.
    rewrite Hcur, lookup_insert_eq. reflexivity.
  - assert (Hlive : exists r, ready_state s w = Some r /\ r <> CLOSED /\
                              w' = onclose (mark s CLOSED w)).
    { destruct (ready_state s w) as [[]|] eqn:Hs; try discriminate;
        injection Hstep as <-; eexists; repeat split; discriminate. }
    destruct Hlive as (r & Hs & Hr & ->).
    destruct Hkeep as [Hint _]. apply onclose_keepalive. exact Hint.
  - assert (Hlive : exists r, ready_state s w = Some r /\ r <> CLOSED /\
                              w' = onclose (onerror (mark s CLOSED w))).
    { destruct (ready_state s w) as [[]|] eqn:Hs; try discriminate;
        injection Hstep as <-; eexists; repeat split; discriminate. }
    destruct Hlive as (r & Hs & Hr & ->).
    destruct Hkeep as [Hint _]. apply onclose_keepalive. exact Hint.
  - destruct (timers (browser w) !! t); [|discriminate].
    injection Hstep as <-. apply connect_keepalive.
    + now apply Hcalm.
    + now apply (one_keepalive_frame w).
  - destruct (decide _); [|discriminate]. injection Hstep as <-.
    unfold ping, send. destruct (ws (client w)); [|assumption].
    destruct (ws_is_open w) eqn:E; [|assumption]. now apply (one_keepalive_frame w).
Qed.

(** X14.  On every orderly run of a new client, the only keep-alive
    timer running is the one the client remembers in [pingInterval], and
    one runs only while the current socket is open or in its closing
    handshake: no keep-alive timer is ever leaked. *)
Theorem one_keepalive_on_orderly_runs (es : list Event) (w : World) :
  orderly es new_world = true ->
  run es new_world = Some w ->
  (forall i, i ∈ intervals (browser w) <-> pingInterval (client w) = Some i) /\
  (pingInterval (client w) <> None ->
   exists s, ws (client w) = Some s /\
             (ready_state s w = Some OPEN \/ ready_state s w = Some CLOSING)).
Proof.
  intros Hes Hrun.
  assert (Hinv : single_socket w /\ one_keepalive w).
  { assert (Hnew : single_socket new_world /\ one_keepalive new_world).
    { split; [apply new_world_single_socket|]. split; [reflexivity|].
      intros H. now contradiction H. }
    revert Hes Hrun Hnew. generalize new_world.
    induction es as [|e es IH]; intros w0 Hes Hrun [H1 H2].
    - cbn in Hrun. injection Hrun as <-. now split.
    - destruct (orderly_cons e es w0 Hes) as (He & Hcalm & Hrest).
      cbn [run] in Hrun.
      destruct (step e w0) as [w1|] eqn:Hstep; [|discriminate].
      apply (IH w1); [now apply Hrest|assumption|]. split.
      + now apply (step_single_socket e w0).
      + now apply (step_keepalive e w0). }
  destruct Hinv as [_ [Hint Hopen]]. split.
  - intros i. rewrite Hint. destruct (pingInterval (client w)) as [j|].
    + rewrite elem_of_singleton. split; congruence.
    + rewrite elem_of_empty. split; [tauto|discriminate].
  - intros Hp. specialize (Hopen Hp). unfold ws_is_open, ws_is_closing in Hopen.
    destruct (ws (client w)) as [s|]; [|discriminate]. exists s. split; [reflexivity|].
    apply orb_true_iff in Hopen as [H|H]; apply bool_decide_eq_true in H; auto.
Qed.

Lemma one_keepalive_on_orderly_runs_witness :
  exists w,
    run [CallConnect "u" true; SocketOpened 0; SocketClosing 0; SocketClosed 0;
         TimerFired 2 true; SocketOpened 3] new_world = Some w /\
    pingInterval (client w) = Some 4%nat /\
    (forall i, i ∈ intervals (browser w) <-> pingInterval (client w) = Some i).
Proof.
  eexists. split; [vm_compute; reflexivity|]. split; [reflexivity|].
  eapply (one_keepalive_on_orderly_runs
            [CallConnect "u" true; SocketOpened 0; SocketClosing 0; SocketClosed 0;
             TimerFired 2 true; SocketOpened 3]).
  - vm_compute. reflexivity.
  - vm_compute. reflexivity.
Defined.

(** The closing handshake matters here too: when [connect()] is called
    in the closing window and the new socket opens before the close
    event of the old one, the first keep-alive timer is overwritten and
    keeps running, and the close event then stops the timer of the new
    socket. *)
Lemma closing_window_leaks_keepalive :
  Forall (fun e => e <> CallDisconnect) closing_window_keepalive /\
  exists w,
    run closing_window_keepalive new_world = Some w /\
    isConnected w = true /\
    pingInterval (client w) = None /\
    intervals (browser w) = {[ 1%nat ]}.
Proof.
  split; [repeat constructor; discriminate|].
  eexists. split; [vm_compute; reflexivity|].
  repeat split; vm_compute; reflexivity.
Qed.


End OrderlyRuns.

(** ** Pages under a series of notifications *)

Section NotificationFacts.
Import JsValue WS Pages Notifications.

Variables Stats Report ServerT DomainT : Type.

Local Abbreviation backend := (Backend Stats Report ServerT DomainT).
Local Abbreviation dashboard := (@Dashboard Stats Report ServerT DomainT).
Local Abbreviation serversPage := (@ServersPage Stats Report ServerT DomainT).
Local Abbreviation domainsPage := (@DomainsPage Stats Report ServerT DomainT).
Local Abbreviation assignmentsPage := (@AssignmentsPage Stats Report ServerT DomainT).

#[local] Arguments getStats {_ _ _ _} _.
#[local] Arguments getCapacityReport {_ _ _ _} _.
#[local] Arguments listServers {_ _ _ _} _ _ _ _ _.
#[local] Arguments listDomains {_ _ _ _} _ _ _ _ _.
#[local] Arguments s_servers {_} _.
#[local] Arguments s_total {_} _.
#[local] Arguments s_page {_} _.
#[local] Arguments s_pageSize {_} _.
#[local] Arguments s_statusFilter {_} _.
#[local] Arguments s_groupFilter {_} _.
#[local] Arguments m_domains {_} _.
#[local] Arguments m_total {_} _.
#[local] Arguments m_page {_} _.
#[local] Arguments m_pageSize {_} _.
#[local] Arguments m_statusFilter {_} _.
#[local] Arguments m_searchQuery {_} _.
#[local] Arguments d_stats {_ _ _} _.
#[local] Arguments d_recentServers {_ _ _} _.
#[local] Arguments d_recentDomains {_ _ _} _.
#[local] Arguments a_stats {_ _ _} _.
#[local] Arguments a_capacityReport {_ _ _} _.
#[local] Arguments a_servers {_ _ _} _.

Lemma receive_all_cons {St : Type} (p : Page Stats Report ServerT DomainT St)
  (m : WSMessage) (b : backend) (ms : list (WSMessage * backend)) (st : St) :
  receive_all p ((m, b) :: ms) st = receive_all p ms (receive p m b st).
Proof. reflexivity. Qed.

Lemma servers_page_rows (ms : list (WSMessage * backend)) (st : ServersState ServerT) :
  let st' := receive_all serversPage ms st in
  (s_page st' = s_page st /\ s_pageSize st' = s_pageSize st /\
   s_statusFilter st' = s_statusFilter st /\ s_groupFilter st' = s_groupFilter st) /\
  ((s_servers st' = s_servers st /\ s_total st' = s_total st) \/
   exists m b, (m, b) ∈ ms /\ reloads serversPage m = true /\
     listServers b (s_page st') (s_pageSize st')
       (nonempty (s_statusFilter st')) (nonzero (s_groupFilter st')) =
     Resolves (s_servers st', s_total st')).
Proof.
  revert st. induction ms as [|[m b] ms IH]; intros st st'.
  - cbn. repeat split. now left.
  - subst st'. rewrite receive_all_cons.
    destruct (IH (receive serversPage m b st)) as [(P1 & P2 & P3 & P4) Hrows].
    assert (Hone :
      (s_page (receive serversPage m b st) = s_page st /\
       s_pageSize (receive serversPage m b st) = s_pageSize st /\
       s_statusFilter (receive serversPage m b st) = s_statusFilter st /\
       s_groupFilter (receive serversPage m b st) = s_groupFilter st) /\
      ((s_servers (receive serversPage m b st) = s_servers st /\
        s_total (receive serversPage m b st) = s_total st) \/
       (reloads serversPage m = true /\
        listServers b (s_page st) (s_pageSize st)
          (nonempty (s_statusFilter st)) (nonzero (s_groupFilter st)) =
        Resolves (s_servers (receive serversPage m b st),
                  s_total (receive serversPage m b st))))).
    { rewrite receive_servers_page.
      destruct (reloads serversPage m); [|repeat split; now left].
      unfold loadServers.
      destruct (listServers b _ _ _ _) as [| |[srv tot]] eqn:E; cbn.
      - repeat split. now left.
      - repeat split. now left.
      - repeat split. right. now split. }
    destruct Hone as [(Q1 & Q2 & Q3 & Q4) Hfirst].
    split; [repeat split; congruence|].
    destruct Hrows as [[R1 R2]|(m' & b' & Hin & Hl & Hq)].
    + destruct Hfirst as [[F1 F2]|[Hl Hq]].
      * left. split; congruence.
      * right. exists m, b. split; [apply list_elem_of_here|]. split; [exact Hl|].
        rewrite P1, P2, P3, P4, Q1, Q2, Q3, Q4, R1, R2. exact Hq.
    + right. exists m', b'. split; [now apply list_elem_of_further|]. now split.
Qed.

Lemma domains_page_rows (ms : list (WSMessage * backend)) (st : DomainsState DomainT) :
  let st' := receive_all domainsPage ms st in
  (m_page st' = m_page st /\ m_pageSize st' = m_pageSize st /\
   m_statusFilter st' = m_statusFilter st /\ m_searchQuery st' = m_searchQuery st) /\
  ((m_domains st' = m_domains st /\ m_total st' = m_total st) \/
   exists m b, (m, b) ∈ ms /\ reloads domainsPage m = true /\
     listDomains b (m_page st') (m_pageSize st')
       (nonempty (m_statusFilter st')) (nonempty (m_searchQuery st')) =
     Resolves (m_domains st', m_total st')).
Proof.
  revert st. induction ms as [|[m b] ms IH]; intros st st'.
  - cbn. repeat split. now left.
  - subst st'. rewrite receive_all_cons.
    destruct (IH (receive domainsPage m b st)) as [(P1 & P2 & P3 & P4) Hrows].
    assert (Hone :
      (m_page (receive domainsPage m b st) = m_page st /\
       m_pageSize (receive domainsPage m b st) = m_pageSize st /\
       m_statusFilter (receive domainsPage m b st) = m_statusFilter st /\
       m_searchQuery (receive domainsPage m b st) = m_searchQuery st) /\
      ((m_domains (receive domainsPage m b st) = m_domains st /\
        m_total (receive domainsPage m b st) = m_total st) \/
       (reloads domainsPage m = true /\
        listDomains b (m_page st) (m_pageSize st)
          (nonempty (m_statusFilter st)) (nonempty (m_searchQuery st)) =
        Resolves (m_domains (receive domainsPage m b st),
                  m_total (receive domainsPage m b st))))).
    { rewrite receive_domains_page.
      destruct (reloads domainsPage m); [|repeat split; now left].
      unfold loadDomains.
      destruct (listDomains b _ _ _ _) as [| |[dom tot]] eqn:E; cbn.
      - repeat split. now left.
      - repeat split. now left.
      - repeat split. right. now split. }
    destruct Hone as [(Q1 & Q2 & Q3 & Q4) Hfirst].
    split; [repeat split; congruence|].
    destruct Hrows as [[R1 R2]|(m' & b' & Hin & Hl & Hq)].
    + destruct Hfirst as [[F1 F2]|[Hl Hq]].
      * left. split; congruence.
      * right. exists m, b. split; [apply list_elem_of_here|]. split; [exact Hl|].
        rewrite P1, P2, P3, P4, Q1, Q2, Q3, Q4, R1, R2. exact Hq.
    + right. exists m', b'. split; [now apply list_elem_of_further|]. now split.
Qed.

(** X16.  Whatever notifications arrive, and whatever the API answers to
    the re-reads they trigger, the servers page and the domains page keep
    their page number, page size and filters, and the rows and the total
    they show are those they showed before or an answer of the API to
    the query for exactly that page, page size and filters: a
    notification never shows rows of another page or filter. *)
Theorem list_pages_rows_answer_their_query (ms : list (WSMessage * backend)) :
  (forall st : ServersState ServerT,
     let st' := receive_all serversPage ms st in
     (s_page st' = s_page st /\ s_pageSize st' = s_pageSize st /\
      s_statusFilter st' = s_statusFilter st /\ s_groupFilter st' = s_groupFilter st) /\
     ((s_servers st' = s_servers st /\ s_total st' = s_total st) \/
      exists m b, (m, b) ∈ ms /\ reloads serversPage m = true /\
        listServers b (s_page st') (s_pageSize st')
          (nonempty (s_statusFilter st')) (nonzero (s_groupFilter st')) =
        Resolves (s_servers st', s_total st'))) /\
  (forall st : DomainsState DomainT,
     let st' := receive_all domainsPage ms st in
     (m_page st' = m_page st /\ m_pageSize st' = m_pageSize st /\
      m_statusFilter st' = m_statusFilter st /\ m_searchQuery st' = m_searchQuery st) /\
     ((m_domains st' = m_domains st /\ m_total st' = m_total st) \/
      exists m b, (m, b) ∈ ms /\ reloads domainsPage m = true /\
        listDomains b (m_page st') (m_pageSize st')
          (nonempty (m_statusFilter st')) (nonempty (m_searchQuery st')) =
        Resolves (m_domains st', m_total st'))).
Proof.
  split; intros st; [apply servers_page_rows|apply domains_page_rows].
Qed.

(** The dashboard sets its statistics before it reads the lists off
    their answers: when the list of servers resolves to [null] or
    [undefined], the new statistics stand beside the old lists. *)
Lemma dashboard_partial_reload (b : backend) (m : WSMessage)
  (st : DashboardState Stats ServerT DomainT) :
  reloads dashboard m = true ->
  rejects (getStats b) = false ->
  listServers b 1 5 None None = Nullish ->
  rejects (listDomains b 1 5 None None) = false ->
  d_stats (receive dashboard m b st) = stored (getStats b) /\
  d_recentServers (receive dashboard m b st) = d_recentServers st /\
  d_recentDomains (receive dashboard m b st) = d_recentDomains st.
Proof.
  intros Hm Hs Hl Hd. rewrite receive_dashboard, Hm. unfold dashboard_loadData.
  rewrite Hs, Hl, Hd. cbn. repeat split.
Qed.

Lemma dashboard_whole (ms : list (WSMessage * backend))
  (st : DashboardState Stats ServerT DomainT) :
  (forall m b, (m, b) ∈ ms ->
     listServers b 1 5 None None <> Nullish /\
     listDomains b 1 5 None None <> Nullish) ->
  let st' := receive_all dashboard ms st in
  (d_stats st' = d_stats st /\ d_recentServers st' = d_recentServers st /\
   d_recentDomains st' = d_recentDomains st) \/
  exists m b t t', (m, b) ∈ ms /\ reloads dashboard m = true /\
    rejects (getStats b) = false /\ d_stats st' = stored (getStats b) /\
    listServers b 1 5 None None = Resolves (d_recentServers st', t) /\
    listDomains b 1 5 None None = Resolves (d_recentDomains st', t').
Proof.
  revert st. induction ms as [|[m b] ms IH]; intros st Hok st'.
  - left. now repeat split.
  - subst st'. rewrite receive_all_cons.
    assert (Hrest_ok : forall m' b', (m', b') ∈ ms ->
              listServers b' 1 5 None None <> Nullish /\
              listDomains b' 1 5 None None <> Nullish).
    { intros m' b' Hin. apply (Hok m'). now apply list_elem_of_further. }
    destruct (IH (receive dashboard m b st) Hrest_ok)
      as [(R1 & R2 & R3)|(m' & b' & t & t' & Hin & Hrest)].
    + rewrite R1, R2, R3. rewrite receive_dashboard.
      destruct (reloads dashboard m) eqn:Hl; [|left; now repeat split].
      destruct (Hok m b ltac:(apply list_elem_of_here)) as [Hsrv Hdom].
      unfold dashboard_loadData.
      destruct (getStats b) as [| |statsData] eqn:E1;
        destruct (listServers b 1 5 None None) as [| |[srv t]] eqn:E2;
        destruct (listDomains b 1 5 None None) as [| |[dom t']] eqn:E3;
        cbn; try (left; now repeat split); try contradiction.
      all: right; exists m, b, t, t'.
      all: split; [apply list_elem_of_here|]; rewrite ?E1; now repeat split.
    + right. exists m', b', t, t'. split; [now apply list_elem_of_further|exact Hrest].
Qed.

Lemma assignments_whole (ms : list (WSMessage * backend))
  (st : AssignmentsState Stats Report ServerT) :
  (forall m b, (m, b) ∈ ms -> listServers b 1 100 None None <> Nullish) ->
  let st' := receive_all assignmentsPage ms st in
  (a_stats st' = a_stats st /\ a_capacityReport st' = a_capacityReport st /\
   a_servers st' = a_servers st) \/
  exists m b t, (m, b) ∈ ms /\ reloads assignmentsPage m = true /\
    rejects (getStats b) = false /\ a_stats st' = stored (getStats b) /\
    rejects (getCapacityReport b) = false /\
    a_capacityReport st' = stored (getCapacityReport b) /\
    listServers b 1 100 None None = Resolves (a_servers st', t).
Proof.
  revert st. induction ms as [|[m b] ms IH]; intros st Hok st'.
  - left. now repeat split.
  - subst st'. rewrite receive_all_cons.
    assert (Hrest_ok : forall m' b', (m', b') ∈ ms ->
              listServers b' 1 100 None None <> Nullish).
    { intros m' b' Hin. apply (Hok m'). now apply list_elem_of_further. }
    destruct (IH (receive assignmentsPage m b st) Hrest_ok)
      as [(R1 & R2 & R3)|(m' & b' & t & Hin & Hrest)].
    + rewrite R1, R2, R3. rewrite receive_assignments_page.
      destruct (reloads assignmentsPage m) eqn:Hl; [|left; now repeat split].
      pose proof (Hok m b ltac:(apply list_elem_of_here)) as Hsrv.
      unfold assignments_loadData.
      destruct (getStats b) as [| |statsData] eqn:E1;
        destruct (getCapacityReport b) as [| |reportData] eqn:E2;
        destruct (listServers b 1 100 None None) as [| |[srv t]] eqn:E3;
        cbn; try (left; now repeat split); try contradiction.
      all: right; exists m, b, t.
      all: split; [apply list_elem_of_here|]; rewrite ?E1, ?E2; now repeat split.
    + right. exists m', b', t. split; [now apply list_elem_of_further|exact Hrest].
Qed.

(** X17.  As long as no list of servers or domains the API answers is
    [null] or [undefined], the dashboard and the assignments page re-read
    all or nothing.  Whatever notifications arrive, the three pieces of
    data a page shows are those it showed before, or all three are the
    answers of the API to one and the same re-read, triggered by a change
    event of a channel of the page: the page never shows new statistics
    beside old lists, and a re-read of which one call failed changes none
    of them. *)
Theorem summary_pages_reload_all_or_nothing (ms : list (WSMessage * backend)) :
  (forall m b, (m, b) ∈ ms ->
     listServers b 1 5 None None <> Nullish /\
     listDomains b 1 5 None None <> Nullish /\
     listServers b 1 100 None None <> Nullish) ->
  (forall st : DashboardState Stats ServerT DomainT,
     let st' := receive_all dashboard ms st in
     (d_stats st' = d_stats st /\ d_recentServers st' = d_recentServers st /\
      d_recentDomains st' = d_recentDomains st) \/
     exists m b t t', (m, b) ∈ ms /\ reloads dashboard m = true /\
       rejects (getStats b) = false /\ d_stats st' = stored (getStats b) /\
       listServers b 1 5 None None = Resolves (d_recentServers st', t) /\
       listDomains b 1 5 None None = Resolves (d_recentDomains st', t')) /\
  (forall st : AssignmentsState Stats Report ServerT,
     let st' := receive_all assignmentsPage ms st in
     (a_stats st' = a_stats st /\ a_capacityReport st' = a_capacityReport st /\
      a_servers st' = a_servers st) \/
     exists m b t, (m, b) ∈ ms /\ reloads assignmentsPage m = true /\
       rejects (getStats b) = false /\ a_stats st' = stored (getStats b) /\
       rejects (getCapacityReport b) = false /\
       a_capacityReport st' = stored (getCapacityReport b) /\
       listServers b 1 100 None None = Resolves (a_servers st', t)).
Proof.
  intros Hok. split; intros st.
  - apply dashboard_whole. intros m b Hin. destruct (Hok m b Hin) as (H1 & H2 & _).
    now split.
  - apply assignments_whole. intros m b Hin. now destruct (Hok m b Hin) as (_ & _ & H3).
Qed.

End NotificationFacts.


Lemma summary_pages_reload_all_or_nothing_witness :
  let b := Pages.mkBackend (Pages.Resolves 7%nat) (Pages.Resolves 8%nat)
             (fun _ _ _ _ => Pages.Resolves ([1%nat; 2%nat], 2%nat))
             (fun _ _ _ _ => Pages.Resolves ([3%nat], 1%nat)) in
  let ms := [(WS.envelope "domains" "created" [], b)] in
  let st' := Notifications.receive_all Pages.Dashboard ms
               (Pages.mkDashboard nat nat nat None [] [] true) in
  exists m b' t t',
    (m, b') ∈ ms /\
    Pages.reloads (@Pages.Dashboard nat nat nat nat) m = true /\
    Pages.rejects (Pages.getStats _ _ _ _ b') = false /\
    Pages.d_stats _ _ _ st' = Pages.stored (Pages.getStats _ _ _ _ b') /\
    Pages.listServers _ _ _ _ b' 1 5 None None =
      Pages.Resolves (Pages.d_recentServers _ _ _ st', t) /\
    Pages.listDomains _ _ _ _ b' 1 5 None None =
      Pages.Resolves (Pages.d_recentDomains _ _ _ st', t').
Proof.
  intros b ms st'.
  destruct (summary_pages_reload_all_or_nothing nat nat nat nat ms) as [Hd _].
  - intros m b' Hin. apply list_elem_of_singleton in Hin. injection Hin as -> ->.
    repeat split; discriminate.
  - destruct (Hd (Pages.mkDashboard nat nat nat None [] [] true)) as [(Hsame & _)|Hnew].
    + vm_compute in Hsame. discriminate.
    + exact Hnew.
Defined.

(** ** The authentication gate *)

Section AuthFacts.
Import JsValue Auth.

(** X18.  After the check of the session the provider shows the
    application exactly when [/auth/me] answered a body whose
    [authenticated] is truthy, and then the browser is not sent to the
    login page; in every other case (a falsy or missing [authenticated],
    a [null] body, a failed request) it shows the redirect screen and the
    browser has been sent to the login page.  It is never left on the
    authenticating screen. *)
Theorem auth_gate (reply : option jsval) :
  let st := checkAuth reply initial in
  (render st = Children <->
   exists userData a, reply = Some userData /\
     get_prop userData "authenticated" = Some a /\ truthy a = true) /\
  (render st = Children -> redirected st = false) /\
  (render st <> Children -> render st = Redirecting /\ redirected st = true).
Proof.
  unfold checkAuth, render, optional_prop, initial.
  destruct reply as [userData|]; cbn.
  - destruct (get_prop userData "authenticated") as [a|] eqn:Ha.
    + destruct (truthy a) eqn:Ht; cbn; rewrite Ha, Ht; cbn.
      * split; [|split; [reflexivity|intros H; now contradiction H]].
        split; [intros _; now exists userData, a|reflexivity].
      * split; [|split; [discriminate|now split]].
        split; [discriminate|]. intros (u & a' & Hu & Ha' & Ht').
        injection Hu as <-. congruence.
    + cbn. rewrite Ha. cbn.
      split; [|split; [discriminate|now split]].
      split; [discriminate|]. intros (u & a' & Hu & Ha' & Ht').
      injection Hu as <-. congruence.
  - split; [|split; [discriminate|now split]].
    split; [discriminate|]. intros (u & a' & Hu & _). discriminate.
Qed.

End AuthFacts.

(** ** The capacity bar of the assignments page *)

Section OverviewFacts.
Import JsNum JsMath Overview.

(** X19.  The bar of the capacity overview never overflows its track:
    whatever utilization the report gives, the width is at most 100
    (or not a number when the utilization is not a number), the bar is
    red exactly when it is full, and for a server without a utilization
    it is an empty green bar. *)
Theorem overview_bar_is_capped (utilization_percent : option jsnum) :
  (bar_width utilization_percent = NaN \/
   le (bar_width utilization_percent) (of_Z 100) = true) /\
  (bar_width utilization_percent = NaN <-> utilization_percent = Some NaN) /\
  (bar_color utilization_percent = red <->
   ge (bar_width utilization_percent) (of_Z 100) = true) /\
  (utilization_percent = None ->
   bar_width utilization_percent = Fin 0 /\ bar_color utilization_percent = green).
Proof.
  unfold bar_width, bar_color.
  destruct utilization_percent as [[q| | |]|]; cbn.
  - destruct (Qle_bool q (inject_Z 100)) eqn:E; cbn.
    + rewrite E. split; [now right|]. split; [split; discriminate|].
      split; [|discriminate].
      destruct (Qle_bool (inject_Z 100) q); [now split|].
      destruct (negb (Qle_bool q (inject_Z 70))); split; discriminate.
    + assert (H100 : Qle_bool (inject_Z 100) q = true).
      { apply Qle_bool_iff. apply Qlt_le_weak, Qnot_le_lt. intros H.
        apply Qle_bool_iff in H. congruence. }
      rewrite H100. split; [now right|]. split; [split; discriminate|].
      split; [now split|discriminate].
  - split; [now right|]. split; [split; discriminate|]. split; [now split|discriminate].
  - split; [now right|]. split; [split; discriminate|]. split; [split; discriminate|discriminate].
  - split; [now left|]. split; [now split|]. split; [split; discriminate|discriminate].
  - split; [now right|]. split; [split; discriminate|]. split; [split; discriminate|].
    intros _. now split.
Qed.

End OverviewFacts.

(** ** How [fetchApi] settles *)

Section ApiSettlement.
Import JsValue Api.

Variable ToString : jsval -> string.

(** X20.  [fetchApi] resolves only on a response with a success status:
    to [undefined] on 204, whose body is not read, and otherwise to the
    parsed body.  A success response other than 204 whose body does not
    parse rejects with the parser's error, not with an [ApiError]; an
    [ApiError] is raised on failed responses only and carries the status
    of the response. *)
Theorem fetchApi_settlement (r : Response) :
  (forall v, settled (fetchApi ToString r) = Resolved v <->
     ok r = true /\
     ((status r = 204%nat /\ v = VUndefined) \/
      (status r <> 204%nat /\ json_body r = Some v))) /\
  (settled (fetchApi ToString r) = Rejected ThrowSyntaxError <->
     ok r = true /\ status r <> 204%nat /\ json_body r = None) /\
  (forall e, settled (fetchApi ToString r) = Rejected (ThrowApiError e) ->
     ok r = false /\ error_status e = status r) /\
  (body_parsed (fetchApi ToString r) = false <-> status r = 204%nat).
Proof.
  unfold fetchApi. destruct (ok r) eqn:Hok; cbn [negb].
  - destruct (Nat.eqb_spec (status r) 204) as [Hs|Hs]; cbn [settled body_parsed].
    + split; [|split; [|split]].
      * intros v. split.
        -- intros Hv. injection Hv as <-. split; [reflexivity|now left].
        -- intros [_ [[_ ->]|[Hne _]]]; [reflexivity|contradiction].
      * split; [discriminate|]. intros (_ & Hne & _). contradiction.
      * intros e He. discriminate.
      * now split.
    + destruct (json_body r) as [body|]; cbn [settled body_parsed].
      * split; [|split; [|split]].
        -- intros v. split.
           ++ intros Hv. injection Hv as <-. split; [reflexivity|now right].
           ++ intros [_ [[He _]|[_ Hb]]]; [contradiction|congruence].
        -- split; [discriminate|]. intros (_ & _ & Hb). discriminate.
        -- intros e He. discriminate.
        -- split; [discriminate|]. intros He. contradiction.
      * split; [|split; [|split]].
        -- intros v. split; [discriminate|].
           intros [_ [[He _]|[_ Hb]]]; [contradiction|discriminate].
        -- now split.
        -- intros e He. discriminate.
        -- split; [discriminate|]. intros He. contradiction.
  - assert (Hne : status r <> 204%nat).
    { intros Hs. unfold ok in Hok. rewrite Hs in Hok. discriminate. }
    destruct (get_prop _ "detail") as [detail|]; cbn [settled body_parsed].
    + split; [|split; [|split]].
      * intros v. split; [discriminate|]. intros [Ht _]. discriminate.
      * split; [discriminate|]. intros [Ht _]. discriminate.
      * intros e He. injection He as <-. now split.
      * split; [discriminate|]. intros He. contradiction.
    + split; [|split; [|split]].
      * intros v. split; [discriminate|]. intros [Ht _]. discriminate.
      * split; [discriminate|]. intros [Ht _]. discriminate.
      * intros e He. discriminate.
      * split; [discriminate|]. intros He. contradiction.
Qed.

End ApiSettlement.
